(** * Focus_Flow: the dashboard's client-side computations and the weekly
      leaderboard engine

    The development embeds [frontend/src/pages/DashboardPage.js] function by
    function and proves the properties its specification states about it.

    Modelling conventions.
    - A JavaScript number is a double.  A double that holds an instant in
      milliseconds, a count or a number of seconds is integer-valued and is
      modelled as the [Z] it holds; additions, subtractions and comparisons
      of such values are exact as long as the results stay below 2^53 in
      magnitude, which the range of [Date] (8.64e15 ms around the epoch)
      guarantees for the instants of the page.
    - The quotients and products whose result need not be an integer, those
      of the percentages and of [formatDDHHMMSS], are computed on the
      rationals and rounded to the nearest double by [Double.binary64].
      [Math.floor(a / b)] on two integers below 2^53, [0 < b], is the floor
      of the exact quotient (lemma [DoubleFacts.floor_div_exact]): the
      rounding of the division cannot reach the next integer.  The clock
      computations, whose operands are time values, use [Z.div] for it.
    - A value that may be [NaN] (the result of [Date.parse]) is an
      [option Z]; [Number.isFinite] is then the test for [Some].
    - An optional JSON field ([undefined] or [null] when missing) is an
      [option]; the truthiness tests of the source ([x ? a : b], [x || d])
      are written out with [truthy_str] and [or_default].
    - [Date.parse], [Date.prototype.toISOString] and
      [String.prototype.toUpperCase] are built-ins of the host; the
      functions that call them take them as section variables.
    - A string that is only compared or looked up (a habit id, an ISO
      date) or that holds ASCII text (a test id, a URL) is a [string]; a
      name, whose characters are counted, sliced and upper-cased, is its
      sequence of UTF-16 code units. *)

From Stdlib Require Import ZArith List Lia Bool.
From Stdlib Require Import Strings.String Strings.Ascii.
From Stdlib Require Import QArith Qround Qpower Lqa.
From Stdlib Require Import Decimal DecimalString DecimalN.
From Stdlib Require Import Permutation Sorted.
From stdpp Require Import gmap strings.

Local Open Scope string_scope.
Local Open Scope Z_scope.

(** ** Doubles

    The finite values of IEEE 754 binary64 are the rationals [m * 2^e] with
    [|m| < 2^53] and [-1074 <= e <= 971].  [binary64 x] is the double nearest
    to the rational [x], a tie going to the even significand, as every
    arithmetic operation of JavaScript rounds its exact result.  Overflow to
    [Infinity] is not modelled: the operations below divide by a number of at
    least 1 or multiply a quotient of two counts by 100. *)

Module Double.

(** The integer nearest to [q], a tie going to the even one. *)
Definition rne (q : Q) : Z :=
  let f := Qfloor q in
  match Qcompare (q - inject_Z f) (1 # 2) with
  | Lt => f
  | Gt => f + 1
  | Eq => if Z.even f then f else f + 1
  end.

(** [floor (log2 x)] for [0 < x]. *)
Definition ilog2 (x : Q) : Z :=
  if Qle_bool 1 x then Z.log2 (Qfloor x) else - Z.log2_up (Qceiling (/ x)).

(** The exponent of the last place of the doubles around [x]: 52 places
    below the leading bit, and never below that of the subnormal numbers. *)
Definition exponent (x : Q) : Z := Z.max (ilog2 x - 52) (-1074).

Definition round_pos (x : Q) : Q :=
  let u := (2 ^ exponent x)%Q in (inject_Z (rne (x / u)) * u)%Q.

Definition binary64 (x : Q) : Q :=
  match Qcompare x 0 with
  | Eq => 0%Q
  | Gt => round_pos x
  | Lt => (- round_pos (- x))%Q
  end.

End Double.

(** ** JavaScript helpers *)

Module JS.

(** Truthiness of an optional string: [undefined], [null] and [""] are
    falsy. *)
Definition truthy_str (o : option string) : bool :=
  match o with
  | Some s => negb (String.eqb s "")
  | None => false
  end.

(** [x || d] on an optional number: [undefined], [null] and [0] are
    falsy. *)
Definition or_default (o : option Z) (d : Z) : Z :=
  match o with
  | Some n => if n =? 0 then d else n
  | None => d
  end.

(** [x / y] and [x * y] on doubles; the divisors of the page are at least
    1. *)
Definition div (x y : Q) : Q := Double.binary64 (x / y).
Definition mul (x y : Q) : Q := Double.binary64 (x * y).

(** [Math.floor] and [Math.round] of a double: the greatest integer not
    above it, and the integer nearest to it with a tie going up.  Both are
    exact. *)
Definition Math_floor (x : Q) : Z := Qfloor x.
Definition Math_round (x : Q) : Z := Qfloor (x + (1 # 2)).

(** [Math.max(1, ...xs)]. *)
Definition max_from (lo : Z) (xs : list Z) : Z := fold_left Z.max xs lo.

End JS.

(** ** Payloads of the backend API, as the page reads them *)

Record HabitLog := {
  log_status : option string;
  log_habit_id : option string
}.

Record Habit := {
  habit_id : string;
  habit_name : string;
  habit_goal : option Z
}.

Record LeaderboardEntry := {
  user_id : string;
  name : option string;
  score : option Z;
  rank : Z
}.

Record Leaderboard := {
  week_start : option string;
  week_end : option string;
  entries : option (list LeaderboardEntry);
  reset_at : option string
}.

Record Countdown := {
  cd_now : option string;
  day_end : option string;
  cd_week_end : option string;
  month_end : option string
}.

Record Breakdown := {
  completed : option Z;
  missed : option Z;
  skipped : option Z
}.

Record Dashboard := {
  completion_breakdown : option Breakdown
}.

(** ** The clock-dependent values of the page *)

Section Clock.

(** [Date.parse]: the milliseconds of an instant, [None] for [NaN]. *)
Variable Date_parse : string -> option Z.

(** [Date.parse(x)] on a field that may be missing: [Date.parse(undefined)]
    is [NaN]. *)
Definition parse_field (o : option string) : option Z :=
  match o with
  | Some s => Date_parse s
  | None => None
  end.

(** [setServerOffsetMs] in [fetchDashboardData] (lines 258-261): the offset
    is replaced only when the server's [now] parses. *)
Definition updateServerOffset (serverOffsetMs : Z) (now_field : option string)
    (Date_now : Z) : Z :=
  match parse_field now_field with
  | Some serverNowMs => serverNowMs - Date_now
  | None => serverOffsetMs
  end.

(** [useState(0)] *)
Definition initialServerOffsetMs : Z := 0.

Definition computeSecondsRemaining (serverOffsetMs Date_now : Z) (iso : string) : Z :=
  match Date_parse iso with
  | None => 0
  | Some t =>
      let now := Date_now + serverOffsetMs in
      Z.max 0 ((t - now) / 1000)
  end.

(** [countdown?.day_end ? computeSecondsRemaining(countdown.day_end) : 0],
    and the same for the two other boundaries. *)
Definition secondsFor (serverOffsetMs Date_now : Z) (end_field : option string) : Z :=
  match end_field with
  | Some iso =>
      if JS.truthy_str end_field
      then computeSecondsRemaining serverOffsetMs Date_now iso
      else 0
  | None => 0
  end.

Definition daySeconds (c : option Countdown) (off Date_now : Z) : Z :=
  match c with Some c => secondsFor off Date_now (day_end c) | None => 0 end.
Definition weekSeconds (c : option Countdown) (off Date_now : Z) : Z :=
  match c with Some c => secondsFor off Date_now (cd_week_end c) | None => 0 end.
Definition monthSeconds (c : option Countdown) (off Date_now : Z) : Z :=
  match c with Some c => secondsFor off Date_now (month_end c) | None => 0 end.

Definition daysElapsedInWeek (serverOffsetMs Date_now : Z)
    (weekStartIso : option string) : Z :=
  let nowMs := Date_now + serverOffsetMs in
  let startMs := if JS.truthy_str weekStartIso then parse_field weekStartIso else None in
  match startMs with
  | None => 0
  | Some startMs =>
      let diffDays := (nowMs - startMs) / 86400000 + 1 in
      Z.max 0 (Z.min 7 diffDays)
  end.

Definition totalPossibleThisWeek (habits : list Habit)
    (serverOffsetMs Date_now : Z) (weekStartIso : option string) : Z :=
  Z.max 1 (Z.of_nat (List.length habits)
           * Z.max 1 (daysElapsedInWeek serverOffsetMs Date_now weekStartIso)).

(** What the strip shows for the three boundaries of a payload. *)
Definition displayed (c : Countdown) (off now : Z) : list Z :=
  [ daySeconds (Some c) off now;
    weekSeconds (Some c) off now;
    monthSeconds (Some c) off now ].

(** The remaining whole seconds until [end_field] at the instant [at_]. *)
Definition remaining (at_ : Z) (end_field : option string) : Z :=
  match parse_field end_field with
  | Some t => Z.max 0 ((t - at_) / 1000)
  | None => 0
  end.

End Clock.

(** ** The habit list card and the leaderboard card *)

(** [Math.round((x / y) * 100)] on two counts, the percentage of lines 153
    and 402. *)
Definition percentOf (x y : Z) : Z :=
  JS.Math_round (JS.mul (JS.div (inject_Z x) (inject_Z y)) 100).

(** The accumulator of [weekLogs.reduce(...)] is a plain object [{}] used as
    a map from habit id to count.  A plain object inherits the members of
    [Object.prototype], so reading a key that is the name of one of them
    yields that member and not [undefined]. *)
Module Obj.

(** What an own property of the accumulator holds: a count, or the text that
    [(member || 0) + 1] makes of an inherited member (the source text of the
    function followed by ["1"], and one more ["1"] per later log); such a
    text does not read as a number. *)
Inductive slot :=
  | Count (n : Z)
  | Text.

(** The own properties. *)
Abbreviation t := (gmap string slot).

(** The names every object inherits from [Object.prototype]. *)
Definition prototype_names : list string :=
  [ "constructor"; "hasOwnProperty"; "isPrototypeOf"; "propertyIsEnumerable";
    "toLocaleString"; "toString"; "valueOf"; "__proto__";
    "__defineGetter__"; "__defineSetter__"; "__lookupGetter__";
    "__lookupSetter__" ].

Definition inherited (k : string) : bool :=
  existsb (String.eqb k) prototype_names.

(** The result of reading [o[k]]. *)
Inductive value :=
  | Undefined
  | Num (n : Z)
  | Str
  | Member.

Definition get (o : t) (k : string) : value :=
  match o !! k with
  | Some (Count n) => Num n
  | Some Text => Str
  | None => if inherited k then Member else Undefined
  end.

(** [(v || 0) + 1]: a text and an inherited member are truthy, and [+]
    concatenates. *)
Definition plus_one (v : value) : slot :=
  match v with
  | Undefined => Count 1
  | Num n => Count (JS.or_default (Some n) 0 + 1)
  | Str => Text
  | Member => Text
  end.

(** [o[k] = v] for a number or a text [v]: an own property is created or
    overwritten, except for [__proto__], whose inherited setter ignores a
    value that is neither an object nor [null]. *)
Definition assign (o : t) (k : string) (v : slot) : t :=
  if String.eqb k "__proto__" then o else <[k := v]> o.

(** The value of [Object.values(o).reduce((sum, n) => sum + (n || 0), 0)]:
    a number as long as every value is a count, a text from the first text
    on. *)
Inductive total :=
  | Total (n : Z)
  | TotalText.

Definition add (sum : total) (v : slot) : total :=
  match sum, v with
  | Total a, Count n => Total (a + JS.or_default (Some n) 0)
  | _, _ => TotalText
  end.

End Obj.

(** [weekLogs.reduce(...)] of lines 286-291; an element of the array may be
    [null] ([log?.]), which is the [None] of the list. *)
Definition is_completed (log : HabitLog) : bool :=
  match log_status log with
  | Some s => String.eqb s "completed"
  | None => false
  end.

Definition countLog (acc : Obj.t) (log : option HabitLog) : Obj.t :=
  match log with
  | Some l =>
      match log_habit_id l with
      | Some id =>
          if is_completed l && JS.truthy_str (log_habit_id l)
          then Obj.assign acc id (Obj.plus_one (Obj.get acc id))
          else acc
      | None => acc
      end
  | None => acc
  end.

Definition completedByHabit (weekLogs : list (option HabitLog)) : Obj.t :=
  fold_left countLog weekLogs ∅.

(** [Object.values(completedByHabit).reduce((sum, n) => sum + (n || 0), 0)];
    the order in which the values are visited changes neither a sum of
    counts nor the fact that a text takes part. *)
Definition sumValues (o : Obj.t) : Obj.total :=
  map_fold (fun _ v sum => Obj.add sum v) (Obj.Total 0) o.

Definition totalCompletedThisWeek (weekLogs : list (option HabitLog)) : Obj.total :=
  sumValues (completedByHabit weekLogs).

(** Lines 400-402, for one habit [h] of [habits.map]. *)
Definition habitDone (byHabit : Obj.t) (h : Habit) : Obj.value :=
  match Obj.get byHabit (habit_id h) with
  | Obj.Undefined => Obj.Num 0
  | Obj.Num n => Obj.Num (JS.or_default (Some n) 0)
  | v => v
  end.

Definition habitGoal (h : Habit) : Z :=
  Z.max 1 (JS.or_default (habit_goal h) 7).

(** [None] is [NaN]: a [done] that is a text or a function makes the
    quotient [NaN], which [Math.round], [Math.min] and [Math.max] pass on. *)
Definition habitPct (byHabit : Obj.t) (h : Habit) : option Z :=
  let goal := habitGoal h in
  match habitDone byHabit h with
  | Obj.Num done => Some (Z.max 0 (Z.min 100 (percentOf done goal)))
  | _ => None
  end.

(** [WeeklyLeaderboardCard], lines 129-130 and 153. *)
Definition leaderboardEntries (leaderboard : option Leaderboard) : list LeaderboardEntry :=
  match leaderboard with
  | Some l => match entries l with Some es => es | None => [] end
  | None => []
  end.

Definition entryScore (e : LeaderboardEntry) : Z := JS.or_default (score e) 0.

Definition maxScore (es : list LeaderboardEntry) : Z :=
  JS.max_from 1 (map entryScore es).

Definition entryPct (es : list LeaderboardEntry) (e : LeaderboardEntry) : Z :=
  percentOf (entryScore e) (maxScore es).

(** ** The completion breakdown chart, lines 312-316 *)

Module COLORS.
Definition success : string := "#10B981".
Definition danger : string := "#EF4444".
Definition muted : string := "#52525B".
End COLORS.

Record PieItem := {
  pie_name : string;
  pie_value : Z;
  pie_color : string
}.

Definition pieCandidates (b : Breakdown) : list PieItem :=
  [ {| pie_name := "Completed"; pie_value := JS.or_default (completed b) 0;
       pie_color := COLORS.success |};
    {| pie_name := "Missed"; pie_value := JS.or_default (missed b) 0;
       pie_color := COLORS.danger |};
    {| pie_name := "Skipped"; pie_value := JS.or_default (skipped b) 0;
       pie_color := COLORS.muted |} ].

Definition pieData (data : option Dashboard) : list PieItem :=
  match data with
  | Some d =>
      match completion_breakdown d with
      | Some b => List.filter (fun item => 0 <? pie_value item) (pieCandidates b)
      | None => []
      end
  | None => []
  end.

(** ** The countdown strip: [pad2] and [formatDDHHMMSS], lines 83-92 *)

(** The argument of [formatDDHHMMSS] is any JavaScript number; [Finite q]
    is the double of value [q]. *)
Inductive number :=
  | NaN
  | Infinity (negative : bool)
  | Finite (q : Q).

(** The decimal digits of an integer [n >= 0]. *)
Definition String_of_int (n : Z) : string :=
  NilEmpty.string_of_uint (N.to_uint (Z.to_N n)).

(** [String(n)] for a double that holds an integer [n >= 0].  Below 2^53
    every integer is a double and the text is its decimal digits.  From 2^53
    on the text has the digits of the shortest decimal that reads back as
    the same double, followed by zeros up to 21 digits and in exponent
    notation beyond. *)
Module NumberToString.

(** The decimal [c] reads back as the double [n]. *)
Definition reads_as (c n : Z) : bool :=
  Qeq_bool (Double.binary64 (inject_Z c)) (inject_Z n).

(** The decimal of [k] significant digits that reads back as [n], if there
    is one: the nearest to [n] of the two multiples of [10^(d - k)] around
    it, [d] being the number of digits of [n]. *)
Definition candidate (n d k : Z) : option Z :=
  if d <? k then Some n
  else
    let p := 10 ^ (d - k) in
    let s := n / p in
    let lo := s * p in
    let hi := lo + p in
    match reads_as lo n, reads_as hi n with
    | true, true =>
        match (n - lo) ?= (hi - n) with
        | Lt => Some lo
        | Gt => Some hi
        | Eq => if Z.even s then Some lo else Some hi
        end
    | true, false => Some lo
    | false, true => Some hi
    | false, false => None
    end.

Fixpoint shortest_from (n d k : Z) (fuel : nat) : Z :=
  match fuel with
  | O => n
  | S fuel' =>
      match candidate n d k with
      | Some c => c
      | None => shortest_from n d (k + 1) fuel'
      end
  end.

(** Seventeen significant digits tell any two doubles apart. *)
Definition shortest (n : Z) : Z :=
  shortest_from n (Z.of_nat (String.length (String_of_int n))) 1 17.

Fixpoint stripZeros (s : string) : string :=
  match s with
  | EmptyString => EmptyString
  | String c s' =>
      match stripZeros s' with
      | EmptyString => if Ascii.eqb c "0" then EmptyString else String c EmptyString
      | r => String c r
      end
  end.

(** [d.ddde+x] for the digits [ds] of an integer: the first digit, the
    others without their trailing zeros after a point, and the exponent. *)
Definition fraction (r : string) : string :=
  match r with
  | EmptyString => EmptyString
  | _ => "." ++ r
  end.

Definition exponential (ds : string) : string :=
  match ds with
  | EmptyString => EmptyString
  | String d1 tl =>
      String d1 (fraction (stripZeros tl) ++ "e+"
                 ++ String_of_int (Z.of_nat (String.length tl)))
  end.

Definition toString (n : Z) : string :=
  if n <? 2 ^ 53 then String_of_int n
  else
    let c := shortest n in
    if c <? 10 ^ 21 then String_of_int c else exponential (String_of_int c).

End NumberToString.

Fixpoint repeat_char (c : ascii) (n : nat) : string :=
  match n with
  | O => EmptyString
  | S n' => String c (repeat_char c n')
  end.

(** [s.padStart(targetLength, c)] for a one-character filler. *)
Definition padStart (s : string) (targetLength : nat) (c : ascii) : string :=
  (repeat_char c (targetLength - String.length s) ++ s)%string.

Definition pad2 (n : Z) : string :=
  padStart (NumberToString.toString (Z.max 0 n)) 2 "0"%char.

(** [Math.max(0, Number.isFinite(x) ? Math.floor(x) : 0)] *)
Definition wholeSeconds (totalSeconds : number) : Z :=
  Z.max 0 (match totalSeconds with
           | Finite q => JS.Math_floor q
           | _ => 0
           end).

(** [%] is the remainder that takes the sign of the dividend, [Z.rem]; it
    is exact on doubles. *)
Definition formatDDHHMMSS (totalSeconds : number) : string :=
  let s := wholeSeconds totalSeconds in
  let days := JS.Math_floor (JS.div (inject_Z s) 86400) in
  let hours := JS.Math_floor (JS.div (inject_Z (Z.rem s 86400)) 3600) in
  let minutes := JS.Math_floor (JS.div (inject_Z (Z.rem s 3600)) 60) in
  let seconds := Z.rem s 60 in
  (pad2 days ++ ":" ++ pad2 hours ++ ":" ++ pad2 minutes ++ ":" ++ pad2 seconds)%string.

(** ** Texts of the ASCII range

    The labels of the KPI cards and the base URL of the API are ASCII texts;
    they are [string]s. *)
Module AsciiText.

(** The ASCII members of [\s]: space, tab, line feed, vertical tab, form
    feed, carriage return. *)
Definition is_space (c : ascii) : bool :=
  let n := nat_of_ascii c in
  (n =? 32)%nat || ((9 <=? n)%nat && (n <=? 13)%nat).

Definition is_empty (s : string) : bool :=
  match s with
  | EmptyString => true
  | String _ _ => false
  end.

End AsciiText.

(** ** Avatar initials: [nameInitials], lines 121-126 *)

(** A name is any JavaScript string, a sequence of UTF-16 code units;
    [length], [slice] and indexing count code units. *)
Module Initials.

Definition jsstring := list N.

(** The code units of an ASCII text. *)
Definition units (s : string) : jsstring :=
  map N_of_ascii (list_ascii_of_string s).

(** The characters [\s] matches and [trim] removes: the white space and
    the line terminators of ECMAScript. *)
Definition is_space (c : N) : bool :=
  ((9 <=? c) && (c <=? 13) || (c =? 32) || (c =? 160) || (c =? 5760)
   || (8192 <=? c) && (c <=? 8202) || (c =? 8232) || (c =? 8233)
   || (c =? 8239) || (c =? 8287) || (c =? 12288) || (c =? 65279))%N.

Definition is_empty (s : jsstring) : bool :=
  match s with
  | [] => true
  | _ :: _ => false
  end.

Fixpoint trimStart (s : jsstring) : jsstring :=
  match s with
  | [] => []
  | c :: s' => if is_space c then trimStart s' else s
  end.

Fixpoint trimEnd (s : jsstring) : jsstring :=
  match s with
  | [] => []
  | c :: s' =>
      let r := trimEnd s' in
      if is_space c && is_empty r then [] else c :: r
  end.

Definition trim (s : jsstring) : jsstring := trimEnd (trimStart s).

(** [s.split(/\s+/)]: the pieces between the maximal runs of white space;
    [cur] is the piece being read, [in_run] tells that the previous
    character belonged to a separator. *)
Fixpoint split_go (s cur : jsstring) (in_run : bool) : list jsstring :=
  match s with
  | [] => [cur]
  | c :: s' =>
      if is_space c
      then if in_run then split_go s' cur true
           else cur :: split_go s' [] true
      else split_go s' (cur ++ [c])%list false
  end.

Definition split_ws (s : jsstring) : list jsstring := split_go s [] false.

(** [.filter(Boolean)] on strings keeps the non-empty ones. *)
Definition filter_Boolean (l : list jsstring) : list jsstring :=
  List.filter (fun p => negb (is_empty p)) l.

(** [s.slice(0, 2)] *)
Definition slice_0_2 (s : jsstring) : jsstring := firstn 2 s.

(** [s[0]]: [None] stands for [undefined], the value of the index
    expression on an empty string. *)
Definition index0 (s : jsstring) : option N :=
  match s with
  | [] => None
  | c :: _ => Some c
  end.

(** [String(name || '')] for a name that is a string, [null] or
    [undefined]. *)
Definition String_or_empty (name : option jsstring) : jsstring :=
  match name with
  | Some s => s
  | None => []
  end.

Definition parts (name : option jsstring) : list jsstring :=
  filter_Boolean (split_ws (trim (String_or_empty name))).

Section Host.

(** [String.prototype.toUpperCase], a built-in of the host that follows the
    Unicode case mappings; it can lengthen a string (["ß"] becomes
    ["SS"]). *)
Variable toUpperCase : jsstring -> jsstring.

(** The result is [None] when [undefined] would flow into the
    concatenation of the two initials. *)
Definition nameInitials (name : option jsstring) : option jsstring :=
  match parts name with
  | [] => Some (units "U")
  | [p] => Some (toUpperCase (slice_0_2 p))
  | p0 :: p1 :: _ =>
      match index0 p0, index0 p1 with
      | Some a, Some b => Some (toUpperCase [a; b])
      | _, _ => None
      end
  end.

End Host.

(** The words of a string, as the specification speaks of them: its
    maximal runs of characters that are not white space. *)
Fixpoint words_go (s cur : jsstring) : list jsstring :=
  match s with
  | [] => if is_empty cur then [] else [cur]
  | c :: s' =>
      if is_space c
      then if is_empty cur then words_go s' []
           else cur :: words_go s' []
      else words_go s' (cur ++ [c])%list
  end.

Definition words (s : jsstring) : list jsstring := words_go s [].

Definition all_space (s : jsstring) : bool := forallb is_space s.

(** The code units of the ASCII range, and what [toUpperCase] does to
    them. *)
Definition is_ascii (c : N) : bool := (c <? 128)%N.

Definition ascii_only (s : jsstring) : bool := forallb is_ascii s.

Definition is_lower (c : N) : bool := ((97 <=? c) && (c <=? 122))%N.

Definition upper_unit (c : N) : N := if is_lower c then (c - 32)%N else c.

Definition no_lower (s : jsstring) : bool := forallb (fun c => negb (is_lower c)) s.

Definition no_space (s : jsstring) : bool := forallb (fun c => negb (is_space c)) s.

End Initials.

(** ** Loading the page: [fetchDashboardData], lines 235-268 *)

Inductive exn :=
  | RequestError (msg : string)
  | RangeError (msg : string).

(** A settled promise: fulfilled with a value or rejected with an error. *)
Inductive settled (A : Type) :=
  | Fulfilled (a : A)
  | Rejected (e : exn).
Arguments Fulfilled {A} a.
Arguments Rejected {A} e.

(** An axios response; [res_data] is its [data] field. *)
Record Response (A : Type) := { res_data : option A }.
Arguments res_data {A} r.
Arguments Build_Response {A} res_data.

(** The requests the page sends, with the outcome of each. *)
Record Backend := {
  getDashboard : settled (Response Dashboard);
  getWeekly : Z -> Z -> settled (Response Leaderboard);
  getCountdown : settled (Response Countdown);
  getAllHabits : settled (Response (list Habit));
  getAllLogs : string -> string -> settled (Response (list (option HabitLog)))
}.

(** The state of the component (the [useState] cells the fetch writes). *)
Record PageState := {
  loading : bool;
  data : option Dashboard;
  leaderboard : option Leaderboard;
  countdown : option Countdown;
  habits : list Habit;
  weekLogs : list (option HabitLog);
  serverOffsetMs : Z
}.

Definition initialState : PageState :=
  {| loading := true; data := None; leaderboard := None; countdown := None;
     habits := []; weekLogs := []; serverOffsetMs := 0 |}.

(** One line written by [console.error]. *)
Definition console := list (string * exn).

(** Computations that read and write the component state, write to the
    console, and either return or throw. *)
Module Async.

Definition M (A : Type) : Type :=
  PageState -> console -> settled A * PageState * console.

Definition ret {A} (a : A) : M A := fun st out => (Fulfilled a, st, out).

Definition throw {A} (e : exn) : M A := fun st out => (Rejected e, st, out).

Definition bind {A B} (c : M A) (k : A -> M B) : M B :=
  fun st out =>
    match c st out with
    | (Fulfilled a, st', out') => k a st' out'
    | (Rejected e, st', out') => (Rejected e, st', out')
    end.

(** [await p] *)
Definition await {A} (p : settled A) : M A :=
  match p with
  | Fulfilled a => ret a
  | Rejected e => throw e
  end.

(** [try { c } catch (error) { h error }] *)
Definition try_catch {A} (c : M A) (h : exn -> M A) : M A :=
  fun st out =>
    match c st out with
    | (Fulfilled a, st', out') => (Fulfilled a, st', out')
    | (Rejected e, st', out') => h e st' out'
    end.

(** [try { c } finally { f }] *)
Definition try_finally {A} (c : M A) (f : M unit) : M A :=
  fun st out =>
    match c st out with
    | (r, st', out') =>
        match f st' out' with
        | (Fulfilled _, st'', out'') => (r, st'', out'')
        | (Rejected e, st'', out'') => (Rejected e, st'', out'')
        end
    end.

Definition modify (f : PageState -> PageState) : M unit :=
  fun st out => (Fulfilled tt, f st, out).

Definition console_error (msg : string) (e : exn) : M unit :=
  fun st out => (Fulfilled tt, st, (out ++ [(msg, e)])%list).

(** [Promise.all] of four requests: rejected as soon as one of them is;
    when several are, the model reports the first of the array. *)
Definition Promise_all4 {A B C D} (a : settled A) (b : settled B)
    (c : settled C) (d : settled D) : settled (A * B * C * D) :=
  match a, b, c, d with
  | Fulfilled x, Fulfilled y, Fulfilled z, Fulfilled w => Fulfilled (x, y, z, w)
  | Rejected e, _, _, _ => Rejected e
  | _, Rejected e, _, _ => Rejected e
  | _, _, Rejected e, _ => Rejected e
  | _, _, _, Rejected e => Rejected e
  end.

End Async.

Declare Scope async_scope.
Delimit Scope async_scope with async.
Notation "'let*' x ':=' c 'in' k" := (Async.bind c (fun x => k))
  (at level 10, x name, c at level 100, k at level 200) : async_scope.
Notation "c >> k" := (Async.bind c (fun _ => k))
  (at level 70, k at level 200, right associativity, only parsing) : async_scope.

Definition setData v := Async.modify (fun st =>
  {| loading := loading st; data := v; leaderboard := leaderboard st;
     countdown := countdown st; habits := habits st; weekLogs := weekLogs st;
     serverOffsetMs := serverOffsetMs st |}).
Definition setLeaderboard v := Async.modify (fun st =>
  {| loading := loading st; data := data st; leaderboard := v;
     countdown := countdown st; habits := habits st; weekLogs := weekLogs st;
     serverOffsetMs := serverOffsetMs st |}).
Definition setCountdown v := Async.modify (fun st =>
  {| loading := loading st; data := data st; leaderboard := leaderboard st;
     countdown := v; habits := habits st; weekLogs := weekLogs st;
     serverOffsetMs := serverOffsetMs st |}).
Definition setHabits v := Async.modify (fun st =>
  {| loading := loading st; data := data st; leaderboard := leaderboard st;
     countdown := countdown st; habits := v; weekLogs := weekLogs st;
     serverOffsetMs := serverOffsetMs st |}).
Definition setWeekLogs v := Async.modify (fun st =>
  {| loading := loading st; data := data st; leaderboard := leaderboard st;
     countdown := countdown st; habits := habits st; weekLogs := v;
     serverOffsetMs := serverOffsetMs st |}).
Definition setServerOffsetMs (f : Z -> Z) := Async.modify (fun st =>
  {| loading := loading st; data := data st; leaderboard := leaderboard st;
     countdown := countdown st; habits := habits st; weekLogs := weekLogs st;
     serverOffsetMs := f (serverOffsetMs st) |}).
Definition setLoading v := Async.modify (fun st =>
  {| loading := v; data := data st; leaderboard := leaderboard st;
     countdown := countdown st; habits := habits st; weekLogs := weekLogs st;
     serverOffsetMs := serverOffsetMs st |}).

Section Fetch.

Variable Date_parse : string -> option Z.
(** The first ten characters of [new Date(t).toISOString()]. *)
Variable toISODate : Z -> string.
Variable api : Backend.
(** The reading of [Date.now()] at line 260. *)
Variable Date_now : Z.

Local Open Scope async_scope.

(** [x ? new Date(x).toISOString().slice(0, 10) : null]; [toISOString]
    throws a [RangeError] on an invalid date. *)
Definition isoDateOrNull (x : option string) : Async.M (option string) :=
  match x with
  | Some s =>
      if JS.truthy_str x then
        match Date_parse s with
        | Some t => Async.ret (Some (toISODate t))
        | None => Async.throw (RangeError "Invalid time value")
        end
      else Async.ret None
  | None => Async.ret None
  end.

(** [Array.isArray(x) ? x : []] *)
Definition arrayOrEmpty {A} (x : option (list A)) : list A :=
  match x with
  | Some l => l
  | None => []
  end.

Definition fetchBody : Async.M unit :=
  let* responses :=
     Async.await (Async.Promise_all4 (getDashboard api) (getWeekly api 10 0)
                    (getCountdown api) (getAllHabits api)) in
  let '(dashboardRes, leaderboardRes, countdownRes, habitsRes) := responses in
  setData (res_data dashboardRes) >>
  setLeaderboard (res_data leaderboardRes) >>
  let* weekStartDate :=
     isoDateOrNull (match res_data leaderboardRes with
                    | Some l => week_start l | None => None end) in
  let* weekEndDate :=
     isoDateOrNull (match res_data leaderboardRes with
                    | Some l => week_end l | None => None end) in
  (match weekStartDate, weekEndDate with
   | Some a, Some b =>
       if JS.truthy_str weekStartDate && JS.truthy_str weekEndDate then
         let* logsRes := Async.await (getAllLogs api a b) in
         setWeekLogs (arrayOrEmpty (res_data logsRes))
       else setWeekLogs []
   | _, _ => setWeekLogs []
   end) >>
  setHabits (arrayOrEmpty (res_data habitsRes)) >>
  setServerOffsetMs (fun old =>
    updateServerOffset Date_parse old
      (match res_data countdownRes with Some c => cd_now c | None => None end)
      Date_now) >>
  setCountdown (res_data countdownRes).

Definition fetchDashboardData : Async.M unit :=
  Async.try_finally
    (Async.try_catch fetchBody
       (fun error => Async.console_error "Failed to fetch dashboard data:" error))
    (setLoading false).

End Fetch.

(** ** Rendering: the dates of the week and the totals, lines 281-302 *)

Section Render.

Variable Date_parse : string -> option Z.
Variable toISODate : Z -> string.

(** Lines 283-284: [iso ? new Date(iso).toISOString().slice(0, 10) : null];
    [toISOString] throws a [RangeError] on an invalid date, and a render
    that throws shows nothing. *)
Definition weekDate (iso : option string) : settled (option string) :=
  match iso with
  | Some s =>
      if JS.truthy_str iso then
        match Date_parse s with
        | Some t => Fulfilled (Some (toISODate t))
        | None => Rejected (RangeError "Invalid time value")
        end
      else Fulfilled None
  | None => Fulfilled None
  end.

(** The render up to line 301: the weekly total it displays, when lines 283
    and 284 do not throw. *)
Definition renderTotalPossible (st : PageState) (Date_now : Z) : settled Z :=
  let weekStartIso := match leaderboard st with Some l => week_start l | None => None end in
  let weekEndIso := match leaderboard st with Some l => week_end l | None => None end in
  match weekDate weekStartIso with
  | Rejected e => Rejected e
  | Fulfilled _ =>
      match weekDate weekEndIso with
      | Rejected e => Rejected e
      | Fulfilled _ =>
          Fulfilled (totalPossibleThisWeek Date_parse (habits st)
                       (serverOffsetMs st) Date_now weekStartIso)
      end
  end.

End Render.

(** ** The leaderboard engine of the backend

    The engine ([computeWeekly], [reset]) is served by the backend, whose
    code is not among the sources of the frontend; this module is written
    from section 4.5 of the specification. *)

Module Engine.

Inductive Status := Completed | Missed | Skipped.

Definition Status_eqb (a b : Status) : bool :=
  match a, b with
  | Completed, Completed | Missed, Missed | Skipped, Skipped => true
  | _, _ => false
  end.

(** Modelled from the spec: the [HabitLog] record of the log store (the
    backend's log collection is missing), one record per habit and calendar
    day; [date] is the day as a number of days since 1970-01-01. *)
Record Log := {
  habit_id : string;
  user_id : string;
  date : Z;
  status : Status
}.

Definition MS_PER_DAY : Z := 86400000.

(** Modelled from the spec: a [TimeWindow], the half-open interval
    [[start, end)] of instants in milliseconds (the backend's clock
    provider is missing). *)
Record Window := { w_start : Z; w_end : Z }.

(** Modelled from the spec: [windowFor(week, at)] of the missing clock
    provider: Monday 00:00:00 local to the configured fixed offset [tz]
    (milliseconds east of UTC) through the following Monday 00:00:00.
    1970-01-01 was a Thursday, so day [d] is weekday [(d + 3) mod 7]
    counted from Monday. *)
Definition weekStart (tz at_ : Z) : Z :=
  let day := (at_ + tz) / MS_PER_DAY in
  let weekday := (day + 3) mod 7 in
  (day - weekday) * MS_PER_DAY - tz.

Definition windowFor_week (tz at_ : Z) : Window :=
  {| w_start := weekStart tz at_; w_end := weekStart tz at_ + 7 * MS_PER_DAY |}.

(** Modelled from the spec: [LeaderboardEntry] (the backend's record is
    missing). *)
Record Entry := {
  e_user_id : string;
  name : string;
  score : nat;
  rank : nat
}.

(** Modelled from the spec: [LeaderboardSnapshot]; [reset_at] is set only
    once the snapshot is closed. *)
Record Snapshot := {
  week_start : Z;
  week_end : Z;
  entries : list Entry;
  reset_at : option Z
}.

(** Modelled from the spec: the single shared resource of section 5, the
    current snapshot and the append-only history. *)
Record Store := {
  current : Snapshot;
  history : list Snapshot
}.

Record ResetResult := {
  rolled_over : bool;
  new_week_start : Z
}.

Definition has_week (ws : Z) (h : list Snapshot) : bool :=
  existsb (fun s => week_start s =? ws) h.

Definition close_snapshot (now : Z) (s : Snapshot) : Snapshot :=
  {| week_start := week_start s; week_end := week_end s;
     entries := entries s; reset_at := Some now |}.

Definition open_snapshot (w : Window) : Snapshot :=
  {| week_start := w_start w; week_end := w_end w; entries := []; reset_at := None |}.

(** Modelled from the spec: [reset()] of the missing leaderboard engine,
    run as one atomic step on the store.  When the current snapshot's
    [week_start] differs from the start of the week of [now], the snapshot
    is closed (stamped with [reset_at = now]), appended to the history only
    if the history has no entry for its [week_start], and a snapshot for
    the new window is opened; otherwise nothing changes. *)
Definition reset (tz now : Z) (st : Store) : ResetResult * Store :=
  let w := windowFor_week tz now in
  if week_start (current st) =? w_start w then
    ({| rolled_over := false; new_week_start := w_start w |}, st)
  else
    let closed := close_snapshot now (current st) in
    let history' :=
      if has_week (week_start closed) (history st) then history st
      else (history st ++ [closed])%list in
    ({| rolled_over := true; new_week_start := w_start w |},
     {| current := open_snapshot w; history := history' |}).

(** The store after the calls of [reset] at the instants [nows], in order. *)
Definition resets (tz : Z) (nows : list Z) (st : Store) : Store :=
  fold_left (fun s now => snd (reset tz now s)) nows st.

(** The number of history entries for one [week_start]. *)
Definition entries_for (ws : Z) (h : list Snapshot) : nat :=
  List.length (List.filter (fun s => week_start s =? ws) h).

(** At most one history entry per distinct [week_start]. *)
Definition history_unique (st : Store) : Prop :=
  NoDup (map week_start (history st)).

(** The days of a window, local to the offset [tz]. *)
Definition in_window (tz : Z) (w : Window) (l : Log) : bool :=
  let first := (w_start w + tz) / MS_PER_DAY in
  let last := (w_end w + tz) / MS_PER_DAY in
  (first <=? date l) && (date l <? last).

Definition counts_for_week (tz : Z) (w : Window) (l : Log) : bool :=
  Status_eqb (status l) Completed && in_window tz w l.

(** Modelled from the spec: the score of a user, the count of [completed]
    logs within the week's window across all habits. *)
Definition score_of (tz : Z) (w : Window) (logs : list Log) (u : string) : nat :=
  List.length (List.filter (fun l => counts_for_week tz w l && String.eqb (user_id l) u) logs).

(** The scored users of a window: the users with a counted log. *)
Definition scored_users (tz : Z) (w : Window) (logs : list Log) : list string :=
  remove_dups (map user_id (List.filter (counts_for_week tz w) logs)).

(** Descending by score, then ascending by [user_id]. *)
Definition before (a b : string * nat) : bool :=
  (snd b <? snd a)%nat || ((snd a =? snd b)%nat && String.leb (fst a) (fst b)).

Fixpoint insert_sorted (x : string * nat) (l : list (string * nat)) : list (string * nat) :=
  match l with
  | [] => [x]
  | y :: l' => if before x y then x :: l else y :: insert_sorted x l'
  end.

Definition sort_scores (l : list (string * nat)) : list (string * nat) :=
  fold_right insert_sorted [] l.

(** Ranks [first], [first + 1], ... down the sorted list. *)
Fixpoint assign_ranks (names : string -> string) (first : nat)
    (l : list (string * nat)) : list Entry :=
  match l with
  | [] => []
  | (u, s) :: l' =>
      {| e_user_id := u; name := names u; score := s; rank := first |}
      :: assign_ranks names (S first) l'
  end.

(** Modelled from the spec: the full ranked set of [computeWeekly] (the
    backend function is missing): every scored user's score recomputed from
    the raw logs, sorted, and ranked contiguously from 1. *)
Definition ranked (names : string -> string) (tz : Z) (w : Window)
    (logs : list Log) : list Entry :=
  assign_ranks names 1
    (sort_scores (map (fun u => (u, score_of tz w logs u)) (scored_users tz w logs))).

(** Modelled from the spec: [computeWeekly(limit, offset)], the slice of
    the full ranked set. *)
Definition computeWeekly (names : string -> string) (tz now : Z)
    (logs : list Log) (limit offset : nat) : list Entry :=
  take limit (drop offset (ranked names tz (windowFor_week tz now) logs)).

(** The order of the leaderboard on entries: a greater score first, and for
    equal scores the smaller [user_id] first. *)
Definition precedes (a b : Entry) : Prop :=
  (score b < score a)%nat
  \/ (score a = score b /\ String.ltb (e_user_id a) (e_user_id b) = true).

End Engine.

(** ** The statements of the specification about the cards, as functions *)

(** A log that carries a habit id and whose status is ['completed']. *)
Definition counted (log : option HabitLog) : bool :=
  match log with
  | Some l => is_completed l && JS.truthy_str (log_habit_id l)
  | None => false
  end.

(** A counted log of the habit [h]. *)
Definition counted_for (h : string) (log : option HabitLog) : bool :=
  match log with
  | Some l =>
      counted log
      && match log_habit_id l with
         | Some id => String.eqb id h
         | None => false
         end
  | None => false
  end.

(** The number of counted logs of each habit as a finite map: what the
    accumulator of the reduce is meant to hold. *)
Definition tallyLog (m : gmap string Z) (log : option HabitLog) : gmap string Z :=
  match log with
  | Some l =>
      match log_habit_id l with
      | Some id => if counted log then <[id := JS.or_default (m !! id) 0 + 1]> m else m
      | None => m
      end
  | None => m
  end.

Definition tally (logs : list (option HabitLog)) : gmap string Z :=
  fold_left tallyLog logs ∅.

Definition tallySum (m : gmap string Z) : Z :=
  map_fold (fun _ n sum => sum + n) 0 m.

(** What the accumulator holds at the key [k] when [n] counted logs carry
    it. *)
Definition held (k : string) (n : Z) : option Obj.slot :=
  if String.eqb k "__proto__" then None
  else if Obj.inherited k then Some Obj.Text
  else Some (Obj.Count n).

(** A log whose habit id, if it is counted, is not a name that objects
    inherit. *)
Definition plain_log (log : option HabitLog) : bool :=
  match log with
  | Some l =>
      match log_habit_id l with
      | Some id => negb (counted log) || negb (Obj.inherited id)
      | None => true
      end
  | None => true
  end.

Definition plain_logs (logs : list (option HabitLog)) : bool :=
  forallb plain_log logs.

Definition plain_habits (habits : list Habit) : bool :=
  forallb (fun h => negb (Obj.inherited (habit_id h))) habits.

(** [clamp(round(done / max(1, goal) * 100), 0, 100)] for a goal [goal]. *)
Definition clampedPct (done goal : Z) : Z :=
  Z.max 0 (Z.min 100 (percentOf done (Z.max 1 goal))).

(** The integer nearest to [100 x / y], a tie going up, for [0 < y]. *)
Definition nearestPct (x y : Z) : Z := (200 * x + y) / (2 * y).

(** The goal of a habit when only an absent goal defaults to 7. *)
Definition goal_absent_7 (goal : option Z) : Z :=
  match goal with
  | Some g => g
  | None => 7
  end.

(** The goal of a habit when an absent goal and a goal of 0 default to 7. *)
Definition goal_falsy_7 (goal : option Z) : Z :=
  match goal with
  | Some 0 => 7
  | Some g => g
  | None => 7
  end.

(** The statuses of a breakdown whose count is strictly positive, each with
    its count. *)
Definition positive_counts (b : Breakdown) : list (string * Z) :=
  flat_map
    (fun p => match snd p with
              | Some v => if 0 <? v then [(fst p, v)] else []
              | None => []
              end)
    [("Completed", completed b); ("Missed", missed b); ("Skipped", skipped b)].

(** ** Outcomes of a fetch *)

(** The state with the loading flag cleared, the effect of
    [setLoading(false)]. *)
Definition stopLoading (st : PageState) : PageState :=
  {| loading := false; data := data st; leaderboard := leaderboard st;
     countdown := countdown st; habits := habits st; weekLogs := weekLogs st;
     serverOffsetMs := serverOffsetMs st |}.

(** A computation that leaves the console as it is. *)
Definition quiet {A : Type} (c : Async.M A) : Prop :=
  forall st out, snd (c st out) = out.

(** One of the four requests of [Promise.all] is rejected. *)
Definition initial_request_rejected (api : Backend) : Prop :=
  (exists e, getDashboard api = Rejected e)
  \/ (exists e, getWeekly api 10 0 = Rejected e)
  \/ (exists e, getCountdown api = Rejected e)
  \/ (exists e, getAllHabits api = Rejected e).

(** A backend that cannot be reached. *)
Definition api_down : Backend :=
  {| getDashboard := Rejected (RequestError "Network Error");
     getWeekly := fun _ _ => Rejected (RequestError "Network Error");
     getCountdown := Rejected (RequestError "Network Error");
     getAllHabits := Rejected (RequestError "Network Error");
     getAllLogs := fun _ _ => Rejected (RequestError "Network Error") |}.

(** A backend that answers every request with empty data. *)
Definition api_empty : Backend :=
  {| getDashboard := Fulfilled {| res_data := None |};
     getWeekly := fun _ _ => Fulfilled {| res_data := None |};
     getCountdown := Fulfilled {| res_data := None |};
     getAllHabits := Fulfilled {| res_data := Some [] |};
     getAllLogs := fun _ _ => Fulfilled {| res_data := Some [] |} |}.

(** ** Reading a rendered component of the countdown *)

(** The number written by a string of decimal digits; [None] when a
    character is not a digit. *)
Definition decimal_value (s : string) : option Z :=
  match NilEmpty.uint_of_string s with
  | Some u => Some (Z.of_N (N.of_uint u))
  | None => None
  end.

(** [s] renders [n]: at least two characters, all decimal digits, that
    write [n]. *)
Definition renders (s : string) (n : Z) : Prop :=
  (2 <= String.length s)%nat /\ decimal_value s = Some n.

(** ** Sample stores and logs of the leaderboard engine *)

Definition sample_store : Engine.Store :=
  {| Engine.current :=
       {| Engine.week_start := 1704067200000; Engine.week_end := 1704672000000;
          Engine.entries := []; Engine.reset_at := None |};
     Engine.history := [] |}.

Definition sample_logs : list Engine.Log :=
  let log u h d st :=
    {| Engine.habit_id := h; Engine.user_id := u; Engine.date := d;
       Engine.status := st |} in
  [ log "u2" "a" 19730 Engine.Completed; log "u1" "b" 19730 Engine.Completed;
    log "u3" "c" 19731 Engine.Completed; log "u1" "b" 19731 Engine.Completed;
    log "u2" "a" 19731 Engine.Completed; log "u3" "c" 19732 Engine.Missed;
    log "u1" "b" 19729 Engine.Completed; log "u4" "d" 19732 Engine.Skipped ].

(** ** The rest of the page: strip, chart bounds, test ids *)

(** A whole number of seconds as the number [formatDDHHMMSS] receives. *)
Definition seconds_number (v : Z) : number := Finite (inject_Z v).

(** [CountdownStrip], lines 94-119: the three texts of the strip. *)
Definition CountdownStrip (daySeconds weekSeconds monthSeconds : Z) : list string :=
  [ formatDDHHMMSS (seconds_number daySeconds);
    formatDDHHMMSS (seconds_number weekSeconds);
    formatDDHHMMSS (seconds_number monthSeconds) ].

(** The strip of the page, lines 277-279 and 339-343. *)
Definition pageStrip (Date_parse : string -> option Z) (c : option Countdown)
    (off Date_now : Z) : list string :=
  CountdownStrip (daySeconds Date_parse c off Date_now)
                 (weekSeconds Date_parse c off Date_now)
                 (monthSeconds Date_parse c off Date_now).

(** [typeof d?.total === 'number' ? d.total : 0], line 322: [None] is a
    total that is not a number (or a missing day). *)
Definition dayTotal (total : option Z) : Z :=
  match total with
  | Some t => t
  | None => 0
  end.

(** Lines 318-324; [total_habits] is [data?.kpis?.total_habits] and [daily]
    lists the [total] fields of [data?.daily_completion || []]. *)
Definition maxDailyTotal (total_habits : option Z) (daily : list (option Z)) : Z :=
  JS.max_from (JS.or_default total_habits 0) (map dayTotal daily).

Definition yMax (total_habits : option Z) (daily : list (option Z)) : Z :=
  Z.max 1 (maxDailyTotal total_habits daily).

(** The test id of a [KPICard], line 41:
    [`kpi-${label.toLowerCase().replace(/\s+/g, '-')}`]. *)
Module TestId.

Definition is_upper (c : ascii) : bool :=
  let n := nat_of_ascii c in (65 <=? n)%nat && (n <=? 90)%nat.

Definition lower_char (c : ascii) : ascii :=
  if is_upper c then ascii_of_nat (nat_of_ascii c + 32) else c.

Fixpoint toLowerCase (s : string) : string :=
  match s with
  | EmptyString => EmptyString
  | String c s' => String (lower_char c) (toLowerCase s')
  end.

(** [s.replace(/\s+/g, '-')]: every maximal run of white space becomes one
    hyphen; [in_run] tells that the previous character was white space. *)
Fixpoint replace_runs (s : string) (in_run : bool) : string :=
  match s with
  | EmptyString => EmptyString
  | String c s' =>
      if AsciiText.is_space c
      then if in_run then replace_runs s' true
           else String "-" (replace_runs s' true)
      else String c (replace_runs s' false)
  end.

Definition kpiTestId (label : string) : string :=
  ("kpi-" ++ replace_runs (toLowerCase label) false)%string.

Fixpoint no_space (s : string) : bool :=
  match s with
  | EmptyString => true
  | String c s' => negb (AsciiText.is_space c) && no_space s'
  end.

Fixpoint no_upper (s : string) : bool :=
  match s with
  | EmptyString => true
  | String c s' => negb (is_upper c) && no_upper s'
  end.

(** The number of maximal runs of white space of a string. *)
Fixpoint space_runs (s : string) (in_run : bool) : nat :=
  match s with
  | EmptyString => O
  | String c s' =>
      if AsciiText.is_space c
      then if in_run then space_runs s' true else S (space_runs s' true)
      else space_runs s' false
  end.

Fixpoint count_space (s : string) : nat :=
  match s with
  | EmptyString => O
  | String c s' => ((if AsciiText.is_space c then 1 else 0) + count_space s')%nat
  end.

End TestId.

(** ** The API client, [lib/api.js] lines 3-4 *)

Module Api.

Definition is_slash (c : ascii) : bool := Ascii.eqb c "/".

(** [s.replace(/\/+$/, '')]: the string without its trailing slashes. *)
Fixpoint stripTrailingSlashes (s : string) : string :=
  match s with
  | EmptyString => EmptyString
  | String c s' =>
      let r := stripTrailingSlashes s' in
      if is_slash c && AsciiText.is_empty r then EmptyString else String c r
  end.

Definition default_backend : string := "http://localhost:8000".

(** [(process.env.REACT_APP_BACKEND_URL || 'http://localhost:8000')
     .replace(/\/+$/, '')] *)
Definition backendBaseUrl (env : option string) : string :=
  stripTrailingSlashes
    (match env with
     | Some s => if JS.truthy_str env then s else default_backend
     | None => default_backend
     end).

(** [`${backendBaseUrl}/api`] *)
Definition API_URL (env : option string) : string :=
  (backendBaseUrl env ++ "/api")%string.

Fixpoint ends_with_slash (s : string) : bool :=
  match s with
  | EmptyString => false
  | String c EmptyString => is_slash c
  | String _ s' => ends_with_slash s'
  end.

End Api.

(** ** Reading a countdown text back *)

(** [s.split(":")] *)
Fixpoint split_colon (s : string) : list string :=
  match s with
  | EmptyString => [EmptyString]
  | String c s' =>
      if Ascii.eqb c ":" then EmptyString :: split_colon s'
      else match split_colon s' with
           | p :: ps => String c p :: ps
           | [] => [String c EmptyString]
           end
  end.

(** The seconds a text [DD:HH:MM:SS] stands for; [None] when the text does
    not have four components of decimal digits. *)
Definition decodeDDHHMMSS (s : string) : option Z :=
  match split_colon s with
  | [d; h; m; sec] =>
      match decimal_value d, decimal_value h, decimal_value m, decimal_value sec with
      | Some d, Some h, Some m, Some sec => Some (d * 86400 + h * 3600 + m * 60 + sec)
      | _, _, _, _ => None
      end
  | _ => None
  end.

Definition is_digit (c : ascii) : bool :=
  let n := nat_of_ascii c in (48 <=? n)%nat && (n <=? 57)%nat.

Fixpoint all_digits (s : string) : bool :=
  match s with
  | EmptyString => true
  | String c s' => is_digit c && all_digits s'
  end.

(** ** Sums over the habit list *)

Fixpoint sumZ (l : list Z) : Z :=
  match l with
  | [] => 0
  | x :: l' => x + sumZ l'
  end.

(** A counted log of one of the listed habits. *)
Definition counted_in (ids : list string) (log : option HabitLog) : bool :=
  existsb (fun h => counted_for h log) ids.

(** ** The range of [Date]

    A time value is at most 8.64e15 ms away from the epoch; [Date.parse]
    and [Date.now] return such values, and the clock offset of the page is
    the difference of two of them. *)
Definition MAX_TIME : Z := 8640000000000000.

Definition time_value (t : Z) : Prop := - MAX_TIME <= t <= MAX_TIME.

Definition parses_time_values (Date_parse : string -> option Z) : Prop :=
  forall s t, Date_parse s = Some t -> time_value t.

(** ** Sample values of the host's built-ins

    A few values of [Date.parse] and of the date part of [toISOString], used
    to run the definitions on concrete payloads. *)

Definition sample_instants : list (string * Z) :=
  [ ("2024-01-08T00:00:00Z", 1704672000000);
    ("2024-01-10T12:00:00Z", 1704888000000);
    ("2024-01-11T00:00:00Z", 1704931200000);
    ("2024-01-15T00:00:00Z", 1705276800000);
    ("2024-02-01T00:00:00Z", 1706745600000) ].

Definition sample_parse (s : string) : option Z :=
  match List.find (fun p => String.eqb (fst p) s) sample_instants with
  | Some p => Some (snd p)
  | None => None
  end.

Definition sample_toISODate (t : Z) : string :=
  match List.find (fun p => snd p =? t) sample_instants with
  | Some p => substring 0 10 (fst p)
  | None => "1970-01-01"
  end.

Definition sample_countdown : Countdown :=
  {| cd_now := Some "2024-01-10T12:00:00Z";
     day_end := Some "2024-01-11T00:00:00Z";
     cd_week_end := Some "2024-01-15T00:00:00Z";
     month_end := Some "2024-02-01T00:00:00Z" |}.

(** [toUpperCase] on the code units of Latin-1; the sample leaves every
    other code unit as it is and is only run on names within Latin-1. *)
Definition sample_upper (c : N) : Initials.jsstring :=
  (if (97 <=? c) && (c <=? 122) then [c - 32]
   else if c =? 223 then [83; 83]
   else if c =? 181 then [924]
   else if c =? 255 then [376]
   else if (224 <=? c) && (c <=? 254) && negb (c =? 247) then [c - 32]
   else [c])%N.

Definition sample_toUpperCase (s : Initials.jsstring) : Initials.jsstring :=
  flat_map sample_upper s.

(** A backend that answers with a week of data. *)
Definition api_sample : Backend :=
  {| getDashboard :=
       Fulfilled {| res_data := Some {| completion_breakdown :=
         Some {| completed := Some 12; missed := Some 0; skipped := None |} |} |};
     getWeekly := fun _ _ =>
       Fulfilled {| res_data := Some
         {| week_start := Some "2024-01-08T00:00:00Z";
            week_end := Some "2024-01-15T00:00:00Z";
            entries := Some [ {| user_id := "u1"; name := Some "Ann Lee";
                                 score := Some 5; rank := 1 |} ];
            reset_at := None |} |};
     getCountdown := Fulfilled {| res_data := Some sample_countdown |};
     getAllHabits :=
       Fulfilled {| res_data := Some
         [ {| habit_id := "h1"; habit_name := "Read"; habit_goal := Some 5 |} ] |};
     getAllLogs := fun _ _ =>
       Fulfilled {| res_data := Some
         [ Some {| log_status := Some "completed"; log_habit_id := Some "h1" |} ] |} |}.

(** A backend whose leaderboard starts its week at [ws] and whose logs
    endpoint answers [logs]. *)
Definition api_week (ws : option string)
    (logs : settled (Response (list (option HabitLog)))) : Backend :=
  {| getDashboard := Fulfilled {| res_data := None |};
     getWeekly := fun _ _ =>
       Fulfilled {| res_data := Some
         {| week_start := ws; week_end := Some "2024-01-15T00:00:00Z";
            entries := Some []; reset_at := None |} |};
     getCountdown := Fulfilled {| res_data := Some sample_countdown |};
     getAllHabits := Fulfilled {| res_data := Some [] |};
     getAllLogs := fun _ _ => logs |}.

(** * Properties *)

(** ** Rounding to the nearest double *)

Module DoubleFacts.

Import Double.
Local Open Scope Q_scope.

Ltac qlra := change (inject_Z 1) with 1 in *; change (inject_Z 0) with 0 in *; lra.
Ltac qnra := change (inject_Z 1) with 1 in *; change (inject_Z 0) with 0 in *; nra.

Lemma rne_bounds (q : Q) : q - (1 # 2) <= inject_Z (rne q) <= q + (1 # 2).
Proof.
  unfold rne. pose proof (Qfloor_le q) as Hlo. pose proof (Qlt_floor q) as Hhi.
  rewrite inject_Z_plus in Hhi. change (inject_Z 1) with 1 in Hhi.
  destruct (Qcompare_spec (q - inject_Z (Qfloor q)) (1 # 2)) as [He|Hl|Hg].
  - destruct (Z.even (Qfloor q)); rewrite ?inject_Z_plus;
      change (inject_Z 1) with 1; qlra.
  - qlra.
  - rewrite inject_Z_plus. change (inject_Z 1) with 1. qlra.
Qed.

Lemma rne_comp (q q' : Q) : q == q' -> rne q = rne q'.
Proof.
  intros H. unfold rne. rewrite (Qfloor_comp _ _ H).
  assert (Hc : (q - inject_Z (Qfloor q') ?= 1 # 2) = (q' - inject_Z (Qfloor q') ?= 1 # 2)).
  { apply Qcompare_comp; [now rewrite H|reflexivity]. }
  now rewrite Hc.
Qed.

Lemma rne_mono (q1 q2 : Q) : q1 <= q2 -> (rne q1 <= rne q2)%Z.
Proof.
  intros H. destruct (Z.le_gt_cases (rne q1) (rne q2)) as [|Hgt]; [assumption|].
  exfalso. pose proof (rne_bounds q1) as B1. pose proof (rne_bounds q2) as B2.
  assert (Hz : (rne q2 + 1 <= rne q1)%Z) by lia.
  rewrite Zle_Qle, inject_Z_plus in Hz. change (inject_Z 1) with 1 in Hz.
  assert (Heq : q1 == q2) by qlra.
  rewrite (rne_comp _ _ Heq) in Hgt. lia.
Qed.

Lemma rne_Z (k : Z) : rne (inject_Z k) = k.
Proof.
  unfold rne. rewrite Qfloor_Z.
  destruct (Qcompare_spec (inject_Z k - inject_Z k) (1 # 2)) as [He|Hl|Hg];
    [qlra|reflexivity|qlra].
Qed.

Lemma pow2_pos (e : Z) : 0 < 2 ^ e.
Proof. apply Qpower_0_lt. reflexivity. Qed.

Lemma pow2_add (a b : Z) : 2 ^ (a + b) == 2 ^ a * 2 ^ b.
Proof. apply Qpower_plus. discriminate. Qed.

Lemma pow2_le (a b : Z) : (a <= b)%Z -> 2 ^ a <= 2 ^ b.
Proof. intros H. apply Qpower_le_compat_l; [exact H|discriminate]. Qed.

Lemma pow2_Z (n : Z) : (0 <= n)%Z -> 2 ^ n == inject_Z (2 ^ n).
Proof. intros H. now rewrite Zpower_Qpower. Qed.

(** [ilog2 x] is the exponent of the power of two at or below [x]. *)
Lemma ilog2_spec (x : Q) : 0 < x -> 2 ^ ilog2 x <= x < 2 ^ (ilog2 x + 1).
Proof.
  intros Hx. unfold ilog2. destruct (Qle_bool 1 x) eqn:H1.
  - apply Qle_bool_iff in H1.
    assert (Hf : (1 <= Qfloor x)%Z).
    { change 1%Z with (Qfloor 1). now apply Qfloor_resp_le. }
    destruct (Z.log2_spec (Qfloor x) ltac:(lia)) as [Hlo Hhi].
    pose proof (Z.log2_nonneg (Qfloor x)) as Hnn.
    rewrite !pow2_Z by lia.
    pose proof (Qfloor_le x). pose proof (Qlt_floor x) as Hlt.
    rewrite Zle_Qle in Hlo.
    replace (Z.succ (Z.log2 (Qfloor x))) with (Z.log2 (Qfloor x) + 1)%Z in Hhi by lia.
    assert (Hhi' : (Qfloor x + 1 <= 2 ^ (Z.log2 (Qfloor x) + 1))%Z) by lia.
    rewrite Zle_Qle in Hhi'. qlra.
  - assert (Hlt1 : x < 1).
    { apply Qnot_le_lt. intros Hle. apply Qle_bool_iff in Hle. congruence. }
    assert (Hinv : 1 < / x).
    { apply Qlt_shift_inv_l; [exact Hx|qlra]. }
    set (c := Qceiling (/ x)).
    assert (Hc : (1 < c)%Z).
    { pose proof (Qle_ceiling (/ x)) as Hle. fold c in Hle.
      rewrite Zlt_Qlt. qlra. }
    destruct (Z.log2_up_spec c Hc) as [Hlo Hhi].
    pose proof (Z.log2_up_pos c Hc) as Hpos.
    set (j := Z.log2_up c) in *.
    assert (Hxinv : x * / x == 1) by (apply Qmult_inv_r; qlra).
    split.
    + rewrite Qpower_opp, pow2_Z by lia.
      pose proof (Qle_ceiling (/ x)) as Hle. fold c in Hle.
      rewrite Zle_Qle in Hhi.
      assert (Hpj : 0 < inject_Z (2 ^ j)) by qlra.
      apply Qle_shift_inv_r; [exact Hpj|].
      assert (Hm1 : x * / x <= x * inject_Z (2 ^ j)).
      { apply Qmult_le_l; [exact Hx|qlra]. }
      qlra.
    + replace (- j + 1)%Z with (- (j - 1))%Z by lia.
      rewrite Qpower_opp, pow2_Z by lia.
      pose proof (Qceiling_lt (/ x)) as Hcl. fold c in Hcl.
      replace (Z.pred j) with (j - 1)%Z in Hlo by lia.
      assert (Hlo' : (2 ^ (j - 1) <= c - 1)%Z) by lia.
      rewrite Zle_Qle in Hlo'.
      assert (Hp : (0 < 2 ^ (j - 1))%Z) by (apply Z.pow_pos_nonneg; lia).
      rewrite Zlt_Qlt in Hp.
      apply Qlt_shift_inv_l; [qlra|].
      assert (Hm1 : x * inject_Z (2 ^ (j - 1)) <= x * inject_Z (c - 1)).
      { apply Qmult_le_l; [exact Hx|exact Hlo']. }
      assert (Hm2 : x * inject_Z (c - 1) < x * / x).
      { apply Qmult_lt_l; [exact Hx|exact Hcl]. }
      qlra.
Qed.

Lemma pow2_lt_inv (a b : Z) : 2 ^ a < 2 ^ b -> (a < b)%Z.
Proof. intros H. apply (Qpower_lt_compat_l_inv 2); [exact H|reflexivity]. Qed.

Lemma ilog2_mono (x y : Q) : 0 < x -> x <= y -> (ilog2 x <= ilog2 y)%Z.
Proof.
  intros Hx Hxy.
  destruct (ilog2_spec x Hx) as [Hlo _].
  destruct (ilog2_spec y ltac:(qlra)) as [_ Hhi].
  assert (H : 2 ^ ilog2 x < 2 ^ (ilog2 y + 1)) by qlra.
  apply pow2_lt_inv in H. lia.
Qed.

Lemma exponent_mono (x y : Q) : 0 < x -> x <= y -> (exponent x <= exponent y)%Z.
Proof.
  intros Hx Hxy. unfold exponent. pose proof (ilog2_mono x y Hx Hxy). lia.
Qed.

Lemma exponent_upper (x : Q) : 0 < x -> x < 2 ^ (exponent x + 53).
Proof.
  intros Hx. destruct (ilog2_spec x Hx) as [_ Hhi].
  eapply Qlt_le_trans; [exact Hhi|]. apply pow2_le. unfold exponent. lia.
Qed.

Lemma exponent_lower (x : Q) :
  0 < x -> (-1074 < exponent x)%Z -> 2 ^ (exponent x + 52) <= x.
Proof.
  intros Hx He. destruct (ilog2_spec x Hx) as [Hlo _].
  eapply Qle_trans; [|exact Hlo]. apply pow2_le. unfold exponent in *. lia.
Qed.

(** Rounding to the multiples of [u]. *)
Definition on_grid (u x : Q) : Q := inject_Z (rne (x / u)) * u.

Lemma on_grid_mono (u x y : Q) : 0 < u -> x <= y -> on_grid u x <= on_grid u y.
Proof.
  intros Hu Hxy. unfold on_grid.
  apply Qmult_le_compat_r; [|qlra].
  rewrite <- Zle_Qle. apply rne_mono.
  apply Qmult_le_compat_r; [exact Hxy|].
  apply Qlt_le_weak, Qinv_lt_0_compat, Hu.
Qed.

Lemma on_grid_mono_eq (u x y : Q) : x == y -> on_grid u x == on_grid u y.
Proof.
  intros H. unfold on_grid. rewrite (rne_comp (x / u) (y / u)); [reflexivity|].
  now rewrite H.
Qed.

Lemma on_grid_fixed (u : Q) (k : Z) : 0 < u -> on_grid u (inject_Z k * u) == inject_Z k * u.
Proof.
  intros Hu. unfold on_grid.
  rewrite (rne_comp (inject_Z k * u / u) (inject_Z k)).
  - now rewrite rne_Z.
  - field. qlra.
Qed.

Lemma on_grid_error (u x : Q) : 0 < u -> x - u / 2 <= on_grid u x <= x + u / 2.
Proof.
  intros Hu. unfold on_grid. pose proof (rne_bounds (x / u)) as [Hlo Hhi].
  assert (Hx : x / u * u == x) by (field; qlra).
  set (t := x / u) in *. set (r := inject_Z (rne t)) in *.
  assert (Hh : u / 2 == u * (1 # 2)) by field.
  rewrite Hh.
  assert (H1 : (t - (1 # 2)) * u <= r * u) by (apply Qmult_le_compat_r; qlra).
  assert (H2 : r * u <= (t + (1 # 2)) * u) by (apply Qmult_le_compat_r; qlra).
  split; qnra.
Qed.

Lemma round_pos_grid (x : Q) : round_pos x = on_grid (2 ^ exponent x) x.
Proof. reflexivity. Qed.

Lemma pow2_multiple (a b : Z) :
  (b <= a)%Z -> 2 ^ a == inject_Z (2 ^ (a - b)) * 2 ^ b.
Proof.
  intros H. rewrite <- pow2_Z by lia. rewrite <- pow2_add.
  now replace (a - b + b)%Z with a by lia.
Qed.

Lemma pow2_53 (e : Z) : 2 ^ (e + 53) == inject_Z (2 ^ 53) * 2 ^ e.
Proof. rewrite (pow2_multiple (e + 53) e) by lia. now replace (e + 53 - e)%Z with 53%Z by lia. Qed.

Lemma pow2_53' (e : Z) : 2 ^ (52 + e) == inject_Z (2 ^ 52) * 2 ^ e.
Proof. rewrite <- pow2_Z by lia. now rewrite pow2_add. Qed.

Lemma round_pos_mono (x y : Q) : 0 < x -> x <= y -> round_pos x <= round_pos y.
Proof.
  intros Hx Hxy. rewrite !round_pos_grid.
  pose proof (exponent_mono x y Hx Hxy) as He.
  destruct (Z.eq_dec (exponent x) (exponent y)) as [Heq|Hne].
  - rewrite Heq. apply on_grid_mono; [apply pow2_pos|exact Hxy].
  - assert (Hlt : (exponent x < exponent y)%Z) by lia.
    assert (Hey : (-1074 < exponent y)%Z) by (unfold exponent in *; lia).
    apply (Qle_trans _ (2 ^ (exponent x + 53))).
    + apply (Qle_trans _ (on_grid (2 ^ exponent x) (inject_Z (2 ^ 53) * 2 ^ exponent x))).
      * apply on_grid_mono; [apply pow2_pos|].
        pose proof (exponent_upper x Hx) as Hup.
        rewrite pow2_53 in Hup. qlra.
      * rewrite on_grid_fixed by apply pow2_pos. rewrite pow2_53. qlra.
    + apply (Qle_trans _ (2 ^ (exponent y + 52))).
      * apply pow2_le. lia.
      * apply (Qle_trans _ (on_grid (2 ^ exponent y)
                 (inject_Z (2 ^ (exponent y + 52 - exponent y)) * 2 ^ exponent y))).
        -- rewrite on_grid_fixed by apply pow2_pos.
           rewrite <- pow2_multiple by lia. qlra.
        -- apply on_grid_mono; [apply pow2_pos|].
           rewrite <- pow2_multiple by lia.
           apply exponent_lower; [qlra|exact Hey].
Qed.

Lemma rne_nonneg (q : Q) : 0 <= q -> (0 <= rne q)%Z.
Proof. intros H. change 0%Z with (rne 0). now apply rne_mono. Qed.

Lemma round_pos_nonneg (x : Q) : 0 < x -> 0 <= round_pos x.
Proof.
  intros Hx. unfold round_pos.
  pose proof (pow2_pos (exponent x)) as Hu.
  apply Qmult_le_0_compat; [|qlra].
  change 0 with (inject_Z 0). rewrite <- Zle_Qle. apply rne_nonneg.
  apply Qle_shift_div_l; [exact Hu|qlra].
Qed.

Lemma binary64_pos (x : Q) : 0 < x -> binary64 x = round_pos x.
Proof.
  intros Hx. unfold binary64.
  destruct (Qcompare x 0) eqn:Hc; [| |reflexivity].
  - apply Qeq_alt in Hc. qlra.
  - apply Qlt_alt in Hc. qlra.
Qed.

Lemma binary64_neg (x : Q) : x < 0 -> binary64 x = - round_pos (- x).
Proof.
  intros Hx. unfold binary64.
  destruct (Qcompare x 0) eqn:Hc; [|reflexivity|].
  - apply Qeq_alt in Hc. qlra.
  - apply Qgt_alt in Hc. qlra.
Qed.

Lemma binary64_zero (x : Q) : x == 0 -> binary64 x = 0.
Proof.
  intros Hx. unfold binary64.
  destruct (Qcompare x 0) eqn:Hc; [reflexivity| |].
  - apply Qlt_alt in Hc. qlra.
  - apply Qgt_alt in Hc. qlra.
Qed.

Lemma binary64_mono (x y : Q) : x <= y -> binary64 x <= binary64 y.
Proof.
  intros Hxy.
  destruct (Q_dec x 0) as [[Hx|Hx]|Hx], (Q_dec y 0) as [[Hy|Hy]|Hy];
    try qlra.
  - rewrite (binary64_neg x Hx), (binary64_neg y Hy).
    assert (H : round_pos (- y) <= round_pos (- x)) by (apply round_pos_mono; qlra).
    qlra.
  - rewrite (binary64_neg x Hx), (binary64_pos y Hy).
    pose proof (round_pos_nonneg (- x)). pose proof (round_pos_nonneg y). qlra.
  - rewrite (binary64_neg x Hx), (binary64_zero y Hy).
    pose proof (round_pos_nonneg (- x)). qlra.
  - rewrite (binary64_pos x Hx), (binary64_pos y Hy). now apply round_pos_mono.
  - rewrite (binary64_zero x Hx), (binary64_pos y Hy). now apply round_pos_nonneg.
  - rewrite (binary64_zero x Hx), (binary64_zero y Hy). qlra.
Qed.

Lemma binary64_comp (x y : Q) : x == y -> binary64 x == binary64 y.
Proof.
  intros H. apply Qle_antisym; apply binary64_mono; qlra.
Qed.

Lemma ilog2_upper (x : Q) (m : Z) : 0 < x -> x < 2 ^ m -> (ilog2 x < m)%Z.
Proof.
  intros Hx Hm. destruct (ilog2_spec x Hx) as [Hlo _].
  apply pow2_lt_inv. qlra.
Qed.

(** A value [k * 2^e] with [0 < k < 2^53] and [-1074 <= e] is a double. *)
Lemma round_pos_exact (k e : Z) :
  (0 < k < 2 ^ 53)%Z -> (-1074 <= e)%Z ->
  round_pos (inject_Z k * 2 ^ e) == inject_Z k * 2 ^ e.
Proof.
  intros Hk He. set (x := inject_Z k * 2 ^ e).
  pose proof (pow2_pos e) as Hpe.
  assert (Hx : 0 < x).
  { unfold x. apply Qmult_lt_0_compat; [|exact Hpe].
    change 0 with (inject_Z 0). rewrite <- Zlt_Qlt. lia. }
  assert (Hup : x < 2 ^ (e + 53)).
  { rewrite pow2_53. unfold x. apply Qmult_lt_compat_r; [exact Hpe|].
    rewrite <- Zlt_Qlt. lia. }
  pose proof (ilog2_upper x (e + 53) Hx Hup) as Hl.
  assert (Hex : (exponent x <= e)%Z) by (unfold exponent; lia).
  rewrite round_pos_grid. set (E := exponent x) in *.
  assert (Hxe : x == inject_Z (k * 2 ^ (e - E)) * 2 ^ E).
  { pose proof (pow2_multiple e E Hex) as Hm. unfold x.
    rewrite inject_Z_mult, Hm. ring. }
  rewrite (on_grid_mono_eq _ _ _ Hxe).
  rewrite on_grid_fixed by apply pow2_pos. now rewrite <- Hxe.
Qed.

Lemma binary64_Z (n : Z) : (0 <= n <= 2 ^ 53)%Z -> binary64 (inject_Z n) == inject_Z n.
Proof.
  intros Hn.
  destruct (Z.eq_dec n 0%Z) as [->|Hn0]; [reflexivity|].
  assert (Hpos : 0 < inject_Z n).
  { change 0 with (inject_Z 0). rewrite <- Zlt_Qlt. lia. }
  rewrite (binary64_pos _ Hpos).
  destruct (Z.eq_dec n (2 ^ 53)%Z) as [->|Hn53].
  - pose proof (round_pos_exact 1 53 ltac:(lia) ltac:(lia)) as H.
    assert (E : inject_Z (2 ^ 53) == inject_Z 1 * 2 ^ 53) by reflexivity.
    rewrite <- (binary64_pos (inject_Z (2 ^ 53))) by exact Hpos.
    rewrite (binary64_comp _ _ E), binary64_pos by reflexivity.
    rewrite H. now rewrite <- E.
  - pose proof (round_pos_exact n 0 ltac:(lia) ltac:(lia)) as H.
    assert (E : inject_Z n == inject_Z n * 2 ^ 0) by (simpl; ring).
    rewrite <- (binary64_pos (inject_Z n)) by exact Hpos.
    rewrite (binary64_comp _ _ E).
    rewrite binary64_pos by (rewrite <- E; exact Hpos).
    rewrite H. now rewrite <- E.
Qed.

Lemma binary64_error (x : Q) :
  0 < x ->
  x - 2 ^ exponent x / 2 <= binary64 x <= x + 2 ^ exponent x / 2.
Proof.
  intros Hx. rewrite (binary64_pos x Hx), round_pos_grid.
  apply on_grid_error, pow2_pos.
Qed.

Lemma exponent_normal (x : Q) : 2 ^ (-1022) <= x -> 2 ^ (exponent x + 52) <= x.
Proof.
  intros Hn. pose proof (pow2_pos (-1022)) as Hp.
  assert (Hx : 0 < x) by qlra.
  destruct (ilog2_spec x Hx) as [Hlo Hhi].
  assert (Hl : (-1022 < ilog2 x + 1)%Z) by (apply pow2_lt_inv; qlra).
  eapply Qle_trans; [|exact Hlo]. apply pow2_le. unfold exponent. lia.
Qed.

Lemma pow2_half (e : Z) : 2 ^ e / 2 == 2 ^ (e + 52) * 2 ^ (-53).
Proof.
  rewrite <- pow2_add. replace (e + 52 + -53)%Z with (e + -1)%Z by lia.
  rewrite pow2_add. change (2 ^ (-1)) with (/ 2). field.
Qed.

(** The relative error of a rounding in the normal range. *)
Lemma binary64_relative (x : Q) :
  2 ^ (-1022) <= x ->
  x - x * 2 ^ (-53) <= binary64 x <= x + x * 2 ^ (-53).
Proof.
  intros Hn. pose proof (pow2_pos (-1022)) as Hp.
  assert (Hx : 0 < x) by qlra.
  pose proof (binary64_error x Hx) as [Hlo Hhi].
  pose proof (exponent_normal x Hn) as He.
  rewrite pow2_half in Hlo, Hhi.
  pose proof (pow2_pos (-53)) as Hq.
  assert (Hm : 2 ^ (exponent x + 52) * 2 ^ (-53) <= x * 2 ^ (-53)).
  { apply Qmult_le_compat_r; [exact He|qlra]. }
  split; qlra.
Qed.

Lemma Qfloor_unique (v : Q) (n : Z) :
  inject_Z n <= v -> v < inject_Z (n + 1) -> Qfloor v = n.
Proof.
  intros Hlo Hhi.
  pose proof (Qfloor_le v) as H1. pose proof (Qlt_floor v) as H2.
  assert (Ha : (n < Qfloor v + 1)%Z) by (rewrite Zlt_Qlt; qlra).
  assert (Hb : (Qfloor v < n + 1)%Z) by (rewrite Zlt_Qlt; qlra).
  lia.
Qed.

(** [Math.floor(a / b)] on two integers held exactly is the floor of the
    quotient: the rounding of the division cannot reach the next integer. *)
Lemma floor_div_exact (a b : Z) :
  (0 <= a < 2 ^ 53)%Z -> (0 < b < 2 ^ 53)%Z ->
  Qfloor (binary64 (inject_Z a / inject_Z b)) = (a / b)%Z.
Proof.
  intros Ha Hb.
  set (q := inject_Z a / inject_Z b).
  set (n := (a / b)%Z). set (r := (a mod b)%Z).
  assert (Hdiv : a = (b * n + r)%Z) by (apply Z.div_mod; lia).
  assert (Hr : (0 <= r < b)%Z) by (apply Z.mod_pos_bound; lia).
  assert (Hn : (0 <= n)%Z) by (apply Z.div_pos; lia).
  assert (Hnle : (n <= a)%Z) by (apply Z.div_le_upper_bound; nia).
  assert (HbQ : 0 < inject_Z b).
  { change 0 with (inject_Z 0). rewrite <- Zlt_Qlt. lia. }
  assert (Hq : q * inject_Z b == inject_Z a).
  { unfold q. field. qlra. }
  assert (HaQ : inject_Z a == inject_Z b * inject_Z n + inject_Z r).
  { rewrite <- inject_Z_mult, <- inject_Z_plus. now rewrite <- Hdiv. }
  assert (HrQ : 0 <= inject_Z r /\ inject_Z r + 1 <= inject_Z b).
  { split.
    - change 0 with (inject_Z 0). rewrite <- Zle_Qle. lia.
    - change 1 with (inject_Z 1). rewrite <- inject_Z_plus, <- Zle_Qle. lia. }
  assert (HnQ : 0 <= inject_Z n).
  { change 0 with (inject_Z 0). rewrite <- Zle_Qle. lia. }
  assert (Hqlo : inject_Z n <= q).
  { apply Qle_shift_div_l; [exact HbQ|]. qnra. }
  apply Qfloor_unique.
  - rewrite <- (binary64_Z n) by lia. now apply binary64_mono.
  - rewrite inject_Z_plus. change (inject_Z 1) with 1.
    destruct (Z.eq_dec r 0%Z) as [Hr0|Hr0].
    + assert (Hqn : q == inject_Z n).
      { unfold q. rewrite HaQ, Hr0. change (inject_Z 0) with 0. field. qlra. }
      rewrite (binary64_comp _ _ Hqn), binary64_Z by lia. qlra.
    + assert (Hr1 : 1 <= inject_Z r).
      { change 1 with (inject_Z 1). rewrite <- Zle_Qle. lia. }
      assert (Hqpos : 0 < q).
      { apply Qlt_shift_div_l; [exact HbQ|]. qnra. }
      pose proof (binary64_error q Hqpos) as [_ Hhi].
      set (u := 2 ^ exponent q) in *.
      assert (Hu : 0 < u) by apply pow2_pos.
      assert (Hub : u * inject_Z b < 2).
      { destruct (Z.eq_dec (exponent q) (-1074)%Z) as [He|He].
        - unfold u. rewrite He.
          assert (Hb53 : inject_Z b < inject_Z (2 ^ 53)) by (rewrite <- Zlt_Qlt; lia).
          pose proof (pow2_pos (-1074)) as Hp.
          assert (Hm : 2 ^ (-1074) * inject_Z b <= 2 ^ (-1074) * inject_Z (2 ^ 53)).
          { apply Qmult_le_l; [exact Hp|qlra]. }
          assert (Hc : 2 ^ (-1074) * inject_Z (2 ^ 53) < 2) by reflexivity.
          qlra.
        - assert (Hgt : (-1074 < exponent q)%Z) by (unfold exponent in *; lia).
          pose proof (exponent_lower q Hqpos Hgt) as Hlow.
          rewrite Z.add_comm, pow2_53' in Hlow. fold u in Hlow.
          assert (Ha53 : inject_Z a + 1 <= inject_Z (2 ^ 53)).
          { change 1 with (inject_Z 1). rewrite <- inject_Z_plus, <- Zle_Qle. lia. }
          assert (Hm : inject_Z (2 ^ 52) * u * inject_Z b <= q * inject_Z b).
          { apply Qmult_le_compat_r; [exact Hlow|qlra]. }
          change (inject_Z (2 ^ 53)) with (2 * inject_Z (2 ^ 52)) in Ha53.
          assert (H52 : 0 < inject_Z (2 ^ 52)) by reflexivity.
          set (c := inject_Z (2 ^ 52)) in *. set (w := u * inject_Z b).
          assert (Hw : c * w < c * 2).
          { unfold w. rewrite Qmult_assoc. qlra. }
          apply Qmult_lt_l in Hw; [exact Hw|exact H52]. }
      assert (Hqb : q * inject_Z b + 1 <= (inject_Z n + 1) * inject_Z b) by qlra.
      apply (Qmult_lt_r _ _ (inject_Z b)); [exact HbQ|].
      eapply Qle_lt_trans; [apply Qmult_le_compat_r; [exact Hhi|qlra]|].
      assert (Hexp : (q + u / 2) * inject_Z b == q * inject_Z b + u * inject_Z b * (1 # 2)) by field.
      rewrite Hexp. qlra.
Qed.

Lemma Math_round_Z (n : Z) : JS.Math_round (inject_Z n) = n.
Proof.
  unfold JS.Math_round. apply Qfloor_unique.
  - qlra.
  - rewrite inject_Z_plus. qlra.
Qed.

Lemma Math_round_mono (p q : Q) : p <= q -> (JS.Math_round p <= JS.Math_round q)%Z.
Proof. intros H. unfold JS.Math_round. apply Qfloor_resp_le. qlra. Qed.

Lemma Math_round_comp (p q : Q) : p == q -> JS.Math_round p = JS.Math_round q.
Proof. intros H. unfold JS.Math_round. apply Qfloor_comp. now rewrite H. Qed.

Lemma inject_Z_pos (n : Z) : (0 < n)%Z -> 0 < inject_Z n.
Proof. intros H. change 0 with (inject_Z 0). now rewrite <- Zlt_Qlt. Qed.

Lemma inject_Z_nonneg (n : Z) : (0 <= n)%Z -> 0 <= inject_Z n.
Proof. intros H. change 0 with (inject_Z 0). now rewrite <- Zle_Qle. Qed.

Lemma percentOf_mono (x x' y : Z) :
  (0 < y)%Z -> (x <= x')%Z -> (percentOf x y <= percentOf x' y)%Z.
Proof.
  intros Hy Hx. unfold percentOf, JS.mul, JS.div.
  apply Math_round_mono, binary64_mono.
  apply Qmult_le_compat_r; [|qlra].
  apply binary64_mono.
  apply Qmult_le_compat_r; [now rewrite <- Zle_Qle|].
  apply Qlt_le_weak, Qinv_lt_0_compat, inject_Z_pos, Hy.
Qed.

Lemma percentOf_zero (y : Z) : percentOf 0 y = 0%Z.
Proof.
  unfold percentOf, JS.mul, JS.div.
  assert (E : inject_Z 0 / inject_Z y == 0) by (unfold Qdiv; ring).
  rewrite (binary64_zero _ E).
  assert (E' : 0 * 100 == 0) by ring.
  rewrite (binary64_zero _ E'). reflexivity.
Qed.

Lemma percentOf_full (y : Z) : (0 < y)%Z -> percentOf y y = 100%Z.
Proof.
  intros Hy. unfold percentOf, JS.mul, JS.div.
  assert (E : inject_Z y / inject_Z y == inject_Z 1).
  { pose proof (inject_Z_pos y Hy). change (inject_Z 1) with 1. field. qlra. }
  assert (E1 : binary64 (inject_Z y / inject_Z y) == 1).
  { rewrite (binary64_comp _ _ E). now rewrite binary64_Z by lia. }
  assert (E2 : binary64 (inject_Z y / inject_Z y) * 100 == inject_Z 100).
  { rewrite E1. reflexivity. }
  assert (E3 : binary64 (binary64 (inject_Z y / inject_Z y) * 100) == inject_Z 100).
  { rewrite (binary64_comp _ _ E2). now rewrite binary64_Z by lia. }
  rewrite (Math_round_comp _ _ E3). apply Math_round_Z.
Qed.

(** [Math.round((x / y) * 100)] against the exact rounding of [100 x / y]
    (a tie rounded up): the two roundings of the double computation can
    only matter at an exact tie, where the result may be one less. *)
Lemma percentOf_nearest (x y : Z) :
  (0 <= x < 2 ^ 43)%Z -> (0 < y < 2 ^ 53)%Z ->
  let R := nearestPct x y in
  (R - 1 <= percentOf x y <= R)%Z /\
  (((200 * x + y) mod (2 * y))%Z <> 0%Z -> percentOf x y = R).
Proof.
  intros Hx Hy R. unfold nearestPct in R.
  set (N := (200 * x + y)%Z). set (D := (2 * y)%Z).
  set (rho := (N mod D)%Z).
  assert (HD : (0 < D)%Z) by (unfold D; lia).
  assert (Hdiv : N = (D * R + rho)%Z) by (apply Z.div_mod; lia).
  assert (Hrho : (0 <= rho < D)%Z) by (apply Z.mod_pos_bound; lia).
  destruct (Z.eq_dec x 0%Z) as [->|Hx0].
  { rewrite percentOf_zero.
    assert (HR : R = 0%Z).
    { unfold R. apply Z.div_small. lia. }
    rewrite HR. split; [lia|reflexivity]. }
  set (yq := inject_Z y). set (xq := inject_Z x).
  assert (Hyq : 0 < yq) by (apply inject_Z_pos; lia).
  assert (Hxq : 1 <= xq).
  { unfold xq. change 1 with (inject_Z 1). rewrite <- Zle_Qle. lia. }
  assert (Hx43 : xq + 1 <= inject_Z (2 ^ 43)).
  { unfold xq. change 1 with (inject_Z 1). rewrite <- inject_Z_plus, <- Zle_Qle. lia. }
  assert (Hy53 : yq + 1 <= inject_Z (2 ^ 53)).
  { unfold yq. change 1 with (inject_Z 1). rewrite <- inject_Z_plus, <- Zle_Qle. lia. }
  set (q := xq / yq).
  assert (Hq : q * yq == xq) by (unfold q; field; qlra).
  set (eps := 1 # 9007199254740992).
  assert (Heps : 2 ^ (-53) == eps) by reflexivity.
  assert (Hqpos : 0 < q).
  { unfold q. apply Qlt_shift_div_l; [exact Hyq|qlra]. }
  (* the quotient is in the normal range *)
  assert (Hq53 : eps <= q).
  { unfold q. apply Qle_shift_div_l; [exact Hyq|].
    assert (Hm : eps * yq <= eps * inject_Z (2 ^ 53)).
    { apply Qmult_le_l; [reflexivity|qlra]. }
    assert (Hc : eps * inject_Z (2 ^ 53) == 1) by reflexivity.
    qlra. }
  assert (Hnorm : 2 ^ (-1022) <= q).
  { apply (Qle_trans _ eps); [|exact Hq53].
    rewrite <- Heps. apply pow2_le. lia. }
  pose proof (binary64_relative q Hnorm) as [H1lo H1hi].
  rewrite Heps in H1lo, H1hi.
  set (v1 := binary64 q) in *.
  assert (Hqe : 0 <= q * eps) by (apply Qmult_le_0_compat; [qlra|discriminate]).
  assert (Hqe1 : q * eps <= q * (1 # 2)).
  { apply Qmult_le_l; [exact Hqpos|discriminate]. }
  assert (Hnorm2 : 2 ^ (-1022) <= v1 * 100).
  { apply (Qle_trans _ eps).
    - rewrite <- Heps. apply pow2_le. lia.
    - qlra. }
  pose proof (binary64_relative (v1 * 100) Hnorm2) as [H2lo H2hi].
  rewrite Heps in H2lo, H2hi.
  set (v := binary64 (v1 * 100)) in *.
  (* everything multiplied by the divisor *)
  set (a := v1 * yq). set (b := v * yq).
  assert (Ha : xq - xq * eps <= a <= xq + xq * eps).
  { unfold a. split.
    - apply (Qle_trans _ ((q - q * eps) * yq)).
      + assert (E : (q - q * eps) * yq == q * yq - q * yq * eps) by ring.
        rewrite E, Hq. qlra.
      + apply Qmult_le_compat_r; qlra.
    - apply (Qle_trans _ ((q + q * eps) * yq)).
      + apply Qmult_le_compat_r; qlra.
      + assert (E : (q + q * eps) * yq == q * yq + q * yq * eps) by ring.
        rewrite E, Hq. qlra. }
  assert (Hb : a * 100 - a * 100 * eps <= b <= a * 100 + a * 100 * eps).
  { unfold b, a. split.
    - apply (Qle_trans _ ((v1 * 100 - v1 * 100 * eps) * yq)).
      + assert (E : (v1 * 100 - v1 * 100 * eps) * yq
                    == v1 * yq * 100 - v1 * yq * 100 * eps) by ring.
        rewrite E. qlra.
      + apply Qmult_le_compat_r; qlra.
    - apply (Qle_trans _ ((v1 * 100 + v1 * 100 * eps) * yq)).
      + apply Qmult_le_compat_r; qlra.
      + assert (E : (v1 * 100 + v1 * 100 * eps) * yq
                    == v1 * yq * 100 + v1 * yq * 100 * eps) by ring.
        rewrite E. qlra. }
  assert (Hc43 : inject_Z (2 ^ 43) == 8796093022208) by reflexivity.
  assert (Hbnd : 200 * xq - 1 < 2 * b /\ 2 * b < 200 * xq + 1).
  { destruct Ha as [Ha1 Ha2], Hb as [Hb1 Hb2].
    unfold eps in *. split; qlra. }
  set (t := v + (1 # 2)).
  assert (HtD : t * inject_Z D == 2 * b + yq).
  { unfold t, b, D, yq. rewrite inject_Z_mult. change (inject_Z 2) with 2. ring. }
  assert (HN : inject_Z N == 200 * xq + yq).
  { unfold N, xq, yq. rewrite inject_Z_plus, inject_Z_mult. reflexivity. }
  assert (HDq : 0 < inject_Z D) by (apply inject_Z_pos; lia).
  assert (HNq : inject_Z N == inject_Z D * inject_Z R + inject_Z rho).
  { rewrite <- inject_Z_mult, <- inject_Z_plus. now rewrite <- Hdiv. }
  assert (Hrq : 0 <= inject_Z rho /\ inject_Z rho + 1 <= inject_Z D).
  { split; [apply inject_Z_nonneg; lia|].
    change 1 with (inject_Z 1). rewrite <- inject_Z_plus, <- Zle_Qle. lia. }
  assert (HD1 : 1 <= inject_Z D).
  { change 1 with (inject_Z 1). rewrite <- Zle_Qle. lia. }
  assert (Hlow : inject_Z (R - 1) < t).
  { apply (Qmult_lt_r _ _ (inject_Z D)); [exact HDq|].
    rewrite HtD. unfold Z.sub. rewrite inject_Z_plus.
    change (inject_Z (-1)) with (-1).
    assert (E : (inject_Z R + -1) * inject_Z D == inject_Z D * inject_Z R - inject_Z D) by ring.
    rewrite E. qlra. }
  assert (Hup : t < inject_Z (R + 1)).
  { apply (Qmult_lt_r _ _ (inject_Z D)); [exact HDq|].
    rewrite HtD, inject_Z_plus. change (inject_Z 1) with 1.
    assert (E : (inject_Z R + 1) * inject_Z D == inject_Z D * inject_Z R + inject_Z D) by ring.
    rewrite E. qlra. }
  assert (Hfl : percentOf x y = Qfloor t) by reflexivity.
  pose proof (Qfloor_le t) as Hf1. pose proof (Qlt_floor t) as Hf2.
  assert (Hr1 : (R - 1 < Qfloor t + 1)%Z) by (rewrite Zlt_Qlt; qlra).
  assert (Hr2 : (Qfloor t < R + 1)%Z) by (rewrite Zlt_Qlt; qlra).
  split; [lia|].
  intros Hne. fold N D rho in Hne.
  rewrite Hfl. apply Qfloor_unique; [|exact Hup].
  apply Qlt_le_weak.
  apply (Qmult_lt_r _ _ (inject_Z D)); [exact HDq|].
  rewrite HtD.
  assert (Hrho1 : 1 <= inject_Z rho).
  { change 1 with (inject_Z 1). rewrite <- Zle_Qle. lia. }
  assert (E : inject_Z R * inject_Z D == inject_Z D * inject_Z R) by ring.
  rewrite E. qlra.
Qed.
End DoubleFacts.

(** ** Elapsed days and the weekly total *)

Section ClockFacts.

Variable Date_parse : string -> option Z.
(** [Date.parse("")] is [NaN]. *)
Hypothesis Date_parse_empty : Date_parse "" = None.

Lemma truthy_parse_field (o : option string) :
  (if JS.truthy_str o then parse_field Date_parse o else None)
  = parse_field Date_parse o.
Proof.
  destruct o as [s|]; simpl; [|reflexivity].
  destruct (String.eqb_spec s ""); simpl; [|reflexivity].
  subst s. now rewrite Date_parse_empty.
Qed.

Lemma daysElapsedInWeek_range off now ws :
  0 <= daysElapsedInWeek Date_parse off now ws <= 7.
Proof.
  unfold daysElapsedInWeek.
  destruct (if JS.truthy_str ws then _ else _); lia.
Qed.

Lemma totalPossibleThisWeek_pos habits off now ws :
  1 <= totalPossibleThisWeek Date_parse habits off now ws.
Proof. unfold totalPossibleThisWeek. lia. Qed.

(** C3. For every habit list and every week start that parses, the
    weekly scheduled total is [max(1, habit_count * d)], where [d] is the
    floor-based number of elapsed days
    [floor((now - week_start) / 86400000) + 1] clamped to at least 1 and
    capped at 7; the total is at least 1. *)
Theorem totalPossibleThisWeek_spec (habits : list Habit) (off now : Z)
    (weekStartIso : option string) (startMs : Z) :
  parse_field Date_parse weekStartIso = Some startMs ->
  let d := Z.max 1 (Z.min 7 ((now + off - startMs) / 86400000 + 1)) in
  totalPossibleThisWeek Date_parse habits off now weekStartIso
    = Z.max 1 (Z.of_nat (List.length habits) * d)
  /\ 1 <= d <= 7
  /\ 1 <= totalPossibleThisWeek Date_parse habits off now weekStartIso.
Proof.
  intros Hparse d. split; [|split].
  - unfold totalPossibleThisWeek, daysElapsedInWeek.
    rewrite truthy_parse_field, Hparse. subst d. f_equal. f_equal. lia.
  - subst d. lia.
  - apply totalPossibleThisWeek_pos.
Qed.

(** ** The countdown *)

Lemma secondsFor_remaining off now end_field :
  secondsFor Date_parse off now end_field = remaining Date_parse (now + off) end_field.
Proof.
  unfold secondsFor, remaining, computeSecondsRemaining.
  destruct end_field as [s|]; simpl; [|reflexivity].
  destruct (String.eqb_spec s ""); simpl; [|reflexivity].
  subst s. now rewrite Date_parse_empty.
Qed.

Lemma remaining_nonneg at_ end_field : 0 <= remaining Date_parse at_ end_field.
Proof. unfold remaining. destruct (parse_field _ _); lia. Qed.

(** C4. After a fetch from the initial state the offset is
    [parse(server now) - client clock at fetch time] when that parse is
    finite and 0 otherwise; each displayed value is
    [max(0, floor((parse(end) - (client_now + offset)) / 1000))], and 0 for
    an end that does not parse; no displayed value is negative; and the
    values do not depend on the skew of the client's clock: they are the
    remaining seconds at the server's instant plus the time elapsed on the
    client since the fetch. *)
Theorem countdown_spec (c : Countdown) (clientFetch clientNow : Z) :
  let off := updateServerOffset Date_parse initialServerOffsetMs (cd_now c) clientFetch in
  off = match parse_field Date_parse (cd_now c) with
        | Some serverNow => serverNow - clientFetch
        | None => 0
        end
  /\ displayed Date_parse c off clientNow
     = map (remaining Date_parse (clientNow + off)) [day_end c; cd_week_end c; month_end c]
  /\ Forall (fun v => 0 <= v) (displayed Date_parse c off clientNow)
  /\ (forall serverNow, parse_field Date_parse (cd_now c) = Some serverNow ->
      displayed Date_parse c off clientNow
        = map (remaining Date_parse (serverNow + (clientNow - clientFetch)))
            [day_end c; cd_week_end c; month_end c]
      /\ forall skew,
          displayed Date_parse c
            (updateServerOffset Date_parse initialServerOffsetMs (cd_now c)
               (clientFetch + skew))
            (clientNow + skew)
          = displayed Date_parse c off clientNow).
Proof.
  intros off.
  assert (Hdisp : forall o n, displayed Date_parse c o n
            = map (remaining Date_parse (n + o)) [day_end c; cd_week_end c; month_end c]).
  { intros o n. unfold displayed, daySeconds, weekSeconds, monthSeconds.
    now rewrite !secondsFor_remaining. }
  split; [|split; [|split]].
  - subst off. unfold updateServerOffset, initialServerOffsetMs.
    destruct (parse_field _ _); reflexivity.
  - apply Hdisp.
  - rewrite Hdisp. simpl. repeat constructor; apply remaining_nonneg.
  - intros serverNow Hnow. split.
    + rewrite Hdisp. subst off. unfold updateServerOffset. rewrite Hnow.
      replace (clientNow + (serverNow - clientFetch))
        with (serverNow + (clientNow - clientFetch)) by lia.
      reflexivity.
    + intros skew. rewrite !Hdisp. subst off. unfold updateServerOffset.
      rewrite Hnow.
      replace (clientNow + skew + (serverNow - (clientFetch + skew)))
        with (clientNow + (serverNow - clientFetch)) by lia.
      reflexivity.
Qed.

End ClockFacts.

Lemma sample_parse_empty : sample_parse "" = None.
Proof. reflexivity. Qed.

Lemma totalPossibleThisWeek_spec_witness :
  parse_field sample_parse (Some "2024-01-08T00:00:00Z") = Some 1704672000000
  /\ totalPossibleThisWeek sample_parse
       [ {| habit_id := "h1"; habit_name := "Read"; habit_goal := Some 5 |};
         {| habit_id := "h2"; habit_name := "Run"; habit_goal := None |} ]
       0 1704888000000 (Some "2024-01-08T00:00:00Z") = 6.
Proof.
  split; [reflexivity|].
  exact (proj1 (totalPossibleThisWeek_spec sample_parse sample_parse_empty
                  [ {| habit_id := "h1"; habit_name := "Read"; habit_goal := Some 5 |};
                    {| habit_id := "h2"; habit_name := "Run"; habit_goal := None |} ]
                  0 1704888000000 (Some "2024-01-08T00:00:00Z") 1704672000000
                  eq_refl)).
Defined.

Lemma countdown_spec_witness :
  sample_parse "" = None
  /\ parse_field sample_parse (cd_now sample_countdown) = Some 1704888000000
  /\ displayed sample_parse sample_countdown
       (updateServerOffset sample_parse initialServerOffsetMs
          (cd_now sample_countdown) 1704888005000)
       1704888006000
     = [43199; 388799; 1857599]
  /\ displayed sample_parse sample_countdown
       (updateServerOffset sample_parse initialServerOffsetMs
          (cd_now sample_countdown) (1704888005000 + 7000))
       (1704888006000 + 7000)
     = displayed sample_parse sample_countdown
         (updateServerOffset sample_parse initialServerOffsetMs
            (cd_now sample_countdown) 1704888005000)
         1704888006000.
Proof.
  pose proof (countdown_spec sample_parse sample_parse_empty
                sample_countdown 1704888005000 1704888006000)
    as [_ [Hshown [_ Hskew]]].
  split; [reflexivity|]. split; [reflexivity|]. split; [exact Hshown|].
  exact (proj2 (Hskew 1704888000000 eq_refl) 7000).
Defined.

(** ** Completed logs per habit and their total *)

Lemma or_default_Some_0 (n : Z) : JS.or_default (Some n) 0 = n.
Proof. unfold JS.or_default. destruct (Z.eqb_spec n 0); lia. Qed.

Lemma tallySum_empty : tallySum ∅ = 0.
Proof. unfold tallySum. apply map_fold_empty. Qed.

Lemma tallySum_insert_fresh (m : gmap string Z) (k : string) (v : Z) :
  m !! k = None -> tallySum (<[k:=v]> m) = tallySum m + v.
Proof.
  intros Hk. unfold tallySum.
  rewrite map_fold_insert_L; [reflexivity|intros; lia|exact Hk].
Qed.

Lemma tallySum_insert (m : gmap string Z) (k : string) (v : Z) :
  tallySum (<[k:=v]> m) = tallySum m - JS.or_default (m !! k) 0 + v.
Proof.
  destruct (m !! k) as [x|] eqn:Hk.
  - rewrite <- (insert_delete_id m k x Hk) at 2.
    rewrite <- (insert_delete_eq m k v).
    rewrite !tallySum_insert_fresh by apply lookup_delete_eq.
    rewrite or_default_Some_0. lia.
  - rewrite tallySum_insert_fresh by exact Hk. simpl. lia.
Qed.

Lemma counted_id (l : HabitLog) :
  counted (Some l) = true -> exists id, log_habit_id l = Some id.
Proof.
  unfold counted. destruct (log_habit_id l) as [id|]; [now exists id|].
  now rewrite andb_false_r.
Qed.

(** A log that is not counted leaves every count as it is. *)
Lemma countLog_skip (acc : Obj.t) (log : option HabitLog) :
  counted log = false -> countLog acc log = acc.
Proof.
  destruct log as [l|]; simpl; [|reflexivity].
  intros H. destruct (log_habit_id l); [|reflexivity]. now rewrite H.
Qed.

Lemma tallyLog_skip (m : gmap string Z) (log : option HabitLog) :
  counted log = false -> tallyLog m log = m.
Proof.
  destruct log as [l|]; [|reflexivity]. unfold tallyLog.
  intros H. destruct (log_habit_id l); [|reflexivity]. now rewrite H.
Qed.

Lemma tallyLog_sum (m : gmap string Z) (log : option HabitLog) :
  tallySum (tallyLog m log) = tallySum m + (if counted log then 1 else 0).
Proof.
  destruct (counted log) eqn:Hc; [|rewrite tallyLog_skip by exact Hc; lia].
  destruct log as [l|]; [|discriminate].
  destruct (counted_id l Hc) as [id Hid]. unfold tallyLog.
  rewrite Hid, Hc, tallySum_insert. lia.
Qed.

Lemma tallyLog_lookup (m : gmap string Z) (log : option HabitLog) (h : string) :
  JS.or_default (tallyLog m log !! h) 0
  = JS.or_default (m !! h) 0 + (if counted_for h log then 1 else 0).
Proof.
  destruct log as [l|]; [|simpl; lia]. unfold tallyLog, counted_for.
  destruct (log_habit_id l) as [id|] eqn:Hid.
  - destruct (counted (Some l)) eqn:Hc; simpl; [|lia].
    destruct (String.eqb_spec id h) as [->|Hne].
    + rewrite lookup_insert_eq, or_default_Some_0. reflexivity.
    + rewrite lookup_insert_ne by exact Hne. lia.
  - rewrite andb_false_r. lia.
Qed.

Lemma fold_tallyLog_sum (logs : list (option HabitLog)) (m : gmap string Z) :
  tallySum (fold_left tallyLog logs m)
  = tallySum m + Z.of_nat (List.length (List.filter counted logs)).
Proof.
  revert m. induction logs as [|log logs IH]; intros m; simpl; [lia|].
  rewrite IH, tallyLog_sum. destruct (counted log); simpl List.length; lia.
Qed.

Lemma fold_tallyLog_lookup (logs : list (option HabitLog)) (m : gmap string Z)
    (h : string) :
  JS.or_default (fold_left tallyLog logs m !! h) 0
  = JS.or_default (m !! h) 0
    + Z.of_nat (List.length (List.filter (counted_for h) logs)).
Proof.
  revert m. induction logs as [|log logs IH]; intros m; simpl; [lia|].
  rewrite IH, tallyLog_lookup. destruct (counted_for h log); simpl List.length; lia.
Qed.

Lemma tallyLog_positive (m : gmap string Z) (log : option HabitLog) :
  (forall k v, m !! k = Some v -> 0 < v) ->
  forall k v, tallyLog m log !! k = Some v -> 0 < v.
Proof.
  intros Hm k v. destruct log as [l|]; [|apply Hm]. unfold tallyLog.
  destruct (log_habit_id l) as [id|]; [|apply Hm].
  destruct (counted (Some l)); [|apply Hm].
  destruct (decide (id = k)) as [->|Hne].
  - rewrite lookup_insert_eq. intros [= <-].
    destruct (m !! k) as [x|] eqn:Hx; simpl; [|lia].
    specialize (Hm k x Hx). destruct (Z.eqb_spec x 0); lia.
  - rewrite lookup_insert_ne by exact Hne. apply Hm.
Qed.

Lemma fold_tallyLog_positive (logs : list (option HabitLog)) (m : gmap string Z) :
  (forall k v, m !! k = Some v -> 0 < v) ->
  forall k v, fold_left tallyLog logs m !! k = Some v -> 0 < v.
Proof.
  revert m. induction logs as [|log logs IH]; intros m Hm; simpl; [exact Hm|].
  apply IH. now apply tallyLog_positive.
Qed.

(** The tally holds for a habit the number of its counted logs, and no
    entry for a habit without one. *)
Lemma tally_lookup (logs : list (option HabitLog)) (h : string) :
  tally logs !! h
  = let n := Z.of_nat (List.length (List.filter (counted_for h) logs)) in
    if n =? 0 then None else Some n.
Proof.
  pose proof (fold_tallyLog_lookup logs ∅ h) as Hl.
  rewrite lookup_empty in Hl. simpl JS.or_default in Hl at 2.
  fold (tally logs) in Hl.
  pose proof (fold_tallyLog_positive logs ∅) as Hpos.
  fold (tally logs) in Hpos.
  cbv zeta.
  destruct (tally logs !! h) as [v|] eqn:Hv.
  - assert (0 < v) by (apply (Hpos ltac:(intros ? ?; now rewrite lookup_empty) h v Hv)).
    rewrite or_default_Some_0 in Hl.
    destruct (Z.eqb_spec (Z.of_nat (List.length (List.filter (counted_for h) logs))) 0);
      [lia|]. f_equal. lia.
  - simpl in Hl.
    destruct (Z.eqb_spec (Z.of_nat (List.length (List.filter (counted_for h) logs))) 0);
      [reflexivity|lia].
Qed.

Lemma tally_total (logs : list (option HabitLog)) :
  tallySum (tally logs) = Z.of_nat (List.length (List.filter counted logs)).
Proof. unfold tally. rewrite fold_tallyLog_sum, tallySum_empty. lia. Qed.

Lemma inherited_proto : Obj.inherited "__proto__" = true.
Proof. reflexivity. Qed.

Lemma held_lookup (m : gmap string Z) (k : string) :
  map_imap held m !! k = m !! k ≫= held k.
Proof. apply map_lookup_imap. Qed.

(** One step of the reduce against one step of the tally. *)
Lemma held_proto (n : Z) : held "__proto__" n = None.
Proof. reflexivity. Qed.

Lemma held_other (k : string) (n : Z) :
  k <> "__proto__" ->
  held k n = if Obj.inherited k then Some Obj.Text else Some (Obj.Count n).
Proof.
  intros Hk. unfold held.
  destruct (String.eqb_spec k "__proto__"); [contradiction|reflexivity].
Qed.

Lemma countLog_held (m : gmap string Z) (log : option HabitLog) :
  countLog (map_imap held m) log = map_imap held (tallyLog m log).
Proof.
  destruct log as [l|]; [|reflexivity].
  unfold countLog, tallyLog, counted.
  destruct (log_habit_id l) as [id|] eqn:Hid; [|reflexivity].
  destruct (is_completed l && JS.truthy_str (Some id)); [|reflexivity].
  apply map_eq. intros k. rewrite (held_lookup (<[id:=_]> m)).
  unfold Obj.assign.
  destruct (String.eqb_spec id "__proto__") as [->|Hp].
  - rewrite held_lookup.
    destruct (decide ("__proto__" = k)) as [<-|Hne].
    + rewrite lookup_insert_eq. simpl. rewrite held_proto.
      destruct (m !! "__proto__") as [n|]; [apply held_proto|reflexivity].
    + now rewrite lookup_insert_ne by exact Hne.
  - destruct (decide (id = k)) as [<-|Hne].
    + rewrite !lookup_insert_eq. simpl. unfold Obj.get.
      rewrite held_lookup, held_other by exact Hp.
      destruct (m !! id) as [n|]; simpl.
      * rewrite held_other by exact Hp.
        destruct (Obj.inherited id); reflexivity.
      * destruct (Obj.inherited id); reflexivity.
    + rewrite !lookup_insert_ne by exact Hne. now rewrite held_lookup.
Qed.

(** The accumulator holds, key by key, what the tally makes it hold. *)
Lemma completedByHabit_held (logs : list (option HabitLog)) :
  completedByHabit logs = map_imap held (tally logs).
Proof.
  unfold completedByHabit, tally.
  assert (H0 : (∅ : Obj.t) = map_imap held (∅ : gmap string Z)).
  { apply map_eq. intros k. now rewrite held_lookup, !lookup_empty. }
  rewrite H0. generalize (∅ : gmap string Z).
  induction logs as [|log logs IH]; intros m; simpl; [reflexivity|].
  now rewrite countLog_held, IH.
Qed.

(** The count kept for a habit whose id is not an inherited name. *)
Lemma completedByHabit_lookup (logs : list (option HabitLog)) (h : string) :
  Obj.inherited h = false ->
  completedByHabit logs !! h
  = let n := Z.of_nat (List.length (List.filter (counted_for h) logs)) in
    if n =? 0 then None else Some (Obj.Count n).
Proof.
  intros Hh. rewrite completedByHabit_held, held_lookup, tally_lookup. cbv zeta.
  destruct (Z.of_nat (List.length (List.filter (counted_for h) logs)) =? 0);
    [reflexivity|].
  simpl. unfold held. rewrite Hh.
  destruct (String.eqb_spec h "__proto__") as [->|_]; [discriminate|reflexivity].
Qed.

Lemma counted_for_counted (h : string) (log : option HabitLog) :
  counted_for h log = true -> counted log = true.
Proof.
  destruct log as [l|]; [|discriminate]. unfold counted_for.
  now intros H%andb_true_iff.
Qed.

Lemma counted_for_habit_id (h : string) (l : HabitLog) :
  counted_for h (Some l) = true -> log_habit_id l = Some h.
Proof.
  unfold counted_for. destruct (log_habit_id l) as [id|]; [|now rewrite andb_false_r].
  intros [_ H]%andb_true_iff. apply String.eqb_eq in H. now subst.
Qed.

(** The keys of the tally of plain logs are no inherited names. *)
Lemma tally_plain_key (logs : list (option HabitLog)) (k : string) (n : Z) :
  plain_logs logs = true -> tally logs !! k = Some n -> Obj.inherited k = false.
Proof.
  intros Hpl Hk. rewrite tally_lookup in Hk. cbv zeta in Hk.
  destruct (Z.eqb_spec (Z.of_nat (List.length (List.filter (counted_for k) logs))) 0)
    as [|Hne]; [discriminate|].
  destruct (List.filter (counted_for k) logs) as [|log rest] eqn:Hf; [simpl in Hne; lia|].
  assert (Hin : In log (List.filter (counted_for k) logs)) by (rewrite Hf; now left).
  apply List.filter_In in Hin. destruct Hin as [Hin Hc].
  unfold plain_logs in Hpl. rewrite forallb_forall in Hpl.
  specialize (Hpl log Hin).
  destruct log as [l|]; [|discriminate].
  pose proof (counted_for_habit_id k l Hc) as Hid.
  pose proof (counted_for_counted k _ Hc) as Hcd.
  unfold plain_log in Hpl. rewrite Hid, Hcd in Hpl. simpl in Hpl.
  now apply negb_true_iff in Hpl.
Qed.

(** For plain logs the accumulator is the tally. *)
Lemma completedByHabit_plain (logs : list (option HabitLog)) :
  plain_logs logs = true ->
  completedByHabit logs = Obj.Count <$> tally logs.
Proof.
  intros Hpl. rewrite completedByHabit_held. apply map_eq. intros k.
  rewrite held_lookup, lookup_fmap.
  destruct (tally logs !! k) as [n|] eqn:Hk; [|reflexivity].
  simpl. unfold held. rewrite (tally_plain_key logs k n Hpl Hk).
  destruct (String.eqb_spec k "__proto__") as [->|_]; [|reflexivity].
  pose proof (tally_plain_key logs _ n Hpl Hk). discriminate.
Qed.

Lemma add_comm (y : Obj.total) (a b : Obj.slot) :
  Obj.add (Obj.add y a) b = Obj.add (Obj.add y b) a.
Proof.
  destruct y as [s|], a as [n|], b as [n'|]; simpl; try reflexivity.
  f_equal. lia.
Qed.

Lemma sumValues_counts (m : gmap string Z) :
  sumValues (Obj.Count <$> m) = Obj.Total (tallySum m).
Proof.
  induction m as [|k n m Hk IH] using map_ind.
  - rewrite fmap_empty. unfold sumValues, tallySum. now rewrite !map_fold_empty.
  - rewrite fmap_insert. unfold sumValues.
    rewrite map_fold_insert_L.
    + fold (sumValues (Obj.Count <$> m)). rewrite IH.
      rewrite tallySum_insert_fresh by exact Hk. cbn [Obj.add].
      now rewrite or_default_Some_0.
    + intros. apply add_comm.
    + now rewrite lookup_fmap, Hk.
Qed.

(** For plain logs the total is the number of counted logs. *)
Lemma totalCompletedThisWeek_plain (logs : list (option HabitLog)) :
  plain_logs logs = true ->
  totalCompletedThisWeek logs
  = Obj.Total (Z.of_nat (List.length (List.filter counted logs))).
Proof.
  intros Hpl. unfold totalCompletedThisWeek.
  now rewrite completedByHabit_plain, sumValues_counts, tally_total.
Qed.

(** C7. The claim fails on a log whose habit id is the name of a member
    that objects inherit: for one completed log of the habit ["constructor"]
    the reduce reads the inherited function where it expects no count yet,
    stores a text, and the total of the week is a text and not the number
    1 of completed logs. *)
Theorem totalCompletedThisWeek_inherited_id :
  let logs := [ Some {| log_status := Some "completed";
                        log_habit_id := Some "constructor" |} ] in
  Z.of_nat (List.length (List.filter counted logs)) = 1
  /\ completedByHabit logs !! "constructor" = Some Obj.Text
  /\ totalCompletedThisWeek logs = Obj.TotalText
  /\ totalCompletedThisWeek logs
     <> Obj.Total (Z.of_nat (List.length (List.filter counted logs))).
Proof. vm_compute. repeat split; discriminate. Qed.

Example totalCompletedThisWeek_sample :
  let log st id := Some {| log_status := Some st; log_habit_id := id |} in
  let logs := [ log "completed" (Some "h1"); log "missed" (Some "h1");
                log "completed" (Some "h2"); None; log "completed" None;
                log "completed" (Some "h1"); log "skipped" (Some "h2") ] in
  totalCompletedThisWeek logs = Obj.Total 3
  /\ completedByHabit logs !! "h1" = Some (Obj.Count 2)
  /\ completedByHabit logs !! "h2" = Some (Obj.Count 1).
Proof. vm_compute. repeat split; reflexivity. Qed.

(** ** Percentages of the cards *)

Lemma or_default_falsy_7 (goal : option Z) :
  JS.or_default goal 7 = goal_falsy_7 goal.
Proof. destruct goal as [[| |]|]; reflexivity. Qed.

Lemma max_from_lower (lo : Z) (xs : list Z) : lo <= JS.max_from lo xs.
Proof.
  unfold JS.max_from. revert lo.
  induction xs as [|x xs IH]; intros lo; simpl; [lia|].
  specialize (IH (Z.max lo x)). lia.
Qed.

Lemma max_from_upper (lo : Z) (xs : list Z) (x : Z) :
  In x xs -> x <= JS.max_from lo xs.
Proof.
  unfold JS.max_from. revert lo.
  induction xs as [|y xs IH]; intros lo Hin; simpl in *; [contradiction|].
  destruct Hin as [->|Hin].
  - pose proof (max_from_lower (Z.max lo x) xs) as H. unfold JS.max_from in H. lia.
  - now apply IH.
Qed.

(** The fold computes the greatest of the lower bound and the elements. *)
Lemma max_from_attained (lo : Z) (xs : list Z) :
  JS.max_from lo xs = lo \/ In (JS.max_from lo xs) xs.
Proof.
  unfold JS.max_from. revert lo.
  induction xs as [|y xs IH]; intros lo; simpl; [now left|].
  destruct (IH (Z.max lo y)) as [H|H]; [|now right; right].
  rewrite H. destruct (Z.max_spec lo y) as [[_ ->]|[_ ->]]; [right; now left|now left].
Qed.

(** A percentage of a part of the whole lies between 0 and 100. *)
Lemma percentOf_bounds (x y : Z) :
  0 < y -> 0 <= x <= y -> 0 <= percentOf x y <= 100.
Proof.
  intros Hy Hx.
  pose proof (DoubleFacts.percentOf_mono 0 x y Hy ltac:(lia)) as Hlo.
  pose proof (DoubleFacts.percentOf_mono x y y Hy ltac:(lia)) as Hhi.
  rewrite DoubleFacts.percentOf_zero in Hlo.
  rewrite DoubleFacts.percentOf_full in Hhi by exact Hy. lia.
Qed.

(** The "done" figure of a habit whose id is not an inherited name is the
    number of its counted logs. *)
Lemma habitDone_count (logs : list (option HabitLog)) (h : Habit) :
  Obj.inherited (habit_id h) = false ->
  habitDone (completedByHabit logs) h
  = Obj.Num (Z.of_nat (List.length (List.filter (counted_for (habit_id h)) logs))).
Proof.
  intros Hh. unfold habitDone, Obj.get.
  rewrite (completedByHabit_lookup logs _ Hh). cbv zeta.
  destruct (Z.eqb_spec (Z.of_nat (List.length
              (List.filter (counted_for (habit_id h)) logs))) 0) as [E|E].
  - rewrite Hh, E. reflexivity.
  - now rewrite or_default_Some_0.
Qed.

(** C5, as amended. For a habit whose id is not the name of a member that
    objects inherit, the progress is
    [clamp(Math.round(done / max(1, goal) * 100), 0, 100)], where [done] is
    the number of the habit's counted logs and the goal is 7 when it is
    absent or 0; it is an integer between 0 and 100.  The bar of a
    leaderboard entry is [Math.round(score / max(1, greatest score) * 100)],
    within 0 and 100 when the scores are not negative.  Every divisor is at
    least 1, also for an empty list of entries.  [Math.round((x / y) * 100)]
    is computed on doubles: it is the integer nearest to [100 x / y], except
    that at an exact tie it may be the lower of the two nearest integers. *)
Theorem percentages_spec (logs : list (option HabitLog)) (h : Habit)
    (board : option Leaderboard) :
  Obj.inherited (habit_id h) = false ->
  let byHabit := completedByHabit logs in
  let done := Z.of_nat (List.length (List.filter (counted_for (habit_id h)) logs)) in
  let es := leaderboardEntries board in
  habitDone byHabit h = Obj.Num done
  /\ habitPct byHabit h = Some (clampedPct done (goal_falsy_7 (habit_goal h)))
  /\ 0 <= clampedPct done (goal_falsy_7 (habit_goal h)) <= 100
  /\ 1 <= habitGoal h
  /\ 1 <= maxScore es
  /\ maxScore (leaderboardEntries None) = 1
  /\ (forall e, In e es -> entryScore e <= maxScore es)
  /\ (maxScore es = 1 \/ exists e, In e es /\ entryScore e = maxScore es)
  /\ (forall e, entryPct es e = percentOf (entryScore e) (maxScore es))
  /\ (forall e, In e es -> 0 <= entryScore e -> 0 <= entryPct es e <= 100)
  /\ (forall x y, 0 <= x < 2 ^ 43 -> 0 < y < 2 ^ 53 ->
        nearestPct x y - 1 <= percentOf x y <= nearestPct x y
        /\ ((200 * x + y) mod (2 * y) <> 0 -> percentOf x y = nearestPct x y)).
Proof.
  intros Hh byHabit done es.
  assert (Hmax : 1 <= maxScore es) by apply max_from_lower.
  assert (Hle : forall e, In e es -> entryScore e <= maxScore es).
  { intros e He. apply max_from_upper. now apply in_map. }
  assert (Hd : habitDone byHabit h = Obj.Num done) by now apply habitDone_count.
  split; [exact Hd|]. split.
  { unfold habitPct. rewrite Hd. unfold clampedPct, habitGoal.
    now rewrite or_default_falsy_7. }
  split; [unfold clampedPct; lia|].
  split; [unfold habitGoal; lia|].
  split; [exact Hmax|]. split; [reflexivity|]. split; [exact Hle|].
  split.
  { destruct (max_from_attained 1 (map entryScore es)) as [H|H]; [now left|right].
    apply in_map_iff in H. destruct H as [e [He1 He2]]. now exists e. }
  split; [reflexivity|]. split.
  { intros e He Hs. apply percentOf_bounds; [lia|]. split; [exact Hs|now apply Hle]. }
  intros x y Hx Hy. exact (DoubleFacts.percentOf_nearest x y Hx Hy).
Qed.

Lemma percentages_spec_witness :
  let h := {| habit_id := "h1"; habit_name := "Read"; habit_goal := Some 5 |} in
  let log := Some {| log_status := Some "completed"; log_habit_id := Some "h1" |} in
  Obj.inherited (habit_id h) = false
  /\ habitPct (completedByHabit [log; log]) h = Some 40.
Proof.
  intros h log.
  assert (Hh : Obj.inherited (habit_id h) = false) by reflexivity.
  split; [exact Hh|].
  exact (proj1 (proj2 (percentages_spec [log; log] h None Hh))).
Defined.

(** C5 as stated fails for a habit whose goal is 0: the page takes 7 for it
    ([h.goal || 7]), not [max(1, 0)]; with one completed day the page shows
    14 where the stated formula gives 100. *)
Lemma percentages_goal_zero_counterexample :
  let h := {| habit_id := "h1"; habit_name := "Read"; habit_goal := Some 0 |} in
  let byHabit :=
    completedByHabit
      [ Some {| log_status := Some "completed"; log_habit_id := Some "h1" |} ] in
  habitDone byHabit h = Obj.Num 1
  /\ habitPct byHabit h = Some 14
  /\ clampedPct 1 (goal_absent_7 (habit_goal h)) = 100
  /\ habitPct byHabit h <> Some (clampedPct 1 (goal_absent_7 (habit_goal h))).
Proof. vm_compute. repeat split; discriminate. Qed.

(** The two roundings of [Math.round((x / y) * 100)] show at a tie: 23 of
    40 is 57.5 exactly, and the page shows 57. *)
Example percentOf_samples :
  percentOf 23 40 = 57 /\ nearestPct 23 40 = 58
  /\ percentOf 1 8 = 13 /\ nearestPct 1 8 = 13
  /\ percentOf 3 7 = 43 /\ percentOf 9 7 = 129.
Proof. vm_compute. repeat split; reflexivity. Qed.

(** ** The completion breakdown chart *)

(** C6. For every breakdown object the chart's data holds exactly the
    statuses whose count is strictly positive, in the order completed,
    missed, skipped, each with its count; a missing, zero or negative count
    is left out. *)
Theorem pieData_spec (b : Breakdown) :
  map (fun item => (pie_name item, pie_value item))
      (pieData (Some {| completion_breakdown := Some b |}))
    = positive_counts b
  /\ Forall (fun item => 0 < pie_value item)
       (pieData (Some {| completion_breakdown := Some b |}))
  /\ pieData (Some {| completion_breakdown := None |}) = []
  /\ pieData None = [].
Proof.
  repeat split.
  - destruct b as [[[|c|c]|] [[|m|m]|] [[|s|s]|]]; reflexivity.
  - apply List.Forall_forall. intros item Hin. unfold pieData in Hin.
    cbn [completion_breakdown] in Hin.
    apply List.filter_In in Hin. destruct Hin as [_ Hpos]. lia.
Qed.

(** ** Failures of the fetch *)

Section FetchFacts.

Variable Date_parse : string -> option Z.
Variable toISODate : Z -> string.
Variable api : Backend.
Variable Date_now : Z.

Local Abbreviation body := (fetchBody Date_parse toISODate api Date_now).
Local Abbreviation fetch := (fetchDashboardData Date_parse toISODate api Date_now).

Lemma quiet_bind {A B} (c : Async.M A) (k : A -> Async.M B) :
  quiet c -> (forall a, quiet (k a)) -> quiet (Async.bind c k).
Proof.
  intros Hc Hk st out. unfold Async.bind.
  specialize (Hc st out). destruct (c st out) as [[[a|e] st'] out'].
  - simpl in Hc. subst out'. apply Hk.
  - exact Hc.
Qed.

Lemma quiet_await {A} (p : settled A) : quiet (Async.await p).
Proof. destruct p; intros st out; reflexivity. Qed.

Lemma quiet_modify f : quiet (Async.modify f).
Proof. intros st out. reflexivity. Qed.

Lemma quiet_isoDateOrNull x : quiet (isoDateOrNull Date_parse toISODate x).
Proof.
  intros st out. unfold isoDateOrNull. destruct x as [s|]; [|reflexivity].
  destruct (JS.truthy_str (Some s)); [|reflexivity].
  destruct (Date_parse s); reflexivity.
Qed.

(** The body of the [try] block never writes to the console. *)
Lemma fetchBody_console st out :
  snd (body st out) = out.
Proof.
  revert st out. change (quiet body). unfold fetchBody.
  apply quiet_bind; [apply quiet_await|]. intros [[[d l] c] h].
  apply quiet_bind; [apply quiet_modify|]. intros _.
  apply quiet_bind; [apply quiet_modify|]. intros _.
  apply quiet_bind; [apply quiet_isoDateOrNull|]. intros ws.
  apply quiet_bind; [apply quiet_isoDateOrNull|]. intros we.
  apply quiet_bind.
  - destruct ws as [a|], we as [b|]; try apply quiet_modify.
    destruct (JS.truthy_str (Some a) && JS.truthy_str (Some b));
      [|apply quiet_modify].
    apply quiet_bind; [apply quiet_await|]. intros logsRes. apply quiet_modify.
  - intros _. repeat (apply quiet_bind; [apply quiet_modify|]; intros _).
    apply quiet_modify.
Qed.

(** When a request of [Promise.all] is rejected the body throws before it
    has written anything. *)
Lemma fetchBody_rejected st out :
  initial_request_rejected api ->
  exists e, body st out = (Rejected e, st, out).
Proof.
  intros H. unfold fetchBody, Async.bind, Async.await, Async.Promise_all4.
  destruct (getDashboard api) as [d|e1] eqn:E1; [|eexists; reflexivity].
  destruct (getWeekly api 10 0) as [l|e2] eqn:E2; [|eexists; reflexivity].
  destruct (getCountdown api) as [c|e3] eqn:E3; [|eexists; reflexivity].
  destruct (getAllHabits api) as [h|e4] eqn:E4; [|eexists; reflexivity].
  destruct H as [[e H]|[[e H]|[[e H]|[e H]]]]; congruence.
Qed.

(** C8, as amended. A failure of the fetch is caught and written to the
    console with [console.error]; it is not passed on to the caller:
    [fetchDashboardData] always completes normally and clears the loading
    flag, keeping the state written before the failure.  Only a fetch
    without failure writes nothing to the console.  When one of the four
    initial requests is rejected, nothing but the loading flag changes. *)
Theorem fetchDashboardData_outcome (st : PageState) (out : console) :
  match body st out with
  | (Fulfilled _, st', _) =>
      fetch st out = (Fulfilled tt, stopLoading st', out)
  | (Rejected e, st', _) =>
      fetch st out
      = (Fulfilled tt, stopLoading st',
         (out ++ [("Failed to fetch dashboard data:", e)])%list)
  end
  /\ fst (fst (fetch st out)) = Fulfilled tt
  /\ loading (snd (fst (fetch st out))) = false
  /\ (initial_request_rejected api ->
      exists e, fetch st out
        = (Fulfilled tt, stopLoading st,
           (out ++ [("Failed to fetch dashboard data:", e)])%list)).
Proof.
  assert (Hbody : match body st out with
    | (Fulfilled _, st', _) =>
        fetch st out = (Fulfilled tt, stopLoading st', out)
    | (Rejected e, st', _) =>
        fetch st out
        = (Fulfilled tt, stopLoading st',
           (out ++ [("Failed to fetch dashboard data:", e)])%list)
    end).
  { pose proof (fetchBody_console st out) as Hout.
    unfold fetchDashboardData, Async.try_finally, Async.try_catch.
    destruct (body st out) as [[r st'] out']. simpl in Hout. subst out'.
    destruct r as [[]|e]; reflexivity. }
  split; [exact Hbody|].
  split; [|split].
  - destruct (body st out) as [[[u|e] st'] out']; now rewrite Hbody.
  - destruct (body st out) as [[[u|e] st'] out']; now rewrite Hbody.
  - intros Hrej. destruct (fetchBody_rejected st out Hrej) as [e He].
    rewrite He in Hbody. now exists e.
Qed.

End FetchFacts.

Example fetchDashboardData_sample :
  let after := snd (fst (fetchDashboardData sample_parse sample_toISODate
                           api_sample 1704888005000 initialState [])) in
  loading after = false
  /\ serverOffsetMs after = -5000
  /\ countdown after = Some sample_countdown
  /\ totalCompletedThisWeek (weekLogs after) = Obj.Total 1
  /\ map (habitPct (completedByHabit (weekLogs after))) (habits after) = [Some 20]
  /\ map pie_value (pieData (data after)) = [12]
  /\ displayed sample_parse sample_countdown (serverOffsetMs after) 1704888006000
     = [43199; 388799; 1857599].
Proof. vm_compute. repeat split; reflexivity. Qed.

Lemma fetchDashboardData_outcome_witness :
  initial_request_rejected api_down
  /\ exists e,
       fetchDashboardData sample_parse sample_toISODate api_down 1704888005000
         initialState []
       = (Fulfilled tt, stopLoading initialState,
          ([] ++ [("Failed to fetch dashboard data:", e)])%list).
Proof.
  assert (H : initial_request_rejected api_down)
    by (left; eexists; reflexivity).
  split; [exact H|].
  exact (proj2 (proj2 (proj2 (fetchDashboardData_outcome sample_parse
           sample_toISODate api_down 1704888005000 initialState []))) H).
Defined.

(** C8 as stated fails: when the backend cannot be reached the fetch
    completes normally, as it does on success, and leaves the page in the
    very state a successful fetch of empty data leaves it in; the failure
    goes to the console only. *)
Lemma fetch_failure_counterexample :
  let failed := fetchDashboardData sample_parse sample_toISODate api_down
                  1704888005000 initialState [] in
  let empty := fetchDashboardData sample_parse sample_toISODate api_empty
                 1704888005000 initialState [] in
  initial_request_rejected api_down
  /\ fst (fst failed) = Fulfilled tt
  /\ fst (fst empty) = Fulfilled tt
  /\ snd (fst failed) = snd (fst empty).
Proof.
  cbv zeta. split; [left; eexists; reflexivity|].
  repeat split; reflexivity.
Qed.

(** ** The countdown format *)

Lemma uint_of_string_zeros (k : nat) (u : uint) :
  NilEmpty.uint_of_string (repeat_char "0" k ++ NilEmpty.string_of_uint u)
  = Some (Nat.iter k D0 u).
Proof.
  induction k as [|k IH].
  - change (repeat_char "0" 0 ++ NilEmpty.string_of_uint u)%string
      with (NilEmpty.string_of_uint u).
    apply NilEmpty.usu.
  - change (repeat_char "0" (S k) ++ NilEmpty.string_of_uint u)%string
      with (String "0" (repeat_char "0" k ++ NilEmpty.string_of_uint u)).
    change (NilEmpty.uint_of_string (String "0" ?s))
      with (uint_of_char "0" (NilEmpty.uint_of_string s)).
    rewrite IH. reflexivity.
Qed.

Lemma of_uint_zeros (k : nat) (u : uint) :
  N.of_uint (Nat.iter k D0 u) = N.of_uint u.
Proof.
  induction k as [|k IH]; [reflexivity|].
  change (Nat.iter (S k) D0 u) with (D0 (Nat.iter k D0 u)).
  change (N.of_uint (D0 (Nat.iter k D0 u))) with (N.of_uint (Nat.iter k D0 u)).
  exact IH.
Qed.

Lemma decimal_value_zeros (k : nat) (u : uint) :
  decimal_value (repeat_char "0" k ++ NilEmpty.string_of_uint u)
  = Some (Z.of_N (N.of_uint u)).
Proof.
  unfold decimal_value. now rewrite uint_of_string_zeros, of_uint_zeros.
Qed.

(** Below 2^53 the text of an integer is its decimal digits. *)
Lemma toString_small (n : Z) :
  n < 2 ^ 53 -> NumberToString.toString n = String_of_int n.
Proof.
  intros Hn. unfold NumberToString.toString.
  destruct (Z.ltb_spec n (2 ^ 53)); [reflexivity|lia].
Qed.

Lemma pad2_small (n : Z) :
  n < 2 ^ 53 -> pad2 n = padStart (String_of_int (Z.max 0 n)) 2 "0".
Proof. intros Hn. unfold pad2. now rewrite toString_small by lia. Qed.

Lemma decimal_value_pad2 (n : Z) :
  0 <= n < 2 ^ 53 -> decimal_value (pad2 n) = Some n.
Proof.
  intros Hn. rewrite pad2_small by lia. unfold padStart, String_of_int.
  rewrite decimal_value_zeros, DecimalN.Unsigned.of_to. f_equal. lia.
Qed.

Lemma length_append (s t : string) :
  String.length (s ++ t) = (String.length s + String.length t)%nat.
Proof. induction s as [|c s IH]; simpl; [reflexivity|now rewrite IH]. Qed.

Lemma length_repeat_char (c : ascii) (k : nat) :
  String.length (repeat_char c k) = k.
Proof. induction k as [|k IH]; simpl; [reflexivity|now rewrite IH]. Qed.

Lemma length_pad2 (n : Z) : (2 <= String.length (pad2 n))%nat.
Proof.
  unfold pad2, padStart. rewrite length_append, length_repeat_char. lia.
Qed.

Lemma pad2_renders (n : Z) : 0 <= n < 2 ^ 53 -> renders (pad2 n) n.
Proof.
  intros Hn. split; [apply length_pad2|now apply decimal_value_pad2].
Qed.

Lemma pad2_two_digits_table :
  forallb (fun k => (String.length (pad2 (Z.of_nat k)) =? 2)%nat) (seq 0 100) = true.
Proof. vm_compute. reflexivity. Qed.

(** A value below 100 is rendered with exactly two digits. *)
Lemma pad2_two_digits (n : Z) : 0 <= n < 100 -> String.length (pad2 n) = 2%nat.
Proof.
  intros Hn. pose proof pad2_two_digits_table as Htab.
  rewrite forallb_forall in Htab.
  specialize (Htab (Z.to_nat n)).
  rewrite Z2Nat.id in Htab by lia.
  apply Nat.eqb_eq, Htab, in_seq. lia.
Qed.

Lemma String_of_int_length (n : Z) :
  100 <= n -> (3 <= String.length (String_of_int n))%nat.
Proof.
  intros Hn. unfold String_of_int.
  pose proof (DecimalN.Unsigned.of_to (Z.to_N n)) as E.
  assert (Hm : (100 <= Z.to_N n)%N) by lia.
  rewrite <- E in Hm. clear E.
  destruct (N.to_uint (Z.to_N n)) as [|u|u|u|u|u|u|u|u|u|u];
    try (exfalso; apply Hm; reflexivity);
    destruct u as [|u|u|u|u|u|u|u|u|u|u];
    try (exfalso; apply Hm; reflexivity);
    destruct u as [|u|u|u|u|u|u|u|u|u|u];
    try (exfalso; apply Hm; reflexivity);
    simpl; lia.
Qed.

(** A value of 100 or more below 2^53 is rendered in full, with three or
    more digits. *)
Lemma pad2_large (n : Z) :
  100 <= n < 2 ^ 53 ->
  pad2 n = String_of_int n /\ (3 <= String.length (pad2 n))%nat.
Proof.
  intros Hn. pose proof (String_of_int_length n ltac:(lia)) as Hlen.
  assert (Heq : pad2 n = String_of_int n).
  { rewrite pad2_small by lia. unfold padStart. rewrite Z.max_r by lia.
    replace (2 - String.length (String_of_int n))%nat with 0%nat by lia.
    reflexivity. }
  split; [exact Heq|]. now rewrite Heq.
Qed.

Lemma wholeSeconds_nonneg (x : number) : 0 <= wholeSeconds x.
Proof. unfold wholeSeconds. lia. Qed.

(** The quotient of a count below 2^53 by a positive constant, floored, is
    the integer quotient. *)
Lemma floor_div (a b : Z) :
  0 <= a < 2 ^ 53 -> 0 < b < 2 ^ 53 ->
  JS.Math_floor (JS.div (inject_Z a) (inject_Z b)) = a / b.
Proof. intros Ha Hb. now apply DoubleFacts.floor_div_exact. Qed.

Lemma days_hours_minutes_seconds (t : Z) :
  0 <= t ->
  0 <= t / 86400
  /\ 0 <= Z.rem t 86400 / 3600 < 24
  /\ 0 <= Z.rem t 3600 / 60 < 60
  /\ 0 <= Z.rem t 60 < 60
  /\ t / 86400 * 86400 + Z.rem t 86400 / 3600 * 3600
     + Z.rem t 3600 / 60 * 60 + Z.rem t 60 = t.
Proof.
  intros Ht. rewrite !Z.rem_mod_nonneg by lia.
  Z.to_euclidean_division_equations. lia.
Qed.

(** The text in terms of the whole seconds: the hours, minutes and seconds
    are always exact. *)
Lemma formatDDHHMMSS_components (x : number) :
  let t := wholeSeconds x in
  formatDDHHMMSS x
  = (pad2 (JS.Math_floor (JS.div (inject_Z t) 86400)) ++ ":"
     ++ pad2 (Z.rem t 86400 / 3600) ++ ":" ++ pad2 (Z.rem t 3600 / 60) ++ ":"
     ++ pad2 (Z.rem t 60))%string.
Proof.
  intros t. pose proof (wholeSeconds_nonneg x) as Ht. fold t in Ht.
  unfold formatDDHHMMSS. fold t.
  change 3600%Q with (inject_Z 3600). change 60%Q with (inject_Z 60).
  rewrite !floor_div; try lia; try reflexivity.
  - rewrite Z.rem_mod_nonneg by lia.
    pose proof (Z.mod_pos_bound t 3600 ltac:(lia)). lia.
  - rewrite Z.rem_mod_nonneg by lia.
    pose proof (Z.mod_pos_bound t 86400 ltac:(lia)). lia.
Qed.

(** Below 2^53 whole seconds the days are exact as well. *)
Lemma formatDDHHMMSS_exact (x : number) :
  let t := wholeSeconds x in
  t < 2 ^ 53 ->
  formatDDHHMMSS x
  = (pad2 (t / 86400) ++ ":" ++ pad2 (Z.rem t 86400 / 3600) ++ ":"
     ++ pad2 (Z.rem t 3600 / 60) ++ ":" ++ pad2 (Z.rem t 60))%string.
Proof.
  intros t Hlt. pose proof (wholeSeconds_nonneg x) as Ht. fold t in Ht.
  rewrite formatDDHHMMSS_components. fold t.
  change 86400%Q with (inject_Z 86400).
  rewrite floor_div by lia. reflexivity.
Qed.

(** C9, as amended. For every number whose whole seconds are below 2^53
    the result is [DD:HH:MM:SS]: four components separated by colons, each
    of at least two decimal digits, the last three of exactly two and below
    24, 60 and 60; for a finite input that is not negative the components
    decompose its floor,
    [days * 86400 + hours * 3600 + minutes * 60 + seconds = floor(x)]; for
    [NaN], an infinite or a negative input the result is ["00:00:00:00"]; and
    100 days or more are written in full, with three or more digits. *)
Theorem formatDDHHMMSS_spec (x : number) :
  wholeSeconds x < 2 ^ 53 ->
  exists d h m s : Z,
    formatDDHHMMSS x
      = (pad2 d ++ ":" ++ pad2 h ++ ":" ++ pad2 m ++ ":" ++ pad2 s)%string
    /\ renders (pad2 d) d /\ renders (pad2 h) h
    /\ renders (pad2 m) m /\ renders (pad2 s) s
    /\ 0 <= d /\ 0 <= h < 24 /\ 0 <= m < 60 /\ 0 <= s < 60
    /\ String.length (pad2 h) = 2%nat
    /\ String.length (pad2 m) = 2%nat
    /\ String.length (pad2 s) = 2%nat
    /\ (if 100 <=? d
        then pad2 d = String_of_int d /\ (3 <= String.length (pad2 d))%nat
        else String.length (pad2 d) = 2%nat)
    /\ match x with
       | Finite q =>
           if Qle_bool 0 q
           then d * 86400 + h * 3600 + m * 60 + s = Qfloor q
           else formatDDHHMMSS x = "00:00:00:00"
       | _ => formatDDHHMMSS x = "00:00:00:00"
       end.
Proof.
  intros Hlt.
  pose proof (wholeSeconds_nonneg x) as Hs.
  pose proof (formatDDHHMMSS_exact x Hlt) as Hfmt.
  set (t := wholeSeconds x) in *.
  destruct (days_hours_minutes_seconds t Hs) as [Hd [Hh [Hm [Hsec Hsum]]]].
  assert (Hd53 : t / 86400 < 2 ^ 53).
  { apply Z.div_lt_upper_bound; lia. }
  exists (t / 86400), (Z.rem t 86400 / 3600), (Z.rem t 3600 / 60), (Z.rem t 60).
  split; [exact Hfmt|].
  split; [apply pad2_renders; lia|].
  split; [apply pad2_renders; lia|].
  split; [apply pad2_renders; lia|].
  split; [apply pad2_renders; lia|].
  split; [exact Hd|]. split; [exact Hh|]. split; [exact Hm|].
  split; [exact Hsec|].
  split; [apply pad2_two_digits; lia|].
  split; [apply pad2_two_digits; lia|].
  split; [apply pad2_two_digits; lia|].
  split.
  { destruct (Z.leb_spec 100 (t / 86400)).
    - apply pad2_large. lia.
    - apply pad2_two_digits. lia. }
  assert (Hzero : t = 0 -> formatDDHHMMSS x = "00:00:00:00").
  { intros H0. rewrite Hfmt, H0. reflexivity. }
  destruct x as [|neg|q].
  - apply Hzero. reflexivity.
  - apply Hzero. reflexivity.
  - destruct (Qle_bool 0 q) eqn:Hq.
    + rewrite Hsum. subst t. unfold wholeSeconds, JS.Math_floor.
      apply Qle_bool_iff in Hq. apply Qfloor_resp_le in Hq.
      change (Qfloor 0) with 0 in Hq. lia.
    + apply Hzero. subst t. unfold wholeSeconds, JS.Math_floor.
      assert (Hneg : (q < 0)%Q).
      { apply Qnot_le_lt. intros Hle. apply Qle_bool_iff in Hle. congruence. }
      pose proof (Qfloor_le q) as Hfl.
      assert (Hlt' : (inject_Z (Qfloor q) < 0)%Q) by (eapply Qle_lt_trans; eauto).
      change 0%Q with (inject_Z 0) in Hlt'. rewrite <- Zlt_Qlt in Hlt'. lia.
Qed.

Lemma formatDDHHMMSS_spec_witness :
  wholeSeconds (Finite (93784 # 1)) < 2 ^ 53
  /\ exists d h m s : Z,
       formatDDHHMMSS (Finite (93784 # 1))
       = (pad2 d ++ ":" ++ pad2 h ++ ":" ++ pad2 m ++ ":" ++ pad2 s)%string
       /\ d * 86400 + h * 3600 + m * 60 + s = 93784.
Proof.
  assert (H : wholeSeconds (Finite (93784 # 1)) < 2 ^ 53) by reflexivity.
  split; [exact H|].
  destruct (formatDDHHMMSS_spec (Finite (93784 # 1)) H)
    as [d [h [m [s [Hf [_ [_ [_ [_ [_ [_ [_ [_ [_ [_ [_ [_ Hsum]]]]]]]]]]]]]]]]].
  exists d, h, m, s. split; [exact Hf|exact Hsum].
Defined.

(** C9 as stated fails for large inputs: [757 * 2^53] seconds is a double,
    the quotient by 86400 is rounded up to the next integer when it is
    stored, and the text shows one day too many; its four components add up
    to [floor(x) + 86400]. *)
Lemma formatDDHHMMSS_large_counterexample :
  let x := Finite (inject_Z (757 * 2 ^ 53)) in
  formatDDHHMMSS x = "78917243470358:23:55:44"
  /\ wholeSeconds x = 757 * 2 ^ 53
  /\ 78917243470358 * 86400 + 23 * 3600 + 55 * 60 + 44 = wholeSeconds x + 86400
  /\ decodeDDHHMMSS (formatDDHHMMSS x) <> Some (wholeSeconds x).
Proof. vm_compute. repeat split; discriminate. Qed.

Example formatDDHHMMSS_samples :
  formatDDHHMMSS (Finite (93784 # 1)) = "01:02:03:04"
  /\ formatDDHHMMSS (Finite (8640000 # 1)) = "100:00:00:00"
  /\ formatDDHHMMSS (Finite (119 # 2)) = "00:00:00:59"
  /\ formatDDHHMMSS (Finite (-5 # 1)) = "00:00:00:00"
  /\ formatDDHHMMSS NaN = "00:00:00:00"
  /\ formatDDHHMMSS (Infinity false) = "00:00:00:00"
  /\ formatDDHHMMSS (Finite (inject_Z (2 ^ 87))) = "1.791001214243895e+21:18:42:08".
Proof. vm_compute. repeat split; reflexivity. Qed.

(** ** Avatar initials *)

Module InitialsFacts.

Import Initials.
Local Open Scope list_scope.

Lemma is_empty_snoc (cur : jsstring) (c : N) : is_empty (cur ++ [c]) = false.
Proof. destruct cur; reflexivity. Qed.

(** Dropping the empty pieces of the split leaves the words. *)
Lemma filter_split_go (s cur : jsstring) (in_run : bool) :
  (in_run = true -> cur = []) ->
  filter_Boolean (split_go s cur in_run) = words_go s cur.
Proof.
  revert cur in_run. induction s as [|c s IH]; intros cur in_run Hrun; simpl.
  - destruct cur; reflexivity.
  - destruct (is_space c).
    + destruct in_run.
      * rewrite (Hrun eq_refl). simpl. now apply IH.
      * simpl. rewrite (IH [] true) by reflexivity.
        destruct cur; reflexivity.
    + apply IH. discriminate.
Qed.

Lemma words_go_all_space (s : jsstring) :
  all_space s = true -> words_go s [] = [].
Proof.
  induction s as [|c s IH]; simpl; [reflexivity|].
  destruct (is_space c); simpl; [exact IH|discriminate].
Qed.

Lemma words_go_nil (s cur : jsstring) :
  words_go s cur = [] -> is_empty cur = true /\ all_space s = true.
Proof.
  revert cur. induction s as [|c s IH]; intros cur; simpl.
  - destruct cur; [now split|discriminate].
  - destruct (is_space c); simpl.
    + destruct cur; simpl; [|discriminate].
      intros H. split; [reflexivity|]. now apply (IH []).
    + intros H. apply IH in H. rewrite is_empty_snoc in H.
      destruct H; discriminate.
Qed.

Lemma trimEnd_empty (s : jsstring) : is_empty (trimEnd s) = all_space s.
Proof.
  induction s as [|c s IH]; [reflexivity|].
  simpl trimEnd. change (all_space (c :: s)) with (is_space c && all_space s).
  rewrite <- IH. destruct (is_space c), (trimEnd s); reflexivity.
Qed.

Lemma words_trimStart (s : jsstring) :
  words_go (trimStart s) [] = words_go s [].
Proof.
  induction s as [|c s IH]; [reflexivity|].
  simpl trimStart. destruct (is_space c) eqn:Hc; [|reflexivity].
  simpl. now rewrite Hc.
Qed.

Lemma words_trimEnd (s cur : jsstring) :
  words_go (trimEnd s) cur = words_go s cur.
Proof.
  revert cur. induction s as [|c s IH]; intros cur; [reflexivity|].
  simpl trimEnd. rewrite trimEnd_empty.
  destruct (is_space c) eqn:Hc; simpl.
  - destruct (all_space s) eqn:Hs; simpl; rewrite Hc.
    + rewrite (words_go_all_space s Hs). reflexivity.
    + now rewrite IH.
  - rewrite Hc. apply IH.
Qed.

(** The parts the function works on are the words of the input. *)
Lemma parts_words (name : option jsstring) :
  parts name = words (String_or_empty name).
Proof.
  unfold parts, split_ws, trim, words.
  rewrite filter_split_go by discriminate.
  now rewrite words_trimEnd, words_trimStart.
Qed.

Lemma words_go_nonempty (s cur : jsstring) :
  List.Forall (fun w => is_empty w = false) (words_go s cur).
Proof.
  revert cur. induction s as [|c s IH]; intros cur; simpl.
  - destruct cur; repeat constructor.
  - destruct (is_space c); [|apply IH].
    destruct cur; simpl; [apply IH|].
    constructor; [reflexivity|apply IH].
Qed.

(** The words of an ASCII string are ASCII strings. *)
Lemma words_go_ascii (s cur : jsstring) :
  ascii_only s = true -> ascii_only cur = true ->
  List.Forall (fun w => ascii_only w = true) (words_go s cur).
Proof.
  revert cur. induction s as [|c s IH]; intros cur Hs Hcur; simpl.
  - destruct (is_empty cur); repeat constructor. exact Hcur.
  - simpl in Hs. apply andb_true_iff in Hs. destruct Hs as [Hc Hs].
    destruct (is_space c).
    + destruct (is_empty cur); [now apply IH|].
      constructor; [exact Hcur|now apply IH].
    + apply IH; [exact Hs|].
      unfold ascii_only. rewrite forallb_app. simpl.
      unfold ascii_only in Hcur. now rewrite Hcur, Hc.
Qed.

(** The words hold no white space. *)
Lemma words_go_no_space (s cur : jsstring) :
  no_space cur = true ->
  List.Forall (fun w => no_space w = true) (words_go s cur).
Proof.
  revert cur. induction s as [|c s IH]; intros cur Hcur; simpl.
  - destruct (is_empty cur); repeat constructor. exact Hcur.
  - destruct (is_space c) eqn:Hc.
    + destruct (is_empty cur); [now apply IH|].
      constructor; [exact Hcur|now apply IH].
    + apply IH. unfold no_space. rewrite forallb_app. simpl.
      unfold no_space in Hcur. now rewrite Hcur, Hc.
Qed.

Lemma upper_unit_no_lower (c : N) : is_lower (upper_unit c) = false.
Proof.
  unfold upper_unit. destruct (is_lower c) eqn:Hc; [|exact Hc].
  unfold is_lower in *. apply andb_true_iff in Hc. destruct Hc as [H1 H2].
  apply N.leb_le in H1, H2. apply andb_false_iff. left. apply N.leb_gt. lia.
Qed.

Lemma map_upper_no_lower (s : jsstring) : no_lower (map upper_unit s) = true.
Proof.
  induction s as [|c s IH]; simpl; [reflexivity|].
  now rewrite upper_unit_no_lower, IH.
Qed.

Lemma slice_0_2_length (w : jsstring) :
  is_empty w = false -> (1 <= List.length (slice_0_2 w) <= 2)%nat.
Proof.
  destruct w as [|a [|b w]]; simpl; [discriminate| |]; intros _; lia.
Qed.

Lemma slice_0_2_ascii (w : jsstring) :
  ascii_only w = true -> ascii_only (slice_0_2 w) = true.
Proof.
  destruct w as [|a [|b w]]; simpl; try reflexivity; intros H.
  - exact H.
  - apply andb_true_iff in H. destruct H as [Ha H].
    apply andb_true_iff in H. destruct H as [Hb _]. now rewrite Ha, Hb.
Qed.

Lemma ascii_only_index0 (w : jsstring) (a : N) :
  ascii_only w = true -> index0 w = Some a -> is_ascii a = true.
Proof.
  destruct w as [|c w]; [discriminate|]. simpl.
  intros H [= <-]. now apply andb_true_iff in H.
Qed.

Section Host.

Variable toUpperCase : jsstring -> jsstring.

(** On the ASCII range [toUpperCase] maps the letters [a] to [z] to [A] to
    [Z], one code unit each, and leaves the other characters as they are. *)
Hypothesis toUpperCase_ascii :
  forall s, ascii_only s = true -> toUpperCase s = map upper_unit s.

Lemma toUpperCase_ascii_shape (s : jsstring) :
  ascii_only s = true ->
  List.length (toUpperCase s) = List.length s /\ no_lower (toUpperCase s) = true.
Proof.
  intros Hs. rewrite (toUpperCase_ascii s Hs).
  split; [apply length_map|apply map_upper_no_lower].
Qed.

(** C10, as amended. For every input, [null], [undefined], the empty string
    and strings of white space included, the function returns a string (no
    [undefined] reaches the concatenation): ['U'] when the input has no
    character that is not white space, the upper-cased first two code units
    of the sole word when there is one word, and the upper-cased initials
    of the first two words otherwise.  For a name of ASCII characters the
    result has one or two characters, none of them a lower-case letter. *)
Theorem nameInitials_spec (name : option jsstring) :
  exists r : jsstring,
    nameInitials toUpperCase name = Some r
    /\ parts name = words (String_or_empty name)
    /\ match words (String_or_empty name) with
       | [] => all_space (String_or_empty name) = true /\ r = units "U"
       | [w] =>
           all_space (String_or_empty name) = false
           /\ r = toUpperCase (slice_0_2 w)
       | w0 :: w1 :: _ =>
           all_space (String_or_empty name) = false
           /\ exists a b t0 t1,
                w0 = a :: t0 /\ w1 = b :: t1 /\ r = toUpperCase [a; b]
       end
    /\ (ascii_only (String_or_empty name) = true ->
        (1 <= List.length r <= 2)%nat /\ no_lower r = true).
Proof.
  unfold nameInitials. rewrite parts_words.
  pose proof (words_go_nonempty (String_or_empty name) []) as Hne.
  pose proof (fun H => words_go_ascii (String_or_empty name) [] H eq_refl) as Hasc.
  fold (words (String_or_empty name)) in Hne, Hasc.
  assert (Hsp : words (String_or_empty name) <> [] ->
                all_space (String_or_empty name) = false).
  { intros Hw. destruct (all_space (String_or_empty name)) eqn:Hs; [|reflexivity].
    exfalso. apply Hw. now apply words_go_all_space. }
  destruct (words (String_or_empty name)) as [|w0 [|w1 ws]] eqn:Hw.
  - exists (units "U"). repeat split; try reflexivity; try (simpl; lia).
    now apply (words_go_nil _ []).
  - inversion Hne as [|? ? Hw0 _]; subst.
    exists (toUpperCase (slice_0_2 w0)).
    split; [reflexivity|]. split; [reflexivity|].
    split; [split; [now apply Hsp|reflexivity]|].
    intros Ha. specialize (Hasc Ha). inversion Hasc as [|? ? Ha0 _]; subst.
    destruct (toUpperCase_ascii_shape (slice_0_2 w0) (slice_0_2_ascii w0 Ha0))
      as [Hlen Hlow].
    rewrite Hlen. split; [now apply slice_0_2_length|exact Hlow].
  - inversion Hne as [|? ? Hw0 Hne']; subst.
    inversion Hne' as [|? ? Hw1 _]; subst.
    destruct w0 as [|a t0]; [discriminate|].
    destruct w1 as [|b t1]; [discriminate|].
    exists (toUpperCase [a; b]). simpl index0.
    split; [reflexivity|]. split; [reflexivity|].
    split.
    { split; [now apply Hsp|]. now exists a, b, t0, t1. }
    intros Ha. specialize (Hasc Ha).
    inversion Hasc as [|? ? Ha0 Hasc']; subst.
    inversion Hasc' as [|? ? Ha1 _]; subst.
    assert (Hab : ascii_only [a; b] = true).
    { simpl in Ha0, Ha1. apply andb_true_iff in Ha0, Ha1.
      destruct Ha0 as [Hx _], Ha1 as [Hy _]. simpl. now rewrite Hx, Hy. }
    destruct (toUpperCase_ascii_shape [a; b] Hab) as [Hlen Hlow].
    rewrite Hlen. simpl. split; [lia|exact Hlow].
Qed.

End Host.

Lemma sample_upper_ascii (c : N) :
  is_ascii c = true -> sample_upper c = [upper_unit c].
Proof.
  unfold is_ascii, sample_upper, upper_unit, is_lower. intros Hc.
  apply N.ltb_lt in Hc.
  destruct ((97 <=? c)%N && (c <=? 122)%N); [reflexivity|].
  destruct (N.eqb_spec c 223); [lia|].
  destruct (N.eqb_spec c 181); [lia|].
  destruct (N.eqb_spec c 255); [lia|].
  destruct (N.leb_spec 224 c); [lia|]. reflexivity.
Qed.

Lemma sample_toUpperCase_ascii (s : jsstring) :
  ascii_only s = true -> sample_toUpperCase s = map upper_unit s.
Proof.
  unfold sample_toUpperCase. induction s as [|c s IH]; [reflexivity|].
  simpl. intros H. apply andb_true_iff in H. destruct H as [Hc Hs].
  now rewrite (sample_upper_ascii c Hc), (IH Hs).
Qed.

Lemma nameInitials_spec_witness :
  exists r : jsstring,
    nameInitials sample_toUpperCase (Some (units "grace hopper")) = Some r
    /\ (1 <= List.length r <= 2)%nat /\ no_lower r = true.
Proof.
  destruct (nameInitials_spec sample_toUpperCase sample_toUpperCase_ascii
              (Some (units "grace hopper"))) as [r [Hr [_ [_ Hlen]]]].
  exists r. split; [exact Hr|]. exact (Hlen eq_refl).
Defined.

(** C10 as stated fails twice.  The "exactly when": the one-word name ["u"]
    has a character that is not white space and the result is ['U'].  The
    "one or two characters": upper-casing can lengthen a string, and the
    name of the two code units ["ßa"] yields the three of ["SSA"]. *)
Lemma nameInitials_U_counterexample :
  nameInitials sample_toUpperCase (Some (units "u")) = Some (units "U")
  /\ all_space (String_or_empty (Some (units "u"))) = false
  /\ ~ (forall name, nameInitials sample_toUpperCase name = Some (units "U")
                     <-> all_space (String_or_empty name) = true)
  /\ nameInitials sample_toUpperCase (Some [223; 97]%N) = Some (units "SSA").
Proof.
  split; [reflexivity|]. split; [reflexivity|]. split; [|reflexivity].
  intros H. specialize (H (Some (units "u"))). destruct H as [H _].
  specialize (H eq_refl). discriminate.
Qed.

Example nameInitials_samples :
  nameInitials sample_toUpperCase None = Some (units "U")
  /\ nameInitials sample_toUpperCase (Some []) = Some (units "U")
  /\ nameInitials sample_toUpperCase (Some (units "   ")) = Some (units "U")
  /\ nameInitials sample_toUpperCase (Some (units "  ada   lovelace king "))
     = Some (units "AL")
  /\ nameInitials sample_toUpperCase (Some (units "grace")) = Some (units "GR")
  /\ nameInitials sample_toUpperCase (Some (units "x")) = Some (units "X")
  /\ nameInitials sample_toUpperCase (Some ([160] ++ units "x" ++ [8239] ++ units "yz"))%N
     = Some (units "XY")
  /\ Initials.split_ws (units " a  b ") = [[]; units "a"; units "b"; []].
Proof. vm_compute. repeat split; reflexivity. Qed.

End InitialsFacts.

(** ** The weekly reset *)

Module EngineFacts.

Import Engine.
Local Open Scope list_scope.

Lemma has_week_In (ws : Z) (h : list Snapshot) :
  has_week ws h = true <-> In ws (map week_start h).
Proof.
  unfold has_week. rewrite existsb_exists, in_map_iff. split.
  - intros [s [Hin Heq]]. exists s. split; [lia|exact Hin].
  - intros [s [Heq Hin]]. exists s. split; [exact Hin|lia].
Qed.

Lemma entries_for_app (ws : Z) (h1 h2 : list Snapshot) :
  entries_for ws (h1 ++ h2) = (entries_for ws h1 + entries_for ws h2)%nat.
Proof. unfold entries_for. now rewrite List.filter_app, List.length_app. Qed.

(** With one entry at most per week, the count for a week is 1 or 0. *)
Lemma entries_for_unique (ws : Z) (h : list Snapshot) :
  NoDup (map week_start h) ->
  entries_for ws h = if has_week ws h then 1%nat else 0%nat.
Proof.
  unfold entries_for. induction h as [|s h IH]; simpl; [reflexivity|].
  intros Hnd. apply NoDup_cons in Hnd. destruct Hnd as [Hnotin Hnd].
  rewrite list_elem_of_In in Hnotin. specialize (IH Hnd).
  destruct (Z.eqb_spec (week_start s) ws) as [Heq|Hne]; simpl.
  - rewrite IH. destruct (has_week ws h) eqn:Hhas; [|reflexivity].
    exfalso. apply Hnotin. rewrite Heq. now apply has_week_In.
  - exact IH.
Qed.

Lemma NoDup_snoc (l : list Z) (x : Z) :
  NoDup l -> ~ In x l -> NoDup (l ++ [x]).
Proof.
  intros Hnd Hx. apply NoDup_app. split; [exact Hnd|]. split.
  - intros y Hy Hyx. apply list_elem_of_In in Hy.
    apply list_elem_of_In in Hyx. destruct Hyx as [<-|[]]. now apply Hx.
  - apply NoDup_singleton.
Qed.

(** A reset keeps every archived snapshot as it is and appends one snapshot
    at most. *)
Lemma reset_history (tz now : Z) (st : Store) :
  history (snd (reset tz now st)) = history st
  \/ (has_week (week_start (current st)) (history st) = false
      /\ history (snd (reset tz now st))
         = history st ++ [close_snapshot now (current st)]).
Proof.
  unfold reset.
  destruct (week_start (current st) =? w_start (windowFor_week tz now));
    [now left|].
  simpl. destruct (has_week _ _); [now left|right].
  split; reflexivity.
Qed.

Lemma reset_unique (tz now : Z) (st : Store) :
  history_unique st -> history_unique (snd (reset tz now st)).
Proof.
  unfold history_unique. intros Hnd.
  destruct (reset_history tz now st) as [->|[Hhas ->]]; [exact Hnd|].
  rewrite List.map_app. simpl. apply NoDup_snoc; [exact Hnd|].
  intros Hin. apply has_week_In in Hin. congruence.
Qed.

Lemma resets_unique (tz : Z) (nows : list Z) (st : Store) :
  history_unique st -> history_unique (resets tz nows st).
Proof.
  unfold resets. revert st.
  induction nows as [|now nows IH]; intros st Hst; simpl; [exact Hst|].
  apply IH. now apply reset_unique.
Qed.

Lemma resets_extends (tz : Z) (nows : list Z) (st : Store) :
  exists added, history (resets tz nows st) = history st ++ added.
Proof.
  unfold resets. revert st.
  induction nows as [|now nows IH]; intros st; simpl.
  - exists []. now rewrite List.app_nil_r.
  - destruct (IH (snd (reset tz now st))) as [added Hadd].
    destruct (reset_history tz now st) as [Heq|[_ Heq]]; rewrite Heq in Hadd.
    + now exists added.
    + exists (close_snapshot now (current st) :: added).
      now rewrite Hadd, <- List.app_assoc.
Qed.

(** C1. Two calls of [reset] in succession for one week transition: the
    first rolls over, the second does not and changes nothing; the history
    then holds exactly one entry for the closed [week_start], appended by the
    first call when there was none; the snapshots archived before are still
    there, unchanged and in place; and however often [reset] is called
    afterwards, at any instants, the history keeps one entry at most per
    [week_start], exactly one for the closed week, and every archived
    snapshot as it was inserted. *)
Theorem reset_idempotent (tz now1 now2 : Z) (st : Store) :
  history_unique st ->
  week_start (current st) <> weekStart tz now1 ->
  weekStart tz now2 = weekStart tz now1 ->
  let closed_week := week_start (current st) in
  let first := reset tz now1 st in
  let second := reset tz now2 (snd first) in
  rolled_over (fst first) = true
  /\ rolled_over (fst second) = false
  /\ snd second = snd first
  /\ entries_for closed_week (history (snd second)) = 1%nat
  /\ (has_week closed_week (history st) = false ->
      history (snd second) = history st ++ [close_snapshot now1 (current st)])
  /\ (exists added, history (snd second) = history st ++ added
                    /\ (List.length added <= 1)%nat)
  /\ (forall nows : list Z,
        let later := resets tz nows (snd second) in
        history_unique later
        /\ entries_for closed_week (history later) = 1%nat
        /\ exists added, history later = history (snd second) ++ added).
Proof.
  intros Huniq Hdue Hsame closed_week first second.
  assert (Hfirst : first
    = ({| rolled_over := true; new_week_start := weekStart tz now1 |},
       {| current := open_snapshot (windowFor_week tz now1);
          history := if has_week closed_week (history st) then history st
                     else history st ++ [close_snapshot now1 (current st)] |})).
  { subst first. unfold reset. simpl w_start.
    destruct (Z.eqb_spec (week_start (current st)) (weekStart tz now1));
      [contradiction|reflexivity]. }
  assert (Hsecond : second
    = ({| rolled_over := false; new_week_start := weekStart tz now2 |}, snd first)).
  { subst second. rewrite Hfirst. unfold reset. simpl.
    rewrite Hsame, Z.eqb_refl. reflexivity. }
  assert (Hone : entries_for closed_week (history (snd first)) = 1%nat).
  { rewrite entries_for_unique
      by (apply (reset_unique tz now1 st Huniq)).
    rewrite Hfirst. simpl.
    destruct (has_week closed_week (history st)) eqn:Hhas; [now rewrite Hhas|].
    replace (has_week closed_week (history st ++ [close_snapshot now1 (current st)]))
      with true; [reflexivity|].
    symmetry. apply has_week_In. rewrite List.map_app. apply in_or_app.
    right. now left. }
  rewrite Hsecond. simpl fst. simpl snd.
  split; [now rewrite Hfirst|].
  split; [reflexivity|]. split; [reflexivity|].
  split; [exact Hone|].
  split.
  { intros Hnone. rewrite Hfirst. simpl. fold closed_week. now rewrite Hnone. }
  split.
  { rewrite Hfirst. simpl. destruct (has_week closed_week (history st)).
    - exists []. rewrite List.app_nil_r. split; [reflexivity|simpl; lia].
    - eexists. split; [reflexivity|simpl; lia]. }
  intros nows later.
  assert (Hu1 : history_unique (snd first)) by now apply reset_unique.
  assert (Hu : history_unique later) by now apply resets_unique.
  destruct (resets_extends tz nows (snd first)) as [added Hadd].
  fold later in Hadd.
  split; [exact Hu|]. split; [|now exists added].
  rewrite (entries_for_unique _ _ Hu).
  replace (has_week closed_week (history later)) with true; [reflexivity|].
  symmetry. apply has_week_In. rewrite Hadd, List.map_app. apply in_or_app. left.
  apply has_week_In.
  rewrite (entries_for_unique _ _ Hu1) in Hone.
  destruct (has_week closed_week (history (snd first))); [reflexivity|discriminate].
Qed.

Lemma reset_idempotent_witness :
  history_unique sample_store
  /\ week_start (current sample_store) <> weekStart 0 1704672005000
  /\ weekStart 0 1704672006000 = weekStart 0 1704672005000
  /\ rolled_over (fst (reset 0 1704672005000 sample_store)) = true.
Proof.
  assert (H1 : history_unique sample_store) by constructor.
  assert (H2 : week_start (current sample_store) <> weekStart 0 1704672005000)
    by (vm_compute; discriminate).
  assert (H3 : weekStart 0 1704672006000 = weekStart 0 1704672005000)
    by reflexivity.
  split; [exact H1|]. split; [exact H2|]. split; [exact H3|].
  exact (proj1 (reset_idempotent 0 1704672005000 1704672006000 sample_store
                  H1 H2 H3)).
Defined.

Example reset_twice_sample :
  let first := reset 0 1704672005000 sample_store in
  let second := reset 0 1704672006000 (snd first) in
  fst first = {| rolled_over := true; new_week_start := 1704672000000 |}
  /\ fst second = {| rolled_over := false; new_week_start := 1704672000000 |}
  /\ history (snd second)
     = [ {| week_start := 1704067200000; week_end := 1704672000000;
            entries := []; reset_at := Some 1704672005000 |} ]
  /\ windowFor_week 0 1704888000000
     = {| w_start := 1704672000000; w_end := 1705276800000 |}.
Proof. vm_compute. repeat split; reflexivity. Qed.

End EngineFacts.

(** ** The weekly ranking *)

Module RankingFacts.

Import Engine.
Local Open Scope list_scope.

(** [String.leb] is transitive. *)
Lemma String_leb_trans (a b c : string) :
  String.leb a b = true -> String.leb b c = true -> String.leb a c = true.
Proof.
  unfold String.leb.
  enough (H : String.compare a b <> Gt -> String.compare b c <> Gt ->
              String.compare a c <> Gt).
  { intros H1 H2.
    destruct (String.compare a b), (String.compare b c);
      try discriminate; destruct (String.compare a c);
      try reflexivity; exfalso; apply H; congruence. }
  revert b c. induction a as [|x a IH]; intros [|y b] [|z c]; simpl;
    try congruence.
  unfold Ascii.compare.
  set (nx := N_of_ascii x). set (ny := N_of_ascii y). set (nz := N_of_ascii z).
  destruct (N.compare_spec nx ny) as [Exy|Exy|Exy]; try congruence;
    destruct (N.compare_spec ny nz) as [Eyz|Eyz|Eyz]; try congruence; intros H1 H2.
  - replace nz with nx by congruence. rewrite N.compare_refl. now apply (IH b c).
  - replace (nx ?= nz)%N with Lt; [discriminate|].
    symmetry. apply N.compare_lt_iff. lia.
  - replace (nx ?= nz)%N with Lt; [discriminate|].
    symmetry. apply N.compare_lt_iff. lia.
  - replace (nx ?= nz)%N with Lt; [discriminate|].
    symmetry. apply N.compare_lt_iff. lia.
Qed.

Lemma before_iff (a b : string * nat) :
  before a b = true
  <-> (snd b < snd a)%nat \/ (snd a = snd b /\ String.leb (fst a) (fst b) = true).
Proof.
  unfold before. rewrite orb_true_iff, andb_true_iff, Nat.ltb_lt, Nat.eqb_eq.
  reflexivity.
Qed.

Lemma before_total (a b : string * nat) :
  before a b = true \/ before b a = true.
Proof.
  rewrite !before_iff.
  destruct (Nat.lt_trichotomy (snd a) (snd b)) as [Hlt|[Heq|Hgt]].
  - right. now left.
  - destruct (String.leb_total (fst a) (fst b)) as [L|L].
    + left. right. now split.
    + right. right. now split.
  - left. now left.
Qed.

Lemma before_trans (a b c : string * nat) :
  before a b = true -> before b c = true -> before a c = true.
Proof.
  rewrite !before_iff. intros [H1|[H1 L1]] [H2|[H2 L2]].
  - left. lia.
  - left. lia.
  - left. lia.
  - right. split; [lia|]. exact (String_leb_trans _ _ _ L1 L2).
Qed.

Lemma before_antisym (a b : string * nat) :
  before a b = true -> before b a = true -> a = b.
Proof.
  rewrite !before_iff. intros [H1|[H1 L1]] [H2|[H2 L2]].
  - exfalso. lia.
  - exfalso. lia.
  - exfalso. lia.
  - destruct a as [ua sa], b as [ub sb]; simpl in *.
    f_equal; [|exact H1]. now apply String.leb_antisym.
Qed.

Abbreviation sorted := (StronglySorted (fun a b => before a b = true)).

Lemma insert_sorted_perm (x : string * nat) (l : list (string * nat)) :
  Permutation (x :: l) (insert_sorted x l).
Proof.
  induction l as [|y l IH]; simpl; [reflexivity|].
  destruct (before x y); [reflexivity|].
  etransitivity; [apply perm_swap|]. now apply perm_skip.
Qed.

Lemma insert_sorted_sorted (x : string * nat) (l : list (string * nat)) :
  sorted l -> sorted (insert_sorted x l).
Proof.
  induction l as [|y l IH]; intros Hs; simpl.
  - constructor; constructor.
  - inversion Hs as [|? ? Hl Hy]; subst.
    destruct (before x y) eqn:Hxy.
    + constructor; [exact Hs|]. constructor; [exact Hxy|].
      eapply List.Forall_impl; [|exact Hy].
      intros z Hz. now apply (before_trans x y z).
    + constructor; [now apply IH|].
      apply (Permutation_Forall (insert_sorted_perm x l)).
      constructor; [|exact Hy].
      destruct (before_total x y); congruence.
Qed.

Lemma sort_scores_perm (l : list (string * nat)) :
  Permutation l (sort_scores l).
Proof.
  induction l as [|x l IH]; simpl; [reflexivity|].
  etransitivity; [apply perm_skip, IH|]. apply insert_sorted_perm.
Qed.

Lemma sort_scores_sorted (l : list (string * nat)) : sorted (sort_scores l).
Proof.
  induction l as [|x l IH]; simpl; [constructor|].
  now apply insert_sorted_sorted.
Qed.

(** Two sorted lists with the same elements are the same list. *)
Lemma sorted_unique (l1 l2 : list (string * nat)) :
  sorted l1 -> sorted l2 -> Permutation l1 l2 -> l1 = l2.
Proof.
  revert l2. induction l1 as [|a l1 IH]; intros l2 H1 H2 Hp.
  - now apply Permutation_nil in Hp.
  - destruct l2 as [|b l2]; [now apply Permutation_sym, Permutation_nil in Hp|].
    inversion H1 as [|? ? H1' Ha]; inversion H2 as [|? ? H2' Hb]; subst.
    assert (Hab : a = b).
    { assert (Hina : In a (b :: l2))
        by (apply (Permutation_in _ Hp); now left).
      assert (Hinb : In b (a :: l1))
        by (apply (Permutation_in _ (Permutation_sym Hp)); now left).
      destruct Hina as [->|Hina]; [reflexivity|].
      destruct Hinb as [->|Hinb]; [reflexivity|].
      rewrite List.Forall_forall in Ha, Hb.
      apply before_antisym; [now apply Ha|now apply Hb]. }
    subst b. f_equal. apply IH; [assumption..|].
    now apply Permutation_cons_inv in Hp.
Qed.

Lemma sort_scores_perm_eq (l1 l2 : list (string * nat)) :
  Permutation l1 l2 -> sort_scores l1 = sort_scores l2.
Proof.
  intros Hp. apply sorted_unique; try apply sort_scores_sorted.
  etransitivity; [apply Permutation_sym, sort_scores_perm|].
  etransitivity; [exact Hp|apply sort_scores_perm].
Qed.

Lemma assign_ranks_ranks (names : string -> string) (first : nat)
    (l : list (string * nat)) :
  map rank (assign_ranks names first l) = seq first (List.length l).
Proof.
  revert first. induction l as [|[u s] l IH]; intros first; simpl;
    [reflexivity|now rewrite IH].
Qed.

Lemma assign_ranks_pairs (names : string -> string) (first : nat)
    (l : list (string * nat)) :
  map (fun e => (e_user_id e, score e)) (assign_ranks names first l) = l.
Proof.
  revert first. induction l as [|[u s] l IH]; intros first; simpl;
    [reflexivity|now rewrite IH].
Qed.

Lemma assign_ranks_In (names : string -> string) (first : nat)
    (l : list (string * nat)) (e : Entry) :
  In e (assign_ranks names first l) -> In (e_user_id e, score e) l.
Proof.
  intros He. rewrite <- (assign_ranks_pairs names first l) at 1.
  now apply (in_map (fun e => (e_user_id e, score e))).
Qed.

Lemma before_precedes (u u' : string) (s s' : nat) :
  before (u, s) (u', s') = true -> u <> u' ->
  (s' < s)%nat \/ (s = s' /\ String.ltb u u' = true).
Proof.
  rewrite before_iff. simpl. intros [H|[H L]] Hne; [now left|right].
  split; [exact H|]. unfold String.leb in L. unfold String.ltb.
  destruct (String.compare u u') eqn:E; try reflexivity; try discriminate.
  apply String.compare_eq_iff in E. contradiction.
Qed.

(** A sorted list of scores of distinct users, once ranked, is strictly
    ordered: greater score first, smaller [user_id] first among equals. *)
Lemma assign_ranks_precedes (names : string -> string) (first : nat)
    (l : list (string * nat)) :
  sorted l -> NoDup (map fst l) ->
  StronglySorted precedes (assign_ranks names first l).
Proof.
  revert first. induction l as [|[u s] l IH]; intros first Hs Hnd; simpl;
    [constructor|].
  inversion Hs as [|? ? Hl Hu]; subst.
  simpl in Hnd. apply NoDup_cons in Hnd. destruct Hnd as [Hnotin Hnd].
  constructor; [now apply IH|].
  apply List.Forall_forall. intros e He. apply assign_ranks_In in He.
  rewrite List.Forall_forall in Hu. unfold precedes. simpl.
  apply before_precedes; [now apply Hu|].
  intros ->. apply Hnotin. apply list_elem_of_In.
  now apply (in_map fst) in He.
Qed.

Lemma Permutation_filter {A} (f : A -> bool) (l l' : list A) :
  Permutation l l' -> Permutation (List.filter f l) (List.filter f l').
Proof.
  induction 1 as [|x l l' _ IH|x y l|l l' l'' _ IH1 _ IH2]; simpl.
  - constructor.
  - destruct (f x); [now constructor|exact IH].
  - destruct (f x), (f y); try reflexivity. apply perm_swap.
  - now transitivity (List.filter f l').
Qed.

Lemma firstn_seq (n start len : nat) :
  firstn n (seq start len) = seq start (Nat.min n len).
Proof.
  revert start len. induction n as [|n IH]; intros start [|len]; simpl;
    try reflexivity.
  now rewrite IH.
Qed.

Lemma score_of_perm (tz : Z) (w : Window) (logs logs' : list Log) (u : string) :
  Permutation logs logs' -> score_of tz w logs u = score_of tz w logs' u.
Proof.
  intros Hp. unfold score_of. now apply Permutation_length, Permutation_filter.
Qed.

Lemma scored_users_perm (tz : Z) (w : Window) (logs logs' : list Log) :
  Permutation logs logs' ->
  Permutation (scored_users tz w logs) (scored_users tz w logs').
Proof.
  intros Hp. unfold scored_users.
  apply NoDup_Permutation; try apply NoDup_remove_dups.
  intros u. rewrite !elem_of_remove_dups, !list_elem_of_In.
  split; apply Permutation_in; apply Permutation_map, Permutation_filter;
    [exact Hp|now apply Permutation_sym].
Qed.

(** The ranking does not depend on the order in which the logs are read. *)
Lemma ranked_perm (names : string -> string) (tz : Z) (w : Window)
    (logs logs' : list Log) :
  Permutation logs logs' -> ranked names tz w logs' = ranked names tz w logs.
Proof.
  intros Hp. unfold ranked. f_equal. apply sort_scores_perm_eq.
  rewrite (map_ext (fun u => (u, score_of tz w logs' u))
                   (fun u => (u, score_of tz w logs u)))
    by (intros u; f_equal; symmetry; now apply score_of_perm).
  apply Permutation_map, Permutation_sym. now apply scored_users_perm.
Qed.

(** C2. In every snapshot with [N] scored users the ranks of the full set
    are [1, 2, ..., N] down the list, hence a permutation of [1..N] without
    gap or duplicate; the entries are the scored users, each once, with the
    score recomputed from the logs, sorted by descending score with ties
    broken by ascending [user_id]; the ranks are given before slicing, so a
    slice at [offset] carries the ranks from [offset + 1] on; and the output
    is determined by the logs, whatever their order. *)
Theorem computeWeekly_ranks (names : string -> string) (tz now : Z)
    (logs : list Log) :
  let w := windowFor_week tz now in
  let full := ranked names tz w logs in
  let N := List.length (scored_users tz w logs) in
  map rank full = seq 1 N
  /\ Permutation (map rank full) (seq 1 N)
  /\ Permutation (map e_user_id full) (scored_users tz w logs)
  /\ NoDup (map e_user_id full)
  /\ Forall (fun e => score e = score_of tz w logs (e_user_id e)
                      /\ name e = names (e_user_id e)) full
  /\ StronglySorted precedes full
  /\ (forall limit offset : nat,
        let page := computeWeekly names tz now logs limit offset in
        page = take limit (drop offset full)
        /\ map rank page = seq (1 + offset) (List.length page)
        /\ List.length page = Nat.min limit (N - offset))
  /\ (forall logs' limit offset, Permutation logs logs' ->
        ranked names tz w logs' = full
        /\ computeWeekly names tz now logs' limit offset
           = computeWeekly names tz now logs limit offset).
Proof.
  intros w full N.
  set (pairs := map (fun u => (u, score_of tz w logs u)) (scored_users tz w logs)).
  assert (Hfull : full = assign_ranks names 1 (sort_scores pairs)) by reflexivity.
  assert (Hperm : Permutation pairs (sort_scores pairs)) by apply sort_scores_perm.
  assert (Hfst : map fst pairs = scored_users tz w logs).
  { subst pairs. rewrite List.map_map. simpl. apply List.map_id. }
  assert (Hlen : List.length (sort_scores pairs) = N).
  { rewrite <- (Permutation_length Hperm). subst pairs N. apply List.length_map. }
  assert (Hranks : map rank full = seq 1 N).
  { rewrite Hfull, assign_ranks_ranks. now rewrite Hlen. }
  assert (Husers : map e_user_id full = map fst (sort_scores pairs)).
  { rewrite Hfull. rewrite <- (assign_ranks_pairs names 1 (sort_scores pairs)) at 2.
    now rewrite List.map_map. }
  assert (Hpu : Permutation (map e_user_id full) (scored_users tz w logs)).
  { rewrite Husers, <- Hfst. apply Permutation_map. now apply Permutation_sym. }
  assert (Hnd : NoDup (map e_user_id full)).
  { rewrite Hpu. apply NoDup_remove_dups. }
  split; [exact Hranks|]. split; [now rewrite Hranks|].
  split; [exact Hpu|]. split; [exact Hnd|].
  split.
  { apply List.Forall_forall. intros e He. rewrite Hfull in He. split.
    - apply assign_ranks_In in He.
      apply (Permutation_in _ (Permutation_sym Hperm)) in He.
      subst pairs. apply in_map_iff in He. destruct He as [u [Hu _]].
      injection Hu as Hu1 Hu2. now rewrite <- Hu2, <- Hu1.
    - clear -He. revert He. generalize 1%nat.
      induction (sort_scores pairs) as [|[u s] l IH]; intros k He;
        simpl in He; [contradiction|].
      destruct He as [<-|He]; [reflexivity|now apply (IH (S k))]. }
  split.
  { rewrite Hfull. apply assign_ranks_precedes; [apply sort_scores_sorted|].
    now rewrite <- Husers. }
  split.
  { intros limit offset page.
    assert (Hpage : page = take limit (drop offset full)) by reflexivity.
    assert (Hr : map rank page
                 = seq (1 + offset) (Nat.min limit (N - offset))).
    { rewrite Hpage, <- List.firstn_map, <- List.skipn_map, Hranks.
      now rewrite List.skipn_seq, firstn_seq. }
    assert (Hl : List.length page = Nat.min limit (N - offset)).
    { rewrite <- (List.length_map rank), Hr. apply List.length_seq. }
    split; [exact Hpage|]. split; [now rewrite Hl|exact Hl]. }
  intros logs' limit offset Hp.
  assert (Heq : ranked names tz w logs' = full) by now apply ranked_perm.
  split; [exact Heq|]. unfold computeWeekly. fold w. now rewrite Heq.
Qed.

Lemma computeWeekly_ranks_witness :
  Permutation sample_logs (List.rev sample_logs)
  /\ computeWeekly (fun u => u) 0 1704888000000 (List.rev sample_logs) 2 1
     = computeWeekly (fun u => u) 0 1704888000000 sample_logs 2 1.
Proof.
  assert (Hp : Permutation sample_logs (List.rev sample_logs))
    by apply Permutation_rev.
  split; [exact Hp|].
  pose proof (computeWeekly_ranks (fun u => u) 0 1704888000000 sample_logs)
    as [_ [_ [_ [_ [_ [_ [_ Hdet]]]]]]].
  exact (proj2 (Hdet (List.rev sample_logs) 2%nat 1%nat Hp)).
Defined.

(** The example of the specification: equal scores are ranked by
    [user_id]. *)
Example computeWeekly_sample :
  map (fun e => (e_user_id e, score e, rank e))
      (computeWeekly (fun u => u) 0 1704888000000 sample_logs 10 0)
    = [("u1", 2%nat, 1%nat); ("u2", 2%nat, 2%nat); ("u3", 1%nat, 3%nat)]
  /\ map (fun e => (e_user_id e, score e, rank e))
       (computeWeekly (fun u => u) 0 1704888000000 sample_logs 2 1)
     = [("u2", 2%nat, 2%nat); ("u3", 1%nat, 3%nat)].
Proof. vm_compute. split; reflexivity. Qed.

End RankingFacts.

(** * Further properties of the page *)

(** ** The countdown over time *)

Section CountdownFacts.

Variable Date_parse : string -> option Z.

Lemma computeSecondsRemaining_shift (off now k : Z) (iso : string) :
  0 <= k ->
  computeSecondsRemaining Date_parse off (now + 1000 * k) iso
  = Z.max 0 (computeSecondsRemaining Date_parse off now iso - k).
Proof.
  intros Hk. unfold computeSecondsRemaining.
  destruct (Date_parse iso) as [t|]; [|lia].
  replace (t - (now + 1000 * k + off)) with (t - (now + off) + (- k) * 1000) by lia.
  rewrite Z.div_add by lia. lia.
Qed.

(** X1. Each second that passes on the client takes exactly one second off
    every value of the strip until it reaches 0, where it stays: after [k]
    ticks of 1000 ms a value [v] has become [max(0, v - k)]. *)
Theorem countdown_ticks (c : option Countdown) (off now k : Z) :
  0 <= k ->
  daySeconds Date_parse c off (now + 1000 * k)
    = Z.max 0 (daySeconds Date_parse c off now - k)
  /\ weekSeconds Date_parse c off (now + 1000 * k)
     = Z.max 0 (weekSeconds Date_parse c off now - k)
  /\ monthSeconds Date_parse c off (now + 1000 * k)
     = Z.max 0 (monthSeconds Date_parse c off now - k).
Proof.
  intros Hk.
  assert (H : forall f, secondsFor Date_parse off (now + 1000 * k) f
                        = Z.max 0 (secondsFor Date_parse off now f - k)).
  { intros [iso|]; simpl; [|lia].
    destruct (negb (iso =? "")%string); [|lia].
    now apply computeSecondsRemaining_shift. }
  unfold daySeconds, weekSeconds, monthSeconds.
  destruct c as [c|]; [|repeat split; lia].
  repeat split; apply H.
Qed.

(** X2. The value shown for an end instant that parses is the number of
    whole seconds left on the corrected clock: it is 0 exactly when less
    than one second is left (or the instant has passed), and otherwise the
    time left lies between [v] and [v + 1] seconds. *)
Theorem computeSecondsRemaining_accuracy (off now t : Z) (iso : string) :
  Date_parse iso = Some t ->
  let v := computeSecondsRemaining Date_parse off now iso in
  (v = 0 <-> t - (now + off) < 1000)
  /\ (1000 <= t - (now + off) ->
      1000 * v <= t - (now + off) < 1000 * v + 1000).
Proof.
  intros Hp v. subst v. unfold computeSecondsRemaining. rewrite Hp.
  pose proof (Z.div_mod (t - (now + off)) 1000 ltac:(lia)) as Hdm.
  pose proof (Z.mod_pos_bound (t - (now + off)) 1000 ltac:(lia)) as Hm.
  set (q := (t - (now + off)) / 1000) in *.
  split; [split|]; intros; lia.
Qed.

(** X3. The countdown is monotone: a later end instant never shows fewer
    seconds, and a later reading of the clock never shows more. *)
Theorem computeSecondsRemaining_monotone (off now now' ta tb : Z) (a b : string) :
  Date_parse a = Some ta -> Date_parse b = Some tb ->
  ta <= tb -> now <= now' ->
  computeSecondsRemaining Date_parse off now a
    <= computeSecondsRemaining Date_parse off now b
  /\ computeSecondsRemaining Date_parse off now' a
     <= computeSecondsRemaining Date_parse off now a.
Proof.
  intros Ha Hb Hab Hnow. unfold computeSecondsRemaining. rewrite Ha, Hb.
  split; apply Z.max_le_compat_l; apply Z.div_le_mono; lia.
Qed.

End CountdownFacts.

Lemma countdown_ticks_witness :
  0 <= 3
  /\ daySeconds sample_parse (Some sample_countdown) (-5000) (1704888006000 + 1000 * 3)
     = Z.max 0 (daySeconds sample_parse (Some sample_countdown) (-5000) 1704888006000 - 3).
Proof.
  assert (H : 0 <= 3) by lia.
  split; [exact H|].
  exact (proj1 (countdown_ticks sample_parse (Some sample_countdown) (-5000)
                  1704888006000 3 H)).
Defined.

Lemma computeSecondsRemaining_accuracy_witness :
  sample_parse "2024-01-11T00:00:00Z" = Some 1704931200000
  /\ (computeSecondsRemaining sample_parse (-5000) 1704888006000
        "2024-01-11T00:00:00Z" = 0
      <-> 1704931200000 - (1704888006000 + -5000) < 1000).
Proof.
  split; [reflexivity|].
  exact (proj1 (computeSecondsRemaining_accuracy sample_parse (-5000)
                  1704888006000 1704931200000 "2024-01-11T00:00:00Z" eq_refl)).
Defined.

Lemma computeSecondsRemaining_monotone_witness :
  sample_parse "2024-01-11T00:00:00Z" = Some 1704931200000
  /\ sample_parse "2024-01-15T00:00:00Z" = Some 1705276800000
  /\ 1704931200000 <= 1705276800000
  /\ 1704888006000 <= 1704888007000
  /\ computeSecondsRemaining sample_parse 0 1704888006000 "2024-01-11T00:00:00Z"
     <= computeSecondsRemaining sample_parse 0 1704888006000 "2024-01-15T00:00:00Z".
Proof.
  assert (H1 : 1704931200000 <= 1705276800000) by lia.
  assert (H2 : 1704888006000 <= 1704888007000) by lia.
  split; [reflexivity|]. split; [reflexivity|].
  split; [exact H1|]. split; [exact H2|].
  exact (proj1 (computeSecondsRemaining_monotone sample_parse 0 1704888006000
                  1704888007000 1704931200000 1705276800000
                  "2024-01-11T00:00:00Z" "2024-01-15T00:00:00Z"
                  eq_refl eq_refl H1 H2)).
Defined.

(** ** Reading the strip back *)

Lemma all_digits_append (s t : string) :
  all_digits (s ++ t) = all_digits s && all_digits t.
Proof.
  induction s as [|c s IH]; simpl; [reflexivity|].
  now rewrite IH, andb_assoc.
Qed.

Lemma all_digits_string_of_uint (u : uint) :
  all_digits (NilEmpty.string_of_uint u) = true.
Proof. induction u; simpl; auto. Qed.

Lemma all_digits_repeat_zero (k : nat) : all_digits (repeat_char "0" k) = true.
Proof. induction k as [|k IH]; simpl; auto. Qed.

Lemma all_digits_pad2 (n : Z) : n < 2 ^ 53 -> all_digits (pad2 n) = true.
Proof.
  intros Hn. rewrite pad2_small by exact Hn. unfold padStart, String_of_int.
  now rewrite all_digits_append, all_digits_repeat_zero, all_digits_string_of_uint.
Qed.

Lemma digit_not_colon (c : ascii) : is_digit c = true -> Ascii.eqb c ":" = false.
Proof. destruct c as [[] [] [] [] [] [] [] []]; vm_compute; congruence. Qed.

Lemma split_colon_digits (a : string) :
  all_digits a = true -> split_colon a = [a].
Proof.
  induction a as [|c a IH]; simpl; [reflexivity|].
  intros H. apply andb_true_iff in H. destruct H as [Hc Ha].
  now rewrite (digit_not_colon c Hc), (IH Ha).
Qed.

Lemma split_colon_component (a rest : string) :
  all_digits a = true ->
  split_colon (a ++ ":" ++ rest) = a :: split_colon rest.
Proof.
  change (":" ++ rest)%string with (String ":" rest).
  induction a as [|c a IH]; simpl; [reflexivity|].
  intros H. apply andb_true_iff in H. destruct H as [Hc Ha].
  now rewrite (digit_not_colon c Hc), (IH Ha).
Qed.

Lemma wholeSeconds_seconds_number (v : Z) :
  wholeSeconds (seconds_number v) = Z.max 0 v.
Proof. unfold wholeSeconds, seconds_number, JS.Math_floor. now rewrite Qfloor_Z. Qed.

Lemma decode_format (x : number) :
  wholeSeconds x < 2 ^ 53 ->
  decodeDDHHMMSS (formatDDHHMMSS x) = Some (wholeSeconds x).
Proof.
  intros Hlt. pose proof (wholeSeconds_nonneg x) as Hx.
  destruct (days_hours_minutes_seconds _ Hx) as [Hd [Hh [Hm [Hs Hsum]]]].
  rewrite (formatDDHHMMSS_exact x Hlt). unfold decodeDDHHMMSS.
  set (t := wholeSeconds x) in *.
  assert (Hd53 : t / 86400 < 2 ^ 53) by (apply Z.div_lt_upper_bound; lia).
  rewrite !split_colon_component by (apply all_digits_pad2; lia).
  rewrite split_colon_digits by (apply all_digits_pad2; lia).
  rewrite !decimal_value_pad2 by lia.
  f_equal. exact Hsum.
Qed.

(** X4. The text of the countdown can be read back as long as the whole
    seconds are below 2^53: splitting [formatDDHHMMSS x] at the colons and
    reading the four numbers gives the whole seconds that were formatted, so
    two such inputs with different whole seconds never get the same text. *)
Theorem formatDDHHMMSS_round_trip (x y : number) :
  wholeSeconds x < 2 ^ 53 -> wholeSeconds y < 2 ^ 53 ->
  decodeDDHHMMSS (formatDDHHMMSS x) = Some (wholeSeconds x)
  /\ (formatDDHHMMSS x = formatDDHHMMSS y -> wholeSeconds x = wholeSeconds y)
  /\ (wholeSeconds x = wholeSeconds y -> formatDDHHMMSS x = formatDDHHMMSS y).
Proof.
  intros Hx Hy. split; [now apply decode_format|]. split.
  - intros H. pose proof (decode_format x Hx) as Hdx.
    rewrite H, (decode_format y Hy) in Hdx. now injection Hdx.
  - intros H. unfold formatDDHHMMSS. now rewrite H.
Qed.

Lemma formatDDHHMMSS_round_trip_witness :
  wholeSeconds (Finite (7 # 2)) < 2 ^ 53
  /\ wholeSeconds (Finite (3 # 1)) < 2 ^ 53
  /\ formatDDHHMMSS (Finite (7 # 2)) = formatDDHHMMSS (Finite (3 # 1))
  /\ wholeSeconds (Finite (7 # 2)) = wholeSeconds (Finite (3 # 1)).
Proof.
  assert (Hx : wholeSeconds (Finite (7 # 2)) < 2 ^ 53) by reflexivity.
  assert (Hy : wholeSeconds (Finite (3 # 1)) < 2 ^ 53) by reflexivity.
  assert (H : formatDDHHMMSS (Finite (7 # 2)) = formatDDHHMMSS (Finite (3 # 1)))
    by reflexivity.
  split; [exact Hx|]. split; [exact Hy|]. split; [exact H|].
  exact (proj1 (proj2 (formatDDHHMMSS_round_trip (Finite (7 # 2)) (Finite (3 # 1))
                         Hx Hy)) H).
Defined.

(** A decimal that reads back as a double of 2^53 or more is not below
    100. *)
Lemma reads_as_large (c n : Z) :
  2 ^ 53 <= n -> NumberToString.reads_as c n = true -> 100 <= c.
Proof.
  intros Hn Hr. unfold NumberToString.reads_as in Hr. apply Qeq_bool_iff in Hr.
  destruct (Z.le_gt_cases 100 c) as [|Hlt]; [assumption|exfalso].
  assert (Hle : (inject_Z c <= inject_Z 100)%Q) by (rewrite <- Zle_Qle; lia).
  apply DoubleFacts.binary64_mono in Hle.
  rewrite (DoubleFacts.binary64_Z 100) in Hle by lia.
  rewrite Hr in Hle. rewrite <- Zle_Qle in Hle. lia.
Qed.

Lemma candidate_large (n d k c : Z) :
  2 ^ 53 <= n -> NumberToString.candidate n d k = Some c -> 100 <= c.
Proof.
  intros Hn. unfold NumberToString.candidate.
  destruct (d <? k); [intros [= <-]; lia|].
  set (p := 10 ^ (d - k)). set (lo := n / p * p).
  destruct (NumberToString.reads_as lo n) eqn:Hlo,
           (NumberToString.reads_as (lo + p) n) eqn:Hhi;
    try discriminate.
  - destruct (n - lo ?= lo + p - n); [destruct (Z.even (n / p))| |];
      intros [= <-]; eauto using reads_as_large.
  - intros [= <-]. eauto using reads_as_large.
  - intros [= <-]. eauto using reads_as_large.
Qed.

Lemma shortest_from_large (n d k : Z) (fuel : nat) :
  2 ^ 53 <= n -> 100 <= NumberToString.shortest_from n d k fuel.
Proof.
  intros Hn. revert k. induction fuel as [|fuel IH]; intros k; simpl; [lia|].
  destruct (NumberToString.candidate n d k) as [c|] eqn:Hc; [|apply IH].
  eauto using candidate_large.
Qed.

(** The text of an integer of 100 or more has three characters or more,
    in digits and in exponent notation. *)
Lemma toString_length (n : Z) :
  100 <= n -> (3 <= String.length (NumberToString.toString n))%nat.
Proof.
  intros Hn. unfold NumberToString.toString.
  destruct (Z.ltb_spec n (2 ^ 53)) as [|Hbig]; [now apply String_of_int_length|].
  pose proof (shortest_from_large n
                (Z.of_nat (String.length (String_of_int n))) 1 17 Hbig) as Hc.
  fold (NumberToString.shortest n) in Hc.
  pose proof (String_of_int_length _ Hc) as Hlen.
  destruct (NumberToString.shortest n <? 10 ^ 21); [exact Hlen|].
  unfold NumberToString.exponential.
  destruct (String_of_int (NumberToString.shortest n)) as [|d1 tl];
    [simpl in Hlen; lia|].
  simpl String.length. rewrite !length_append. simpl. lia.
Qed.

Lemma pad2_length_large (n : Z) : 100 <= n -> (3 <= String.length (pad2 n))%nat.
Proof.
  intros Hn. unfold pad2, padStart. rewrite length_append, Z.max_r by lia.
  pose proof (toString_length n Hn). lia.
Qed.

(** The days shown for 100 days or more are 100 or more. *)
Lemma days_large (t : Z) :
  8640000 <= t -> 100 <= JS.Math_floor (JS.div (inject_Z t) 86400).
Proof.
  intros Ht. unfold JS.Math_floor, JS.div.
  change 100 with (Qfloor (inject_Z 100)) at 1.
  apply Qfloor_resp_le.
  rewrite <- (DoubleFacts.binary64_Z 100) by lia.
  apply DoubleFacts.binary64_mono.
  apply Qle_shift_div_l; [reflexivity|].
  change (inject_Z 100 * 86400)%Q with (inject_Z 8640000).
  now rewrite <- Zle_Qle.
Qed.

(** X5. The text has a fixed width of 11 characters as long as less than
    100 days are left, and is longer from 100 days on. *)
Theorem formatDDHHMMSS_width (x : number) :
  if wholeSeconds x <? 8640000
  then String.length (formatDDHHMMSS x) = 11%nat
  else (12 <= String.length (formatDDHHMMSS x))%nat.
Proof.
  pose proof (wholeSeconds_nonneg x) as Hx.
  destruct (days_hours_minutes_seconds _ Hx) as [Hd [Hh [Hm [Hs Hsum]]]].
  destruct (Z.ltb_spec (wholeSeconds x) 8640000) as [Hlt|Hge].
  - rewrite formatDDHHMMSS_exact by lia.
    set (t := wholeSeconds x) in *.
    rewrite !length_append. simpl String.length.
    rewrite (pad2_two_digits (Z.rem t 86400 / 3600)) by lia.
    rewrite (pad2_two_digits (Z.rem t 3600 / 60)) by lia.
    rewrite (pad2_two_digits (Z.rem t 60)) by lia.
    rewrite (pad2_two_digits (t / 86400)); [reflexivity|].
    split; [lia|]. apply Z.div_lt_upper_bound; lia.
  - rewrite formatDDHHMMSS_components.
    set (t := wholeSeconds x) in *.
    rewrite !length_append. simpl String.length.
    rewrite (pad2_two_digits (Z.rem t 86400 / 3600)) by lia.
    rewrite (pad2_two_digits (Z.rem t 3600 / 60)) by lia.
    rewrite (pad2_two_digits (Z.rem t 60)) by lia.
    pose proof (pad2_length_large _ (days_large t Hge)). lia.
Qed.

(** The seconds left until a boundary are far below 2^53 when the instants
    are time values. *)
Lemma secondsFor_range (Date_parse : string -> option Z) (off now : Z)
    (f : option string) :
  parses_time_values Date_parse -> time_value now ->
  - (2 * MAX_TIME) <= off <= 2 * MAX_TIME ->
  0 <= secondsFor Date_parse off now f < 2 ^ 53.
Proof.
  intros Hp Hnow Hoff. unfold time_value, MAX_TIME in *.
  destruct f as [iso|]; simpl; [|lia].
  destruct (negb (iso =? "")%string); [|lia].
  unfold computeSecondsRemaining.
  destruct (Date_parse iso) as [t|] eqn:Ht; [|lia].
  specialize (Hp iso t Ht). unfold time_value, MAX_TIME in Hp.
  assert (Hq : (t - (now + off)) / 1000 < 2 ^ 53).
  { apply Z.div_lt_upper_bound; lia. }
  lia.
Qed.

(** X6. The strip of the page shows the three values of the countdown: with
    instants and a clock in the range of [Date], each of its texts reads back
    as the value computed for that boundary; without a countdown payload, and
    for every boundary that does not parse, the text is [00:00:00:00]. *)
Theorem pageStrip_reads_back (Date_parse : string -> option Z)
    (c : option Countdown) (off now : Z) :
  parses_time_values Date_parse -> time_value now ->
  - (2 * MAX_TIME) <= off <= 2 * MAX_TIME ->
  map decodeDDHHMMSS (pageStrip Date_parse c off now)
    = [ Some (daySeconds Date_parse c off now);
        Some (weekSeconds Date_parse c off now);
        Some (monthSeconds Date_parse c off now) ]
  /\ pageStrip Date_parse None off now
     = ["00:00:00:00"; "00:00:00:00"; "00:00:00:00"]
  /\ (forall cd, c = Some cd ->
      parse_field Date_parse (day_end cd) = None ->
      parse_field Date_parse (cd_week_end cd) = None ->
      parse_field Date_parse (month_end cd) = None ->
      pageStrip Date_parse c off now
      = ["00:00:00:00"; "00:00:00:00"; "00:00:00:00"]).
Proof.
  intros Hp Hnow Hoff.
  pose proof (fun f => secondsFor_range Date_parse off now f Hp Hnow Hoff) as Hnn.
  assert (Hnone : forall f, parse_field Date_parse f = None ->
                            secondsFor Date_parse off now f = 0).
  { intros [iso|] Hf; simpl in *; [|reflexivity].
    destruct (negb (iso =? "")%string); [|reflexivity].
    unfold computeSecondsRemaining. now rewrite Hf. }
  assert (Hdec : forall v, 0 <= v < 2 ^ 53 ->
            decodeDDHHMMSS (formatDDHHMMSS (seconds_number v)) = Some v).
  { intros v Hv. rewrite decode_format; rewrite wholeSeconds_seconds_number;
      [f_equal|]; lia. }
  split; [|split; [reflexivity|]].
  - unfold pageStrip, CountdownStrip. simpl map.
    unfold daySeconds, weekSeconds, monthSeconds.
    destruct c as [c|]; [|reflexivity].
    now rewrite !Hdec by apply Hnn.
  - intros cd -> Hd Hw Hm. unfold pageStrip, daySeconds, weekSeconds, monthSeconds.
    now rewrite (Hnone _ Hd), (Hnone _ Hw), (Hnone _ Hm).
Qed.

Lemma sample_parse_time_values : parses_time_values sample_parse.
Proof.
  intros s t H. unfold sample_parse in H.
  destruct (List.find _ sample_instants) as [p|] eqn:Hf; [|discriminate].
  injection H as <-. apply List.find_some in Hf. destruct Hf as [Hin _].
  unfold time_value, MAX_TIME.
  repeat (destruct Hin as [<-|Hin]; [simpl; lia|]). destruct Hin.
Qed.

Lemma pageStrip_reads_back_witness :
  parses_time_values sample_parse
  /\ time_value 1704888006000
  /\ - (2 * MAX_TIME) <= -5000 <= 2 * MAX_TIME
  /\ map decodeDDHHMMSS (pageStrip sample_parse (Some sample_countdown) (-5000)
                           1704888006000)
     = [Some 43199; Some 388799; Some 1857599].
Proof.
  assert (Hnow : time_value 1704888006000) by (unfold time_value, MAX_TIME; lia).
  assert (Hoff : - (2 * MAX_TIME) <= -5000 <= 2 * MAX_TIME)
    by (unfold MAX_TIME; lia).
  split; [exact sample_parse_time_values|]. split; [exact Hnow|].
  split; [exact Hoff|].
  exact (proj1 (pageStrip_reads_back sample_parse (Some sample_countdown) (-5000)
                  1704888006000 sample_parse_time_values Hnow Hoff)).
Defined.

(** ** The position in the week *)

Section WeekFacts.

Variable Date_parse : string -> option Z.
Hypothesis Date_parse_empty : Date_parse "" = None.

Lemma daysElapsedInWeek_parsed off now ws start :
  parse_field Date_parse ws = Some start ->
  daysElapsedInWeek Date_parse off now ws
  = Z.max 0 (Z.min 7 ((now + off - start) / 86400000 + 1)).
Proof.
  intros Hp. unfold daysElapsedInWeek.
  now rewrite (truthy_parse_field Date_parse Date_parse_empty), Hp.
Qed.

(** X7. With a week start that parses, the elapsed days follow the position
    of the corrected clock in the week: 0 before the week starts, [k + 1]
    during its day [k] (counted from 0), and 7 from the end of the week on;
    they never decrease as the clock advances. *)
Theorem daysElapsedInWeek_position (off now now' : Z) (ws : option string)
    (start : Z) :
  parse_field Date_parse ws = Some start ->
  (now + off < start -> daysElapsedInWeek Date_parse off now ws = 0)
  /\ (forall k, 0 <= k < 7 ->
        start + k * 86400000 <= now + off < start + (k + 1) * 86400000 ->
        daysElapsedInWeek Date_parse off now ws = k + 1)
  /\ (start + 7 * 86400000 <= now + off ->
      daysElapsedInWeek Date_parse off now ws = 7)
  /\ (now <= now' ->
      daysElapsedInWeek Date_parse off now ws
      <= daysElapsedInWeek Date_parse off now' ws).
Proof.
  intros Hp. rewrite !(daysElapsedInWeek_parsed _ _ _ _ Hp).
  split; [|split; [|split]].
  - intros H.
    assert ((now + off - start) / 86400000 < 0)
      by (apply Z.div_lt_upper_bound; lia).
    lia.
  - intros k Hk H.
    assert ((now + off - start) / 86400000 = k).
    { symmetry. apply (Z.div_unique _ _ k (now + off - start - k * 86400000)); lia. }
    lia.
  - intros H.
    assert (7 <= (now + off - start) / 86400000)
      by (apply Z.div_le_lower_bound; lia).
    lia.
  - intros H.
    assert ((now + off - start) / 86400000 <= (now' + off - start) / 86400000)
      by (apply Z.div_le_mono; lia).
    lia.
Qed.

End WeekFacts.

Lemma daysElapsedInWeek_position_witness :
  parse_field sample_parse (Some "2024-01-08T00:00:00Z") = Some 1704672000000
  /\ 0 <= 2 < 7
  /\ 1704672000000 + 2 * 86400000 <= 1704888000000 + 0
       < 1704672000000 + (2 + 1) * 86400000
  /\ daysElapsedInWeek sample_parse 0 1704888000000 (Some "2024-01-08T00:00:00Z")
     = 2 + 1.
Proof.
  assert (Hk : 0 <= 2 < 7) by lia.
  assert (Hin : 1704672000000 + 2 * 86400000 <= 1704888000000 + 0
                < 1704672000000 + (2 + 1) * 86400000) by lia.
  split; [reflexivity|]. split; [exact Hk|]. split; [exact Hin|].
  exact (proj1 (proj2 (daysElapsedInWeek_position sample_parse sample_parse_empty
                         0 1704888000000 1704888000000
                         (Some "2024-01-08T00:00:00Z") 1704672000000 eq_refl))
           2 Hk Hin).
Defined.

(** X8. A week start that is missing or empty counts no day as elapsed, and
    the weekly total falls back to one day per habit; a week start that is
    present and does not parse never reaches the total, the render throws at
    line 283; and a total that is displayed lies between [max(1, n)] and
    [max(1, 7 n)] for [n] habits. *)
Theorem totalPossibleThisWeek_fallback (Date_parse : string -> option Z)
    (toISODate : Z -> string) (st : PageState) (now : Z) :
  let ws := match leaderboard st with Some l => week_start l | None => None end in
  let n := Z.of_nat (List.length (habits st)) in
  (JS.truthy_str ws = false ->
   daysElapsedInWeek Date_parse (serverOffsetMs st) now ws = 0
   /\ totalPossibleThisWeek Date_parse (habits st) (serverOffsetMs st) now ws
      = Z.max 1 n
   /\ forall v, renderTotalPossible Date_parse toISODate st now = Fulfilled v ->
                v = Z.max 1 n)
  /\ (JS.truthy_str ws = true -> parse_field Date_parse ws = None ->
      renderTotalPossible Date_parse toISODate st now
      = Rejected (RangeError "Invalid time value"))
  /\ (forall v, renderTotalPossible Date_parse toISODate st now = Fulfilled v ->
                Z.max 1 n <= v <= Z.max 1 (7 * n)).
Proof.
  intros ws n.
  assert (Hrange : 0 <= daysElapsedInWeek Date_parse (serverOffsetMs st) now ws <= 7).
  { unfold daysElapsedInWeek. destruct (if JS.truthy_str ws then _ else _); lia. }
  assert (Hval : forall v,
            renderTotalPossible Date_parse toISODate st now = Fulfilled v ->
            v = totalPossibleThisWeek Date_parse (habits st) (serverOffsetMs st) now ws).
  { intros v. unfold renderTotalPossible. fold ws.
    destruct (weekDate Date_parse toISODate ws); [|discriminate].
    destruct (weekDate Date_parse toISODate _); [|discriminate].
    now intros [= <-]. }
  split; [|split].
  - intros Hf.
    assert (H0 : daysElapsedInWeek Date_parse (serverOffsetMs st) now ws = 0).
    { unfold daysElapsedInWeek. now rewrite Hf. }
    assert (Ht : totalPossibleThisWeek Date_parse (habits st) (serverOffsetMs st) now ws
                 = Z.max 1 n).
    { unfold totalPossibleThisWeek. rewrite H0. fold n. lia. }
    split; [exact H0|]. split; [exact Ht|].
    intros v Hv. rewrite (Hval v Hv). exact Ht.
  - intros Ht Hp. unfold renderTotalPossible. fold ws. unfold weekDate at 1.
    destruct ws as [s|]; [|discriminate]. rewrite Ht. simpl in Hp. now rewrite Hp.
  - intros v Hv. rewrite (Hval v Hv). unfold totalPossibleThisWeek. fold n. nia.
Qed.

Lemma totalPossibleThisWeek_fallback_witness :
  let st := {| loading := false; data := None; leaderboard := None;
               countdown := None;
               habits := [ {| habit_id := "h1"; habit_name := "Read";
                              habit_goal := Some 5 |};
                           {| habit_id := "h2"; habit_name := "Run";
                              habit_goal := None |} ];
               weekLogs := []; serverOffsetMs := 0 |} in
  JS.truthy_str None = false
  /\ totalPossibleThisWeek sample_parse (habits st) 0 1704888000000 None = 2
  /\ renderTotalPossible sample_parse sample_toISODate st 1704888000000
     = Fulfilled 2.
Proof.
  intros st.
  assert (H : JS.truthy_str None = false) by reflexivity.
  split; [exact H|].
  split.
  - exact (proj1 (proj2 (proj1 (totalPossibleThisWeek_fallback sample_parse
                                  sample_toISODate st 1704888000000) H))).
  - reflexivity.
Defined.

Example renderTotalPossible_invalid_week_start :
  let st := {| loading := false; data := None;
               leaderboard := Some {| week_start := Some "next monday";
                                      week_end := None; entries := None;
                                      reset_at := None |};
               countdown := None; habits := []; weekLogs := [];
               serverOffsetMs := 0 |} in
  renderTotalPossible sample_parse sample_toISODate st 1704888000000
  = Rejected (RangeError "Invalid time value").
Proof. reflexivity. Qed.

(** ** The counts kept per habit *)

Local Open Scope list_scope.

Lemma counted_for_empty (log : option HabitLog) : counted_for "" log = false.
Proof.
  destruct log as [l|]; [|reflexivity]. unfold counted_for, counted. simpl.
  destruct (log_habit_id l) as [id|]; simpl; [|apply andb_false_r].
  destruct (String.eqb_spec id ""); simpl;
    [now rewrite !andb_false_r|apply andb_false_r].
Qed.

Lemma tally_positive (logs : list (option HabitLog)) (k : string) (v : Z) :
  tally logs !! k = Some v -> 1 <= v.
Proof.
  rewrite tally_lookup. cbv zeta.
  destruct (Z.eqb_spec (Z.of_nat (List.length (List.filter (counted_for k) logs))) 0);
    [discriminate|]. intros [= <-]. lia.
Qed.

Lemma held_count (k : string) (n v : Z) : held k n = Some (Obj.Count v) -> n = v.
Proof.
  unfold held. destruct (k =? "__proto__")%string; [discriminate|].
  destruct (Obj.inherited k); [discriminate|]. now intros [= <-].
Qed.

(** X9. For every habit id that is not the name of a member that objects
    inherit, the accumulator holds exactly the number of completed logs of
    that habit, and no entry at all for a habit without one; every count in
    it is at least 1, the empty id is never a key, and as long as no counted
    log carries an inherited name the total of the week is the number of
    counted logs. *)
Theorem completedByHabit_entries (logs : list (option HabitLog)) (h : string) :
  let n := Z.of_nat (List.length (List.filter (counted_for h) logs)) in
  (Obj.inherited h = false ->
   completedByHabit logs !! h = (if n =? 0 then None else Some (Obj.Count n)))
  /\ (forall v, completedByHabit logs !! h = Some (Obj.Count v) -> 1 <= v)
  /\ completedByHabit logs !! "" = None
  /\ completedByHabit [] !! h = None
  /\ (plain_logs logs = true ->
      totalCompletedThisWeek logs
      = Obj.Total (Z.of_nat (List.length (List.filter counted logs)))).
Proof.
  intros n. split; [apply completedByHabit_lookup|]. split; [|split; [|split]].
  - intros v. rewrite completedByHabit_held, held_lookup.
    destruct (tally logs !! h) as [x|] eqn:Hx; [|discriminate].
    simpl. intros Hv. apply held_count in Hv. subst x.
    now apply (tally_positive logs h).
  - rewrite completedByHabit_lookup by reflexivity. cbv zeta.
    replace (List.filter (counted_for "") logs) with (@nil (option HabitLog));
      [reflexivity|].
    symmetry. induction logs as [|log logs IH]; simpl; [reflexivity|].
    now rewrite counted_for_empty.
  - reflexivity.
  - apply totalCompletedThisWeek_plain.
Qed.

Lemma completedByHabit_entries_witness :
  let logs := [ Some {| log_status := Some "completed"; log_habit_id := Some "h1" |};
                Some {| log_status := Some "missed"; log_habit_id := Some "h1" |};
                Some {| log_status := Some "completed"; log_habit_id := Some "h1" |} ] in
  Obj.inherited "h1" = false
  /\ completedByHabit logs !! "h1" = Some (Obj.Count 2)
  /\ plain_logs logs = true
  /\ totalCompletedThisWeek logs = Obj.Total 2.
Proof.
  intros logs.
  assert (Hh : Obj.inherited "h1" = false) by reflexivity.
  assert (Hp : plain_logs logs = true) by reflexivity.
  split; [exact Hh|]. split.
  - exact (proj1 (completedByHabit_entries logs "h1") Hh).
  - split; [exact Hp|].
    exact (proj2 (proj2 (proj2 (proj2 (completedByHabit_entries logs "h1")))) Hp).
Defined.

Lemma filter_length_perm {A} (f : A -> bool) (l l' : list A) :
  Permutation l l' ->
  List.length (List.filter f l) = List.length (List.filter f l').
Proof.
  induction 1 as [|x l l' _ IH|x y l|l l' l'' _ IH1 _ IH2]; simpl.
  - reflexivity.
  - destruct (f x); simpl; now rewrite IH.
  - destruct (f x), (f y); reflexivity.
  - now rewrite IH1.
Qed.

Lemma plain_logs_perm (logs logs' : list (option HabitLog)) :
  Permutation logs logs' -> plain_logs logs = true -> plain_logs logs' = true.
Proof.
  intros Hp H. unfold plain_logs in *. rewrite forallb_forall in *.
  intros x Hx. apply H. now apply (Permutation_in x (Permutation_sym Hp)).
Qed.

(** X10. As long as no counted log carries an inherited name, the counts do
    not depend on the order in which the logs arrive: any reordering of the
    week's logs gives the same accumulator and the same total. *)
Theorem completedByHabit_order (logs logs' : list (option HabitLog)) :
  Permutation logs logs' -> plain_logs logs = true ->
  completedByHabit logs = completedByHabit logs'
  /\ totalCompletedThisWeek logs = totalCompletedThisWeek logs'
  /\ totalCompletedThisWeek logs'
     = Obj.Total (Z.of_nat (List.length (List.filter counted logs))).
Proof.
  intros Hp Hpl. pose proof (plain_logs_perm _ _ Hp Hpl) as Hpl'.
  assert (Heq : completedByHabit logs = completedByHabit logs').
  { rewrite !completedByHabit_held. f_equal.
    apply map_eq. intros h. rewrite !tally_lookup. cbv zeta.
    now rewrite (filter_length_perm (counted_for h) _ _ Hp). }
  split; [exact Heq|]. split; [unfold totalCompletedThisWeek; now rewrite Heq|].
  rewrite (totalCompletedThisWeek_plain logs' Hpl').
  now rewrite (filter_length_perm counted _ _ Hp).
Qed.

Lemma completedByHabit_order_witness :
  let a := Some {| log_status := Some "completed"; log_habit_id := Some "h1" |} in
  let b := Some {| log_status := Some "completed"; log_habit_id := Some "h2" |} in
  Permutation [a; b; a] [b; a; a]
  /\ plain_logs [a; b; a] = true
  /\ completedByHabit [a; b; a] = completedByHabit [b; a; a].
Proof.
  intros a b.
  assert (Hp : Permutation [a; b; a] [b; a; a]) by apply perm_swap.
  assert (Hpl : plain_logs [a; b; a] = true) by reflexivity.
  split; [exact Hp|]. split; [exact Hpl|].
  exact (proj1 (completedByHabit_order [a; b; a] [b; a; a] Hp Hpl)).
Defined.

Lemma sumZ_map_add {A} (f g : A -> Z) (l : list A) :
  sumZ (map (fun x => f x + g x) l) = sumZ (map f l) + sumZ (map g l).
Proof. induction l as [|x l IH]; simpl; lia. Qed.

Lemma sumZ_zero {A} (l : list A) : sumZ (map (fun _ => 0) l) = 0.
Proof. induction l as [|x l IH]; simpl; lia. Qed.

Lemma counted_for_id (h1 h2 : string) (log : option HabitLog) :
  counted_for h1 log = true -> counted_for h2 log = true -> h1 = h2.
Proof.
  destruct log as [l|]; [|discriminate]. unfold counted_for.
  destruct (log_habit_id l) as [id|]; [|now rewrite andb_false_r].
  rewrite !andb_true_iff. intros [_ H1] [_ H2].
  apply String.eqb_eq in H1, H2. congruence.
Qed.

(** Over distinct ids a log is counted for one id at most. *)
Lemma sum_counted_for (ids : list string) (log : option HabitLog) :
  NoDup ids ->
  sumZ (map (fun h => if counted_for h log then 1 else 0) ids)
  = if counted_in ids log then 1 else 0.
Proof.
  unfold counted_in. induction ids as [|a ids IH]; intros Hnd; simpl;
    [reflexivity|].
  apply NoDup_cons in Hnd. destruct Hnd as [Ha Hnd]. rewrite (IH Hnd).
  destruct (counted_for a log) eqn:Hc; simpl; [|reflexivity].
  replace (existsb (fun h => counted_for h log) ids) with false; [reflexivity|].
  symmetry. apply not_true_is_false. intros Hex.
  apply existsb_exists in Hex. destruct Hex as [h [Hin Hh]].
  apply Ha. rewrite (counted_for_id a h log Hc Hh). now apply list_elem_of_In.
Qed.

Lemma counted_in_counted (ids : list string) (log : option HabitLog) :
  counted_in ids log = true -> counted log = true.
Proof.
  unfold counted_in. intros Hex. apply existsb_exists in Hex.
  destruct Hex as [h [_ Hh]]. now apply (counted_for_counted h).
Qed.

(** X11. For habits with distinct ids, none of them an inherited name, and
    logs none of which is counted under an inherited name, the "done"
    figures of the rows are the numbers of completed logs of the listed
    habits; they add up to the number of completed logs of listed habits, and
    the total in the header is greater exactly by the completed logs of
    habits that are not in the list. *)
Theorem habit_rows_sum (weekLogs : list (option HabitLog)) (habits : list Habit) :
  NoDup (map habit_id habits) ->
  plain_habits habits = true -> plain_logs weekLogs = true ->
  let ids := map habit_id habits in
  let rows := map (fun h => Z.of_nat (List.length
                      (List.filter (counted_for (habit_id h)) weekLogs))) habits in
  map (habitDone (completedByHabit weekLogs)) habits = map Obj.Num rows
  /\ sumZ rows = Z.of_nat (List.length (List.filter (counted_in ids) weekLogs))
  /\ totalCompletedThisWeek weekLogs
     = Obj.Total (sumZ rows
                  + Z.of_nat (List.length
                      (List.filter (fun log => counted log && negb (counted_in ids log))
                         weekLogs))).
Proof.
  intros Hnd Hph Hpl ids rows.
  assert (Hdone : map (habitDone (completedByHabit weekLogs)) habits = map Obj.Num rows).
  { subst rows. rewrite List.map_map. apply List.map_ext_in. intros h Hin.
    apply habitDone_count.
    unfold plain_habits in Hph. rewrite forallb_forall in Hph.
    specialize (Hph h Hin). now apply negb_true_iff in Hph. }
  assert (Hrows : sumZ rows
                  = Z.of_nat (List.length (List.filter (counted_in ids) weekLogs))).
  { transitivity (sumZ (map (fun h => Z.of_nat (List.length
                    (List.filter (counted_for h) weekLogs))) ids)).
    { subst rows ids. now rewrite List.map_map. }
    clear Hdone Hpl rows. induction weekLogs as [|log logs IH]; simpl.
    - change (Z.of_nat 0) with 0. apply sumZ_zero.
    - rewrite (List.map_ext
        (fun h => Z.of_nat (List.length
                    (if counted_for h log then log :: List.filter (counted_for h) logs
                     else List.filter (counted_for h) logs)))
        (fun h => (if counted_for h log then 1 else 0)
                  + Z.of_nat (List.length (List.filter (counted_for h) logs))))
        by (intros h; destruct (counted_for h log); simpl List.length; lia).
      rewrite sumZ_map_add, IH, (sum_counted_for ids log Hnd).
      destruct (counted_in ids log); simpl List.length; lia. }
  assert (Hsplit : (List.length (List.filter counted weekLogs)
            = List.length (List.filter (counted_in ids) weekLogs)
              + List.length (List.filter
                  (fun log => counted log && negb (counted_in ids log)) weekLogs))%nat).
  { clear Hrows Hdone Hpl rows. induction weekLogs as [|log logs IH]; simpl; [reflexivity|].
    destruct (counted_in ids log) eqn:Hin.
    - rewrite (counted_in_counted ids log Hin). simpl. lia.
    - destruct (counted log); simpl; lia. }
  split; [exact Hdone|]. split; [exact Hrows|].
  rewrite (totalCompletedThisWeek_plain weekLogs Hpl). f_equal. lia.
Qed.

Lemma habit_rows_sum_witness :
  let habits := [ {| habit_id := "h1"; habit_name := "Read"; habit_goal := Some 5 |};
                  {| habit_id := "h2"; habit_name := "Run"; habit_goal := None |} ] in
  let log id := Some {| log_status := Some "completed"; log_habit_id := Some id |} in
  NoDup (map habit_id habits)
  /\ plain_habits habits = true
  /\ plain_logs [log "h1"; log "h3"; log "h2"; log "h1"] = true
  /\ map (habitDone (completedByHabit [log "h1"; log "h3"; log "h2"; log "h1"])) habits
     = [Obj.Num 2; Obj.Num 1]
  /\ totalCompletedThisWeek [log "h1"; log "h3"; log "h2"; log "h1"] = Obj.Total 4.
Proof.
  intros habits log.
  assert (Hnd : NoDup (map habit_id habits)).
  { apply NoDup_ListNoDup. repeat constructor; simpl; intuition discriminate. }
  assert (Hph : plain_habits habits = true) by reflexivity.
  assert (Hpl : plain_logs [log "h1"; log "h3"; log "h2"; log "h1"] = true)
    by reflexivity.
  split; [exact Hnd|]. split; [exact Hph|]. split; [exact Hpl|].
  split.
  - exact (proj1 (habit_rows_sum [log "h1"; log "h3"; log "h2"; log "h1"]
                    habits Hnd Hph Hpl)).
  - exact (proj2 (proj2 (habit_rows_sum [log "h1"; log "h3"; log "h2"; log "h1"]
                           habits Hnd Hph Hpl))).
Defined.

(** ** The progress bars *)

(** X12. The progress of a habit whose id is not an inherited name, over
    the week's logs: 0 when the habit has no completed log, 100 as soon as
    its completed logs reach the goal (7 when the goal is absent or 0, at
    least 1), and never lower after more logs have arrived. *)
Theorem habitPct_progress (logs more : list (option HabitLog)) (h : Habit) :
  Obj.inherited (habit_id h) = false ->
  let done := Z.of_nat (List.length (List.filter (counted_for (habit_id h)) logs)) in
  (done = 0 -> habitPct (completedByHabit logs) h = Some 0)
  /\ (habitGoal h <= done -> habitPct (completedByHabit logs) h = Some 100)
  /\ exists p p',
       habitPct (completedByHabit logs) h = Some p
       /\ habitPct (completedByHabit (logs ++ more)) h = Some p'
       /\ p <= p'.
Proof.
  intros Hh done.
  assert (Hg : 1 <= habitGoal h) by (unfold habitGoal; lia).
  assert (Hd : forall l, habitPct (completedByHabit l) h
             = Some (Z.max 0 (Z.min 100 (percentOf
                 (Z.of_nat (List.length (List.filter (counted_for (habit_id h)) l)))
                 (habitGoal h))))).
  { intros l. unfold habitPct. now rewrite (habitDone_count l h Hh). }
  split; [|split].
  - intros H0. rewrite Hd. fold done. rewrite H0, DoubleFacts.percentOf_zero.
    reflexivity.
  - intros Hge. rewrite Hd. fold done.
    pose proof (DoubleFacts.percentOf_mono (habitGoal h) done (habitGoal h)
                  ltac:(lia) Hge) as Hm.
    rewrite DoubleFacts.percentOf_full in Hm by lia. f_equal. lia.
  - eexists _, _. split; [apply Hd|]. split; [apply Hd|].
    rewrite List.filter_app, List.length_app.
    pose proof (DoubleFacts.percentOf_mono
      (Z.of_nat (List.length (List.filter (counted_for (habit_id h)) logs)))
      (Z.of_nat (List.length (List.filter (counted_for (habit_id h)) logs)
                 + List.length (List.filter (counted_for (habit_id h)) more)))
      (habitGoal h) ltac:(lia) ltac:(lia)) as Hm.
    lia.
Qed.

Lemma habitPct_progress_witness :
  let h := {| habit_id := "h1"; habit_name := "Read"; habit_goal := Some 2 |} in
  let log := Some {| log_status := Some "completed"; log_habit_id := Some "h1" |} in
  Obj.inherited (habit_id h) = false
  /\ habitGoal h <= Z.of_nat (List.length (List.filter (counted_for (habit_id h)) [log; log; log]))
  /\ habitPct (completedByHabit [log; log; log]) h = Some 100.
Proof.
  intros h log.
  assert (Hh : Obj.inherited (habit_id h) = false) by reflexivity.
  assert (H : habitGoal h
              <= Z.of_nat (List.length (List.filter (counted_for (habit_id h))
                                          [log; log; log])))
    by (vm_compute; discriminate).
  split; [exact Hh|]. split; [exact H|].
  exact (proj1 (proj2 (habitPct_progress [log; log; log] [] h Hh)) H).
Defined.

(** A habit whose id is an inherited name has no percentage: its "done"
    figure is the inherited function, and the quotient is [NaN]. *)
Example habitPct_inherited_id :
  habitPct (completedByHabit [])
    {| habit_id := "toString"; habit_name := "Read"; habit_goal := None |} = None.
Proof. reflexivity. Qed.

(** X13. The bars of the leaderboard follow the scores: an entry with the
    greatest score has a full bar, an entry without score an empty one, a
    greater score never has a shorter bar, and as soon as one entry has a
    positive score some entry has a full bar. *)
Theorem entryPct_bars (es : list LeaderboardEntry) (a b : LeaderboardEntry) :
  (entryScore a = maxScore es -> entryPct es a = 100)
  /\ (entryScore a = 0 -> entryPct es a = 0)
  /\ (entryScore a <= entryScore b -> entryPct es a <= entryPct es b)
  /\ (In a es -> 1 <= entryScore a ->
      exists top, In top es /\ entryPct es top = 100).
Proof.
  assert (Hmax : 1 <= maxScore es) by apply max_from_lower.
  assert (Hfull : forall e, entryScore e = maxScore es -> entryPct es e = 100).
  { intros e He. unfold entryPct. rewrite He. apply DoubleFacts.percentOf_full. lia. }
  split; [apply Hfull|]. split; [|split].
  - intros H0. unfold entryPct. rewrite H0. apply DoubleFacts.percentOf_zero.
  - intros Hab. unfold entryPct. apply DoubleFacts.percentOf_mono; lia.
  - intros Hin Hpos.
    destruct (max_from_attained 1 (map entryScore es)) as [H1|Hatt].
    + exists a. split; [exact Hin|]. apply Hfull.
      assert (entryScore a <= maxScore es)
        by (apply max_from_upper; now apply in_map).
      unfold maxScore in *. lia.
    + apply in_map_iff in Hatt. destruct Hatt as [top [Htop Hin']].
      exists top. split; [exact Hin'|]. now apply Hfull.
Qed.

Lemma entryPct_bars_witness :
  let e1 := {| user_id := "u1"; name := Some "Ann Lee"; score := Some 5; rank := 1 |} in
  let e2 := {| user_id := "u2"; name := None; score := Some 3; rank := 2 |} in
  entryScore e2 <= entryScore e1 /\ entryPct [e1; e2] e2 <= entryPct [e1; e2] e1.
Proof.
  intros e1 e2.
  assert (H : entryScore e2 <= entryScore e1) by (vm_compute; discriminate).
  split; [exact H|].
  exact (proj1 (proj2 (proj2 (entryPct_bars [e1; e2] e2 e1))) H).
Defined.

(** ** The charts *)

(** X14. For a breakdown object the chart gives way to the "No data yet"
    text exactly when no status has a positive count; the chart has at most
    three slices, with distinct names, and the slices add up to the sum of
    the positive counts. *)
Theorem pieData_empty (b : Breakdown) :
  let data := Some {| completion_breakdown := Some b |} in
  let c := JS.or_default (completed b) 0 in
  let m := JS.or_default (missed b) 0 in
  let s := JS.or_default (skipped b) 0 in
  (pieData data = [] <-> c <= 0 /\ m <= 0 /\ s <= 0)
  /\ (List.length (pieData data) <= 3)%nat
  /\ sumZ (map pie_value (pieData data)) = Z.max 0 c + Z.max 0 m + Z.max 0 s
  /\ NoDup (map pie_name (pieData data)).
Proof.
  intros data c m s. subst data c m s. unfold pieData, pieCandidates.
  cbn [completion_breakdown List.filter pie_value].
  destruct (Z.ltb_spec 0 (JS.or_default (completed b) 0));
    destruct (Z.ltb_spec 0 (JS.or_default (missed b) 0));
    destruct (Z.ltb_spec 0 (JS.or_default (skipped b) 0));
    cbn [map sumZ pie_value pie_name List.length];
    (split; [split; [intros; first [discriminate | lia] | intros; first [lia | reflexivity]]|]);
    (split; [lia|]); (split; [lia|]);
    apply NoDup_ListNoDup; repeat constructor; simpl; intuition discriminate.
Qed.

(** X15. The upper bound of the daily chart's axis is at least 1, at least
    the number of habits and at least every daily total that is a number, so
    the reference line and the totals fit; it is 1 when there is no data, and
    it is never greater than needed: it is 1, the number of habits or one of
    the totals. *)
Theorem yMax_bounds (total_habits : option Z) (daily : list (option Z)) :
  1 <= yMax total_habits daily
  /\ JS.or_default total_habits 0 <= yMax total_habits daily
  /\ (forall t, In (Some t) daily -> t <= yMax total_habits daily)
  /\ yMax None [] = 1
  /\ (yMax total_habits daily = 1
      \/ yMax total_habits daily = JS.or_default total_habits 0
      \/ In (yMax total_habits daily) (map dayTotal daily)).
Proof.
  unfold yMax, maxDailyTotal.
  pose proof (max_from_lower (JS.or_default total_habits 0) (map dayTotal daily)) as Hlo.
  split; [lia|]. split; [lia|]. split; [|split].
  - intros t Hin.
    pose proof (max_from_upper (JS.or_default total_habits 0) (map dayTotal daily) t
                  (in_map dayTotal daily (Some t) Hin)).
    lia.
  - reflexivity.
  - destruct (max_from_attained (JS.or_default total_habits 0) (map dayTotal daily))
      as [H|H];
      destruct (Z.max_spec 1 (JS.max_from (JS.or_default total_habits 0)
                                (map dayTotal daily))) as [[_ ->]|[_ ->]]; auto.
Qed.

Lemma yMax_bounds_witness :
  In (Some 4) [Some 2; None; Some 4] /\ 4 <= yMax (Some 3) [Some 2; None; Some 4].
Proof.
  assert (H : In (Some 4) [Some 2; None; Some 4]) by (right; right; left; reflexivity).
  split; [exact H|].
  exact (proj1 (proj2 (proj2 (yMax_bounds (Some 3) [Some 2; None; Some 4]))) 4 H).
Defined.

(** ** What a fetch leaves in the page *)

Section FetchStates.

Variable Date_parse : string -> option Z.
Variable toISODate : Z -> string.
Variable api : Backend.
Variable Date_now : Z.

Variables (d : Response Dashboard) (l : Response Leaderboard)
          (c : Response Countdown) (h : Response (list Habit)).
Hypothesis dashboard_ok : getDashboard api = Fulfilled d.
Hypothesis weekly_ok : getWeekly api 10 0 = Fulfilled l.
Hypothesis countdown_ok : getCountdown api = Fulfilled c.
Hypothesis habits_ok : getAllHabits api = Fulfilled h.

Local Abbreviation fetch := (fetchDashboardData Date_parse toISODate api Date_now).
Local Abbreviation ws_field :=
  (match res_data l with Some lb => week_start lb | None => None end).
Local Abbreviation we_field :=
  (match res_data l with Some lb => week_end lb | None => None end).
Local Abbreviation now_field :=
  (match res_data c with Some cd => cd_now cd | None => None end).

Ltac run_fetch :=
  unfold fetchDashboardData, fetchBody, Async.try_finally, Async.try_catch,
    Async.bind, Async.await, Async.Promise_all4;
  rewrite dashboard_ok, weekly_ok, countdown_ok, habits_ok;
  cbn -[updateServerOffset JS.truthy_str isoDateOrNull].

(** X16. When every request succeeds and both week boundaries parse, the
    fetch completes without touching the console and replaces every cell of
    the page: dashboard, leaderboard, countdown, habits, the logs requested
    for the ISO dates of the two boundaries, and the clock offset.  Nothing
    of the previous state is left except the offset when the server's [now]
    does not parse. *)
Theorem fetch_success (st : PageState) (out : console) (t1 t2 : Z)
    (logsRes : Response (list (option HabitLog))) :
  JS.truthy_str ws_field = true ->
  JS.truthy_str we_field = true ->
  parse_field Date_parse ws_field = Some t1 ->
  parse_field Date_parse we_field = Some t2 ->
  toISODate t1 <> "" -> toISODate t2 <> "" ->
  getAllLogs api (toISODate t1) (toISODate t2) = Fulfilled logsRes ->
  fetch st out
  = (Fulfilled tt,
     {| loading := false;
        data := res_data d;
        leaderboard := res_data l;
        countdown := res_data c;
        habits := arrayOrEmpty (res_data h);
        weekLogs := arrayOrEmpty (res_data logsRes);
        serverOffsetMs :=
          updateServerOffset Date_parse (serverOffsetMs st) now_field Date_now |},
     out).
Proof.
  intros Hws Hwe Hp1 Hp2 Hd1 Hd2 Hlogs. run_fetch.
  destruct (res_data l) as [lb|]; [|discriminate].
  destruct (week_start lb) as [ws|]; [|discriminate].
  destruct (week_end lb) as [we|]; [|discriminate].
  cbv beta iota in Hws, Hwe, Hp1, Hp2. unfold parse_field in Hp1, Hp2.
  assert (Hi1 : JS.truthy_str (Some (toISODate t1)) = true)
    by (simpl; now rewrite (proj2 (String.eqb_neq _ _) Hd1)).
  assert (Hi2 : JS.truthy_str (Some (toISODate t2)) = true)
    by (simpl; now rewrite (proj2 (String.eqb_neq _ _) Hd2)).
  unfold isoDateOrNull. rewrite Hws, Hp1. cbn -[updateServerOffset JS.truthy_str].
  rewrite Hwe, Hp2. cbn -[updateServerOffset JS.truthy_str].
  rewrite Hi1, Hi2. cbn -[updateServerOffset JS.truthy_str].
  rewrite Hlogs. reflexivity.
Qed.

(** X17. A week boundary that is present but does not parse makes the fetch
    fail although every request succeeded: [toISOString] throws a
    [RangeError], which goes to the console; the dashboard and the
    leaderboard have been stored by then, while habits, logs, countdown and
    clock offset keep their previous values. *)
Theorem fetch_invalid_week_start (st : PageState) (out : console) :
  JS.truthy_str ws_field = true ->
  parse_field Date_parse ws_field = None ->
  fetch st out
  = (Fulfilled tt,
     {| loading := false;
        data := res_data d;
        leaderboard := res_data l;
        countdown := countdown st;
        habits := habits st;
        weekLogs := weekLogs st;
        serverOffsetMs := serverOffsetMs st |},
     (out ++ [("Failed to fetch dashboard data:", RangeError "Invalid time value")])).
Proof.
  intros Hws Hp. run_fetch.
  destruct (res_data l) as [lb|]; [|discriminate].
  destruct (week_start lb) as [ws|]; [|discriminate].
  cbv beta iota in Hws, Hp. unfold parse_field in Hp.
  unfold isoDateOrNull at 1. rewrite Hws, Hp. reflexivity.
Qed.

(** X18. When the request for the week's logs is rejected after the four
    others succeeded, the error goes to the console, the dashboard and the
    leaderboard stay stored, and habits, logs, countdown and clock offset
    keep their previous values. *)
Theorem fetch_logs_rejected (st : PageState) (out : console) (t1 t2 : Z)
    (e : exn) :
  JS.truthy_str ws_field = true ->
  JS.truthy_str we_field = true ->
  parse_field Date_parse ws_field = Some t1 ->
  parse_field Date_parse we_field = Some t2 ->
  toISODate t1 <> "" -> toISODate t2 <> "" ->
  getAllLogs api (toISODate t1) (toISODate t2) = Rejected e ->
  fetch st out
  = (Fulfilled tt,
     {| loading := false;
        data := res_data d;
        leaderboard := res_data l;
        countdown := countdown st;
        habits := habits st;
        weekLogs := weekLogs st;
        serverOffsetMs := serverOffsetMs st |},
     (out ++ [("Failed to fetch dashboard data:", e)])).
Proof.
  intros Hws Hwe Hp1 Hp2 Hd1 Hd2 Hlogs. run_fetch.
  destruct (res_data l) as [lb|]; [|discriminate].
  destruct (week_start lb) as [ws|]; [|discriminate].
  destruct (week_end lb) as [we|]; [|discriminate].
  cbv beta iota in Hws, Hwe, Hp1, Hp2. unfold parse_field in Hp1, Hp2.
  assert (Hi1 : JS.truthy_str (Some (toISODate t1)) = true)
    by (simpl; now rewrite (proj2 (String.eqb_neq _ _) Hd1)).
  assert (Hi2 : JS.truthy_str (Some (toISODate t2)) = true)
    by (simpl; now rewrite (proj2 (String.eqb_neq _ _) Hd2)).
  unfold isoDateOrNull. rewrite Hws, Hp1. cbn -[updateServerOffset JS.truthy_str].
  rewrite Hwe, Hp2. cbn -[updateServerOffset JS.truthy_str].
  rewrite Hi1, Hi2. cbn -[updateServerOffset JS.truthy_str].
  rewrite Hlogs. reflexivity.
Qed.

(** X19. Without week boundaries (no leaderboard data, or both fields
    missing or empty) no logs are requested: the week's logs become the
    empty list whatever the logs endpoint would answer, and the rest of the
    page is stored as on a full success. *)
Theorem fetch_without_week (st : PageState) (out : console) :
  JS.truthy_str ws_field = false ->
  JS.truthy_str we_field = false ->
  fetch st out
  = (Fulfilled tt,
     {| loading := false;
        data := res_data d;
        leaderboard := res_data l;
        countdown := res_data c;
        habits := arrayOrEmpty (res_data h);
        weekLogs := [];
        serverOffsetMs :=
          updateServerOffset Date_parse (serverOffsetMs st) now_field Date_now |},
     out).
Proof.
  intros Hws Hwe. run_fetch. unfold isoDateOrNull.
  destruct (res_data l) as [lb|]; [|reflexivity].
  destruct (week_start lb) as [ws|], (week_end lb) as [we|];
    cbv beta iota in Hws, Hwe; rewrite ?Hws, ?Hwe; reflexivity.
Qed.

End FetchStates.

Lemma fetch_success_witness :
  let api := api_week (Some "2024-01-08T00:00:00Z")
               (Fulfilled {| res_data := Some [None] |}) in
  sample_toISODate 1704672000000 <> ""
  /\ sample_toISODate 1705276800000 <> ""
  /\ weekLogs (snd (fst (fetchDashboardData sample_parse sample_toISODate api
                           1704888005000 initialState []))) = [None].
Proof.
  intros api.
  assert (H1 : sample_toISODate 1704672000000 <> "") by (vm_compute; discriminate).
  assert (H2 : sample_toISODate 1705276800000 <> "") by (vm_compute; discriminate).
  split; [exact H1|]. split; [exact H2|].
  rewrite (fetch_success sample_parse sample_toISODate api 1704888005000
             _ _ _ _ eq_refl eq_refl eq_refl eq_refl initialState []
             1704672000000 1705276800000 {| res_data := Some [None] |}
             eq_refl eq_refl eq_refl eq_refl H1 H2 eq_refl).
  reflexivity.
Defined.

Lemma fetch_invalid_week_start_witness :
  let api := api_week (Some "next monday") (Fulfilled {| res_data := Some [None] |}) in
  JS.truthy_str (Some "next monday") = true
  /\ sample_parse "next monday" = None
  /\ countdown (snd (fst (fetchDashboardData sample_parse sample_toISODate api
                            1704888005000 initialState []))) = None.
Proof.
  intros api. split; [reflexivity|]. split; [reflexivity|].
  rewrite (fetch_invalid_week_start sample_parse sample_toISODate api 1704888005000
             _ _ _ _ eq_refl eq_refl eq_refl eq_refl initialState []
             eq_refl eq_refl).
  reflexivity.
Defined.

Lemma fetch_logs_rejected_witness :
  let api := api_week (Some "2024-01-08T00:00:00Z")
               (Rejected (RequestError "Network Error")) in
  sample_toISODate 1704672000000 <> ""
  /\ sample_toISODate 1705276800000 <> ""
  /\ snd (fetchDashboardData sample_parse sample_toISODate api
            1704888005000 initialState [])
     = [("Failed to fetch dashboard data:", RequestError "Network Error")].
Proof.
  intros api.
  assert (H1 : sample_toISODate 1704672000000 <> "") by (vm_compute; discriminate).
  assert (H2 : sample_toISODate 1705276800000 <> "") by (vm_compute; discriminate).
  split; [exact H1|]. split; [exact H2|].
  rewrite (fetch_logs_rejected sample_parse sample_toISODate api 1704888005000
             _ _ _ _ eq_refl eq_refl eq_refl eq_refl initialState []
             1704672000000 1705276800000 (RequestError "Network Error")
             eq_refl eq_refl eq_refl eq_refl H1 H2 eq_refl).
  reflexivity.
Defined.

Lemma fetch_without_week_witness :
  JS.truthy_str None = false
  /\ weekLogs (snd (fst (fetchDashboardData sample_parse sample_toISODate api_empty
                           1704888005000 initialState []))) = [].
Proof.
  split; [reflexivity|].
  rewrite (fetch_without_week sample_parse sample_toISODate api_empty 1704888005000
             _ _ _ _ eq_refl eq_refl eq_refl eq_refl initialState []
             eq_refl eq_refl).
  reflexivity.
Defined.

(** ** The base URL of the API *)

Module ApiFacts.

Import Api.
Local Open Scope string_scope.

Lemma ends_with_slash_cons (c : ascii) (s : string) :
  AsciiText.is_empty s = false ->
  ends_with_slash (String c s) = ends_with_slash s.
Proof. destruct s; [discriminate|reflexivity]. Qed.

Lemma strip_no_trailing_slash (s : string) :
  ends_with_slash (stripTrailingSlashes s) = false.
Proof.
  induction s as [|c s IH]; [reflexivity|].
  cbn [stripTrailingSlashes].
  destruct (stripTrailingSlashes s) as [|a r] eqn:Hs.
  - destruct (is_slash c) eqn:Hc; simpl; [reflexivity|exact Hc].
  - rewrite andb_false_r. rewrite ends_with_slash_cons by reflexivity. exact IH.
Qed.

Lemma strip_decompose (s : string) :
  exists k, s = stripTrailingSlashes s ++ repeat_char "/" k.
Proof.
  induction s as [|c s [k IH]]; [now exists 0%nat|].
  cbn [stripTrailingSlashes].
  destruct (stripTrailingSlashes s) as [|a r] eqn:Hs.
  - change (s = repeat_char "/" k) in IH.
    destruct (is_slash c) eqn:Hc; cbn [andb AsciiText.is_empty].
    + exists (S k). apply Ascii.eqb_eq in Hc. subst c.
      change (String "/" s = String "/" (repeat_char "/" k)). now f_equal.
    + exists k. change (String c s = String c (repeat_char "/" k)). now f_equal.
  - rewrite andb_false_r. exists k.
    change (String c s = String c (String a r ++ repeat_char "/" k)). now f_equal.
Qed.

Lemma strip_slashes (k : nat) : stripTrailingSlashes (repeat_char "/" k) = "".
Proof. induction k as [|k IH]; simpl; [reflexivity|now rewrite IH]. Qed.

(** Trailing slashes make no difference, and a string that does not end
    with a slash is kept. *)
Lemma strip_append_slashes (b : string) (k : nat) :
  ends_with_slash b = false ->
  stripTrailingSlashes (b ++ repeat_char "/" k) = b.
Proof.
  induction b as [|c b IH]; intros Hb.
  - apply strip_slashes.
  - change (String c b ++ repeat_char "/" k)
      with (String c (b ++ repeat_char "/" k)).
    cbn [stripTrailingSlashes]. destruct b as [|c' b'].
    + change ("" ++ repeat_char "/" k) with (repeat_char "/" k).
      rewrite strip_slashes. change (is_slash c = false) in Hb.
      now rewrite Hb.
    + rewrite IH by exact Hb. now rewrite andb_false_r.
Qed.

(** X20. The base URL is the configured URL, or [http://localhost:8000]
    when none is configured or it is empty, with all its trailing slashes
    removed and nothing else changed: the result never ends with a slash,
    the configured URL is the result followed by slashes only, and any URL
    that does not end with a slash is kept as it is, however many slashes
    are appended to it. *)
Theorem backendBaseUrl_spec (env : option string) (b : string) (k : nat) :
  ends_with_slash (backendBaseUrl env) = false
  /\ (exists n, (if JS.truthy_str env
                 then match env with Some s => s | None => default_backend end
                 else default_backend)
                = backendBaseUrl env ++ repeat_char "/" n)
  /\ backendBaseUrl None = "http://localhost:8000"
  /\ backendBaseUrl (Some "") = "http://localhost:8000"
  /\ (b <> "" -> ends_with_slash b = false ->
      backendBaseUrl (Some (b ++ repeat_char "/" k)) = b).
Proof.
  split; [apply strip_no_trailing_slash|]. split; [|split; [|split]].
  - unfold backendBaseUrl. destruct env as [s|]; [|apply strip_decompose].
    destruct (JS.truthy_str (Some s)); apply strip_decompose.
  - reflexivity.
  - reflexivity.
  - intros Hne Hb. unfold backendBaseUrl.
    replace (JS.truthy_str (Some (b ++ repeat_char "/" k))) with true.
    + now apply strip_append_slashes.
    + destruct b; [contradiction|reflexivity].
Qed.

Lemma backendBaseUrl_spec_witness :
  "https://api.example.com" <> ""
  /\ ends_with_slash "https://api.example.com" = false
  /\ backendBaseUrl (Some "https://api.example.com//") = "https://api.example.com".
Proof.
  assert (H1 : "https://api.example.com" <> "") by discriminate.
  assert (H2 : ends_with_slash "https://api.example.com" = false) by reflexivity.
  split; [exact H1|]. split; [exact H2|].
  exact (proj2 (proj2 (proj2 (proj2
           (backendBaseUrl_spec None "https://api.example.com" 2)))) H1 H2).
Defined.

Lemma append_cancel_r (s s' t : string) : s ++ t = s' ++ t -> s = s'.
Proof.
  revert s'. induction s as [|c s IH]; intros [|c' s'] H; simpl in H.
  - reflexivity.
  - apply (f_equal String.length) in H. rewrite !length_append in H.
    simpl in H. lia.
  - apply (f_equal String.length) in H. rewrite !length_append in H.
    simpl in H. lia.
  - change (String c (s ++ t) = String c' (s' ++ t)) in H.
    injection H as -> H. f_equal. now apply IH.
Qed.

Lemma ends_with_slash_append (p : string) : ends_with_slash (p ++ "/") = true.
Proof.
  induction p as [|c p IH]; [reflexivity|].
  change (String c p ++ "/") with (String c (p ++ "/")).
  rewrite ends_with_slash_cons; [exact IH|].
  destruct p; reflexivity.
Qed.

(** X21. Whatever URL is configured, the API root is the base URL followed
    by [/api], and no doubled slash arises where the two are joined. *)
Theorem API_URL_join (env : option string) (p : string) :
  API_URL env = backendBaseUrl env ++ "/api"
  /\ API_URL env <> p ++ "//api"
  /\ API_URL None = "http://localhost:8000/api".
Proof.
  split; [reflexivity|]. split; [|reflexivity].
  unfold API_URL. intros H.
  change (p ++ "//api") with (p ++ ("/" ++ "/api")) in H.
  assert (Hassoc : p ++ ("/" ++ "/api") = (p ++ "/") ++ "/api").
  { clear H. induction p as [|c p IH]; [reflexivity|].
    change (String c (p ++ ("/" ++ "/api")) = String c ((p ++ "/") ++ "/api")).
    now rewrite IH. }
  rewrite Hassoc in H. apply append_cancel_r in H.
  pose proof (strip_no_trailing_slash
                (match env with
                 | Some s => if JS.truthy_str env then s else default_backend
                 | None => default_backend
                 end)) as Hs.
  fold (backendBaseUrl env) in Hs. rewrite H, ends_with_slash_append in Hs.
  discriminate.
Qed.

End ApiFacts.

(** ** Initials of initials, and test ids *)

Module InitialsMore.

Import Initials.
Local Open Scope list_scope.

Lemma is_space_false (c : N) : (33 <= c < 160)%N -> is_space c = false.
Proof.
  intros Hc. unfold is_space.
  rewrite (proj2 (N.leb_gt c 13)) by lia.
  rewrite (proj2 (N.leb_gt 8192 c)) by lia.
  rewrite !(proj2 (N.eqb_neq c _)) by lia.
  now rewrite andb_false_r.
Qed.

Lemma is_space_upper (c : N) : is_space (upper_unit c) = is_space c.
Proof.
  unfold upper_unit. destruct (is_lower c) eqn:Hc; [|reflexivity].
  unfold is_lower in Hc. apply andb_true_iff in Hc. destruct Hc as [H1 H2].
  apply N.leb_le in H1, H2.
  now rewrite !is_space_false by lia.
Qed.

Lemma upper_unit_idem (c : N) : upper_unit (upper_unit c) = upper_unit c.
Proof.
  unfold upper_unit at 1. now rewrite InitialsFacts.upper_unit_no_lower.
Qed.

Lemma is_ascii_upper (c : N) : is_ascii c = true -> is_ascii (upper_unit c) = true.
Proof.
  unfold is_ascii, upper_unit. intros Hc. apply N.ltb_lt in Hc.
  destruct (is_lower c); apply N.ltb_lt; lia.
Qed.

Section Host.

Variable toUpperCase : jsstring -> jsstring.

Hypothesis toUpperCase_ascii :
  forall s, ascii_only s = true -> toUpperCase s = map upper_unit s.

(** One or two ASCII characters without white space, in upper case, are
    their own initials. *)
Lemma initials_fixed (q : jsstring) :
  ascii_only q = true -> no_space q = true -> is_empty q = false ->
  (List.length q <= 2)%nat ->
  nameInitials toUpperCase (Some (map upper_unit q)) = Some (map upper_unit q).
Proof.
  intros Ha Hns Hne Hlen. unfold nameInitials.
  rewrite InitialsFacts.parts_words. unfold words. simpl String_or_empty.
  destruct q as [|a [|b [|x q]]]; simpl in Hne, Hlen; try discriminate; try lia.
  - simpl in Ha, Hns. rewrite andb_true_r in Ha, Hns. apply negb_true_iff in Hns.
    simpl. rewrite is_space_upper, Hns. simpl.
    rewrite toUpperCase_ascii by (simpl; now rewrite is_ascii_upper).
    simpl. now rewrite upper_unit_idem.
  - simpl in Ha, Hns.
    apply andb_true_iff in Ha. destruct Ha as [Ha Hb]. rewrite andb_true_r in Hb.
    apply andb_true_iff in Hns. destruct Hns as [Hsa Hsb].
    rewrite andb_true_r in Hsb. apply negb_true_iff in Hsa, Hsb.
    simpl. rewrite !is_space_upper, Hsa, Hsb. simpl.
    rewrite toUpperCase_ascii by (simpl; now rewrite !is_ascii_upper).
    simpl. now rewrite !upper_unit_idem.
Qed.

(** X22. On names of ASCII characters the initials are a fixed point:
    taking the initials of the initials gives the same initials again. *)
Theorem nameInitials_idempotent (name : option jsstring) (r : jsstring) :
  ascii_only (String_or_empty name) = true ->
  nameInitials toUpperCase name = Some r ->
  nameInitials toUpperCase (Some r) = Some r.
Proof.
  intros Hasc. unfold nameInitials at 1. rewrite InitialsFacts.parts_words.
  pose proof (InitialsFacts.words_go_nonempty (String_or_empty name) []) as Hne.
  pose proof (InitialsFacts.words_go_no_space (String_or_empty name) [] eq_refl) as Hns.
  pose proof (InitialsFacts.words_go_ascii (String_or_empty name) [] Hasc eq_refl) as Ha.
  fold (words (String_or_empty name)) in Hne, Hns, Ha.
  destruct (words (String_or_empty name)) as [|w0 [|w1 ws]].
  - intros [= <-]. apply (initials_fixed (units "U")); try reflexivity. simpl. lia.
  - inversion Hne as [|? ? Hw0 _]; inversion Hns as [|? ? Hs0 _];
      inversion Ha as [|? ? Ha0 _]; subst.
    intros [= <-].
    rewrite toUpperCase_ascii by now apply InitialsFacts.slice_0_2_ascii.
    apply initials_fixed.
    + now apply InitialsFacts.slice_0_2_ascii.
    + destruct w0 as [|a [|b w]]; simpl in *; try discriminate.
      * exact Hs0.
      * apply andb_true_iff in Hs0. destruct Hs0 as [Hx Hs0].
        apply andb_true_iff in Hs0. destruct Hs0 as [Hy _].
        now rewrite Hx, Hy.
    + destruct w0 as [|a [|b w]]; simpl in *; try discriminate; reflexivity.
    + apply InitialsFacts.slice_0_2_length. exact Hw0.
  - inversion Hne as [|? ? Hw0 Hne']; inversion Hne' as [|? ? Hw1 _]; subst.
    inversion Hns as [|? ? Hs0 Hns']; inversion Hns' as [|? ? Hs1 _]; subst.
    inversion Ha as [|? ? Ha0 Ha']; inversion Ha' as [|? ? Ha1 _]; subst.
    destruct w0 as [|a t0]; [discriminate|].
    destruct w1 as [|b t1]; [discriminate|].
    simpl index0. intros [= <-].
    simpl in Ha0, Ha1, Hs0, Hs1.
    apply andb_true_iff in Ha0, Ha1, Hs0, Hs1.
    destruct Ha0 as [Hx _], Ha1 as [Hy _], Hs0 as [Hsx _], Hs1 as [Hsy _].
    rewrite toUpperCase_ascii by (simpl; now rewrite Hx, Hy).
    apply (initials_fixed [a; b]).
    + simpl. now rewrite Hx, Hy.
    + simpl. now rewrite Hsx, Hsy.
    + reflexivity.
    + simpl. lia.
Qed.

End Host.

Lemma nameInitials_idempotent_witness :
  ascii_only (units "  ada   lovelace king ") = true
  /\ nameInitials sample_toUpperCase (Some (units "  ada   lovelace king "))
     = Some (units "AL")
  /\ nameInitials sample_toUpperCase (Some (units "AL")) = Some (units "AL").
Proof.
  assert (Ha : ascii_only (units "  ada   lovelace king ") = true) by reflexivity.
  assert (H : nameInitials sample_toUpperCase (Some (units "  ada   lovelace king "))
              = Some (units "AL")) by reflexivity.
  split; [exact Ha|]. split; [exact H|].
  exact (nameInitials_idempotent sample_toUpperCase
           InitialsFacts.sample_toUpperCase_ascii
           (Some (units "  ada   lovelace king ")) (units "AL") Ha H).
Defined.

(** Outside the ASCII range the initials need not be a fixed point: the
    initials of ["ßa"] are ["SSA"], whose initials are ["SS"]. *)
Example nameInitials_not_idempotent :
  nameInitials sample_toUpperCase (Some [223; 97]%N) = Some (units "SSA")
  /\ nameInitials sample_toUpperCase (Some (units "SSA")) = Some (units "SS").
Proof. split; reflexivity. Qed.

(** ** Test ids *)

Import AsciiText.
Local Open Scope string_scope.

Import TestId.

Lemma is_upper_lower (c : ascii) : is_upper (lower_char c) = false.
Proof. destruct c as [[] [] [] [] [] [] [] []]; reflexivity. Qed.

Lemma no_upper_toLowerCase (s : string) : no_upper (toLowerCase s) = true.
Proof.
  induction s as [|c s IH]; simpl; [reflexivity|].
  now rewrite is_upper_lower, IH.
Qed.

Lemma space_not_upper (c : ascii) : is_space c = true -> is_upper c = false.
Proof. destruct c as [[] [] [] [] [] [] [] []]; vm_compute; congruence. Qed.

Lemma replace_runs_clean (s : string) (in_run : bool) :
  no_upper s = true ->
  no_space (replace_runs s in_run) = true
  /\ no_upper (replace_runs s in_run) = true
  /\ (String.length (replace_runs s in_run) <= String.length s)%nat.
Proof.
  revert in_run. induction s as [|c s IH]; intros in_run Hu; simpl.
  - repeat split; lia.
  - simpl in Hu. apply andb_true_iff in Hu. destruct Hu as [Hc Hu].
    destruct (is_space c) eqn:Hs.
    + destruct in_run.
      * destruct (IH true Hu) as [H1 [H2 H3]]. repeat split; auto.
      * destruct (IH true Hu) as [H1 [H2 H3]]. simpl.
        rewrite H1, H2. repeat split; lia.
    + destruct (IH false Hu) as [H1 [H2 H3]]. simpl.
      rewrite Hs, Hc, H1, H2. repeat split; lia.
Qed.

Lemma replace_runs_id (s : string) (in_run : bool) :
  no_space s = true -> replace_runs s in_run = s.
Proof.
  revert in_run. induction s as [|c s IH]; intros in_run H; simpl; [reflexivity|].
  simpl in H. apply andb_true_iff in H. destruct H as [Hc Hs].
  apply negb_true_iff in Hc. rewrite Hc. now rewrite IH.
Qed.

Lemma toLowerCase_id (s : string) : no_upper s = true -> toLowerCase s = s.
Proof.
  induction s as [|c s IH]; simpl; [reflexivity|].
  intros H. apply andb_true_iff in H. destruct H as [Hc Hs].
  apply negb_true_iff in Hc. unfold lower_char. rewrite Hc. now rewrite IH.
Qed.

Lemma toLowerCase_length (s : string) :
  String.length (toLowerCase s) = String.length s.
Proof. induction s as [|c s IH]; simpl; [reflexivity|now rewrite IH]. Qed.

(** X23. The test id of a KPI card never contains white space or an
    upper-case letter and is at most four characters longer than the label;
    a label that has neither is kept as it is behind the prefix [kpi-]. *)
Theorem kpiTestId_clean (label : string) :
  no_space (kpiTestId label) = true
  /\ no_upper (kpiTestId label) = true
  /\ (String.length (kpiTestId label) <= 4 + String.length label)%nat
  /\ (no_space label = true -> no_upper label = true ->
      kpiTestId label = "kpi-" ++ label).
Proof.
  destruct (replace_runs_clean (toLowerCase label) false
              (no_upper_toLowerCase label)) as [H1 [H2 H3]].
  rewrite toLowerCase_length in H3.
  unfold kpiTestId.
  change ("kpi-" ++ ?s) with (String "k" (String "p" (String "i" (String "-" s)))).
  repeat split.
  - simpl. exact H1.
  - simpl. exact H2.
  - simpl. lia.
  - intros Hs Hu. now rewrite (toLowerCase_id label Hu), (replace_runs_id label false Hs).
Qed.

Lemma kpiTestId_clean_witness :
  no_space "streak" = true /\ no_upper "streak" = true
  /\ kpiTestId "streak" = "kpi-" ++ "streak".
Proof.
  split; [reflexivity|]. split; [reflexivity|].
  exact (proj2 (proj2 (proj2 (kpiTestId_clean "streak"))) eq_refl eq_refl).
Defined.

Example kpiTestId_samples :
  kpiTestId "Current Streak" = "kpi-current-streak"
  /\ kpiTestId "Weekly   Completion" = "kpi-weekly-completion"
  /\ kpiTestId " Overall Rate " = "kpi--overall-rate-".
Proof. vm_compute. repeat split; reflexivity. Qed.

End InitialsMore.
